(** * IR frontend deserializer and OpenCL device probe

    A shallow embedding of
      - [ngraph/frontend/ir/src/model.cpp] (the XML deserializer that
        rebuilds an nGraph function from an IR document and a weights blob),
      - [inference-engine/thirdparty/clDNN/runtime/ocl/ocl_device.cpp]
        (the device capability probe),
    together with the properties of these two units.

    Conventions of the embedding:
      - [size_t], [uint64_t] and [int64_t] values are integers in [Z] (or [N]
        for identifiers that are never computed with); wrap-around is written
        out where the source computes with them;
      - a C++ exception is the [Throw] case of [result];
      - [std::map] used for lookup only is a [gmap]; a [std::map] that is
        iterated is a key-sorted association list;
      - a [shared_ptr<Node>] is the id of the layer the node was built from
        (each layer is built at most once), the nodes themselves live in a
        store. *)

From Stdlib Require Import ZArith Bool Ascii String List Lia.
From stdpp Require Import gmap strings list fin_maps sorting.

Local Open Scope Z_scope.

Set Warnings "-register-all,-clear-no-such-hyp".

(** ** Exceptions *)

Inductive exn : Type :=
| IE_exception (msg : string)        (* IE_THROW() << msg *)
| out_of_range (what : string)       (* std::out_of_range *)
| invalid_argument (what : string)   (* std::invalid_argument *)
| runtime_error (what : string)      (* std::runtime_error *)
| ngraph_check_failure (what : string)
| cl_Error (err : Z)                 (* cl::Error, with the OpenCL error code *)
| uninitialized_read (what : string).
    (* no exception: the program reads a variable that was never written,
       which has no defined behaviour; the model stops there *)

Inductive result (A : Type) : Type :=
| Ok (a : A)
| Throw (e : exn).
Arguments Ok {A} a.
Arguments Throw {A} e.

#[global] Instance result_ret : MRet result := fun A a => Ok a.
#[global] Instance result_bind : MBind result := fun A B f m =>
  match m with
  | Ok a => f a
  | Throw e => Throw e
  end.

Definition is_Ok {A} (r : result A) : Prop := exists a, r = Ok a.
Definition throws {A} (r : result A) : Prop := exists e, r = Throw e.

(** ** Characters and strings as the C++ standard library sees them *)

Definition is_digit (c : ascii) : bool :=
  let n := nat_of_ascii c in (48 <=? n)%nat && (n <=? 57)%nat.

(* std::isspace in the "C" locale *)
Definition is_space (c : ascii) : bool :=
  let n := nat_of_ascii c in (n =? 32)%nat || ((9 <=? n)%nat && (n <=? 13)%nat).

Definition digit_val (c : ascii) : Z := Z.of_nat (nat_of_ascii c) - 48.

(* std::tolower in the "C" locale *)
Definition to_lower (c : ascii) : ascii :=
  let n := nat_of_ascii c in
  if (65 <=? n)%nat && (n <=? 90)%nat then ascii_of_nat (n + 32) else c.

Fixpoint skip_space (s : string) : string :=
  match s with
  | String c s' => if is_space c then skip_space s' else s
  | EmptyString => s
  end.

(* the run of decimal digits at the head of [s]: accumulated value, number
   of digits, and the rest *)
Fixpoint scan_digits (s : string) (acc : Z) (n : nat) : Z * nat * string :=
  match s with
  | String c s' =>
      if is_digit c then scan_digits s' (acc * 10 + digit_val c) (S n)
      else (acc, n, s)
  | EmptyString => (acc, n, s)
  end.

(* The integer at the head of a character sequence, as strtoll(.., 10)
   and num_get read it: leading white space, an optional sign, at least one
   digit.  Gives the mathematical value and the unread rest. *)
Definition scan_integer (s : string) : option (Z * string) :=
  let s1 := skip_space s in
  let '(neg, s2) :=
    match s1 with
    | String "-" r => (true, r)
    | String "+" r => (false, r)
    | _ => (false, s1)
    end in
  let '(v, n, rest) := scan_digits s2 0 0 in
  match n with
  | O => None
  | _ => Some (if neg then - v else v, rest)
  end.

Definition INT64_MIN : Z := - 2 ^ 63.
Definition INT64_MAX : Z := 2 ^ 63 - 1.
Definition INT_MIN : Z := - 2 ^ 31.
Definition INT_MAX : Z := 2 ^ 31 - 1.
Definition UINT_MAX : Z := 2 ^ 32 - 1.
Definition SIZE_MOD : Z := 2 ^ 64.

(* static_cast<size_t>(v) *)
Definition to_size_t (v : Z) : Z := v mod SIZE_MOD.

(** [std::istream::operator>>(int64_t&)] on a fresh stream over [s]: the
    stored value and whether the stream is still good.  After a failed
    extraction the variable holds 0, after an overflow the nearest limit
    (C++11). *)
Definition extract_int64 (s : string) : Z * bool :=
  match scan_integer s with
  | None => (0, false)
  | Some (v, _) =>
      if v <? INT64_MIN then (INT64_MIN, false)
      else if INT64_MAX <? v then (INT64_MAX, false)
      else (v, true)
  end.

(** [std::istream::operator>>(std::string&)]: skips white space, then reads
    up to the next white space; the string is empty when nothing is read. *)
Fixpoint take_word (s : string) : string :=
  match s with
  | String c s' => if is_space c then EmptyString else String c (take_word s')
  | EmptyString => EmptyString
  end.

Definition extract_string (s : string) : string := take_word (skip_space s).

(** [std::getline(ss, field, delim)] repeated until the stream ends: the
    fields between delimiters; a trailing delimiter opens no last field, and
    an empty input has no field at all. *)
Fixpoint getline_fields_aux (s : string) (cur : string) : list string :=
  match s with
  | EmptyString => [cur]
  | String c s' =>
      if Ascii.eqb c "," then
        match s' with
        | EmptyString => [cur]
        | _ => cur :: getline_fields_aux s' EmptyString
        end
      else getline_fields_aux s' (cur +:+ String c EmptyString)
  end.

Definition getline_fields (s : string) : list string :=
  match s with
  | EmptyString => []
  | _ => getline_fields_aux s EmptyString
  end.

(** std::string members used by the loader *)
Definition string_last (s : string) : option ascii :=
  match String.length s with
  | O => None
  | S n => String.get n s
  end.

(* s.replace(pos, 1, ","): throws when pos > size; at pos = size nothing is
   removed and the comma is appended *)
Definition string_replace1 (s : string) (pos : nat) (by_ : string) : result string :=
  if (String.length s <? pos)%nat then Throw (out_of_range "basic_string::replace")
  else Ok (String.substring 0 pos s +:+ by_
           +:+ String.substring (pos + 1) (String.length s - (pos + 1)) s).

(* s.find(pat) != npos *)
Fixpoint contains (s pat : string) : bool :=
  String.prefix pat s ||
  match s with
  | EmptyString => false
  | String _ s' => contains s' pat
  end.

(** ** The XML tree (pugixml) *)

(** An element: its tag, its attributes in document order, its text
    ([child_value]) and its child elements in document order. *)
Inductive xml_node : Type :=
| XmlElem (tag : string) (attrs : list (string * string)) (text : string)
          (children : list xml_node).

Definition xml_tag (n : xml_node) : string :=
  match n with XmlElem t _ _ _ => t end.
Definition xml_attrs (n : xml_node) : list (string * string) :=
  match n with XmlElem _ a _ _ => a end.
Definition child_value (n : xml_node) : string :=
  match n with XmlElem _ _ t _ => t end.
Definition xml_children (n : xml_node) : list xml_node :=
  match n with XmlElem _ _ _ c => c end.

(** A pugi::xml_node handle is [option xml_node]; [None] is the empty
    handle. *)
Fixpoint assoc_find {V} (k : string) (l : list (string * V)) : option V :=
  match l with
  | [] => None
  | (k', v) :: l' => if String.eqb k' k then Some v else assoc_find k l'
  end.

(* node.attribute(name): the first attribute of that name *)
Definition attribute (h : option xml_node) (name : string) : option string :=
  match h with
  | None => None
  | Some n => assoc_find name (xml_attrs n)
  end.

(* FOREACH_CHILD (c, node, tag) *)
Definition children_named (h : option xml_node) (tag : string) : list xml_node :=
  match h with
  | None => []
  | Some n => List.filter (fun c => String.eqb (xml_tag c) tag) (xml_children n)
  end.

(* node.child(tag): the first child of that tag *)
Definition child (h : option xml_node) (tag : string) : option xml_node :=
  head (children_named h tag).

(** *** Attribute getters of model.cpp *)

Definition getStrAttribute (node : option xml_node) (name : string) : option string :=
  attribute node name.

(** [getParameters<T>]: [Ok None] is the [false] return (no such attribute).
    [extract] is what [T val; fs >> val;] leaves in [val] for a field, or the
    exception the extraction raises; the value is stored whether or not the
    stream is good afterwards. *)
Fixpoint getParameters_fields {T} (extract : string -> result T) (fields : list string)
  : result (list T) :=
  match fields with
  | [] => Ok []
  | field :: rest =>
      if String.eqb field "" then
        Throw (IE_exception "Cannot get vector of parameters!")
      else
        val ← extract field;
        vs ← getParameters_fields extract rest;
        Ok (val :: vs)
  end.

Definition getParameters {T} (extract : string -> result T) (node : option xml_node)
  (name : string) : result (option (list T)) :=
  match getStrAttribute node name with
  | None => Ok None
  | Some param =>
      vs ← getParameters_fields extract (getline_fields param);
      Ok (Some vs)
  end.

(** [int64_t val; fs >> val;]: on a field of white space only the stream
    fails before the extraction starts and [val] is never written; otherwise
    [val] holds what the extraction stores, 0 when no number is read. *)
Definition stored_int64 (field : string) : result Z :=
  if String.eqb (skip_space field) "" then Throw (uninitialized_read "val")
  else Ok (fst (extract_int64 field)).

(** [std::string val; fs >> val;]: the first word, empty when there is
    none. *)
Definition stored_string (field : string) : result string := Ok (extract_string field).

Definition getParameters_int64 := getParameters stored_int64.
Definition getParameters_string := getParameters stored_string.

(** *** XMLParseUtils

    Modelled from the spec: [xml_parse_utils.h] is not among the sources; the
    specification describes it as attribute getters with typed coercion.  A
    mandatory getter throws when the attribute is absent or is not wholly a
    number of the requested type; a getter with a default returns the default
    when the attribute is absent. *)
Module XMLParseUtils.

Definition GetStrAttr (node : option xml_node) (str : string) : result string :=
  match attribute node str with
  | None => Throw (IE_exception "missing mandatory attribute")
  | Some v => Ok v
  end.

Definition GetStrAttr_def (node : option xml_node) (str def : string) : string :=
  match attribute node str with
  | None => def
  | Some v => v
  end.

(* the whole of the attribute must be one integer within [lo, hi] *)
Definition get_number (lo hi : Z) (node : option xml_node) (str : string) : result Z :=
  match attribute node str with
  | None => Throw (IE_exception "missing mandatory attribute")
  | Some s =>
      match scan_integer s with
      | None => Throw (invalid_argument "stoll")
      | Some (v, rest) =>
          if (v <? INT64_MIN) || (INT64_MAX <? v) then Throw (out_of_range "stoll")
          else if negb (String.eqb rest "") || (v <? lo) || (hi <? v) then
            Throw (IE_exception "attribute is not a number of the expected type")
          else Ok v
      end
  end.

Definition GetIntAttr := get_number INT_MIN INT_MAX.
Definition GetInt64Attr := get_number INT64_MIN INT64_MAX.
Definition GetUIntAttr := get_number 0 UINT_MAX.
Definition GetUInt64Attr := get_number 0 INT64_MAX.

Definition GetInt64Attr_def (node : option xml_node) (str : string) (def : Z) : result Z :=
  match attribute node str with
  | None => Ok def
  | Some _ => GetInt64Attr node str
  end.

End XMLParseUtils.

(** ** Element types and dimensions (nGraph core) *)

(** Modelled from the spec: [ngraph::element::Type_t] and its [bitwidth()]
    (nGraph core, not among the sources); the specification speaks of the
    element type of a port or constant and of its bit width. *)
Inductive Type_t : Type :=
| undefined | dynamic | boolean | bf16 | f16 | f32 | f64
| i4 | i8 | i16 | i32 | i64 | u1 | u4 | u8 | u16 | u32 | u64.

#[global] Instance Type_t_eq_dec : EqDecision Type_t.
Proof. solve_decision. Defined.

(* element::Type::bitwidth() *)
Definition bitwidth (t : Type_t) : Z :=
  match t with
  | undefined | dynamic => 0
  | boolean => 8
  | bf16 | f16 | i16 | u16 => 16
  | f32 | i32 | u32 => 32
  | f64 | i64 | u64 => 64
  | i4 | u4 => 4
  | i8 | u8 => 8
  | u1 => 1
  end.

(** Modelled from the spec: the precision registry
    ([details::convertPrecision] of ie_ngraph_utils.hpp, not among the
    sources) maps a precision name to an element type and throws on an unknown
    name. *)
Definition precision_table : list (string * Type_t) :=
  [ ("f16", f16); ("FP16", f16); ("f32", f32); ("FP32", f32);
    ("bf16", bf16); ("BF16", bf16); ("f64", f64); ("FP64", f64);
    ("i4", i4); ("I4", i4); ("i8", i8); ("I8", i8);
    ("i16", i16); ("I16", i16); ("i32", i32); ("I32", i32);
    ("i64", i64); ("I64", i64);
    ("u1", u1); ("U1", u1); ("BIN", u1); ("u4", u4); ("U4", u4);
    ("u8", u8); ("U8", u8); ("u16", u16); ("U16", u16);
    ("u32", u32); ("U32", u32); ("u64", u64); ("U64", u64);
    ("boolean", boolean); ("BOOL", boolean);
    ("undefined", undefined); ("UNSPECIFIED", undefined) ].

Definition convertPrecision (precision : string) : result Type_t :=
  match assoc_find precision precision_table with
  | Some t => Ok t
  | None => Throw (IE_exception "Incorrect precision")
  end.

(** Modelled from the spec: [ngraph::trim] (nGraph core, not among the
    sources) removes the white space at both ends of a string. *)
Fixpoint rtrim (s : string) : string :=
  match s with
  | EmptyString => EmptyString
  | String c s' =>
      match rtrim s' with
      | EmptyString => if is_space c then EmptyString else String c EmptyString
      | r => String c r
      end
  end.

Definition trim (s : string) : string := rtrim (skip_space s).

(** [operator>>(const std::stringstream&, element::Type&)], the extraction
    that [getParameters<element::Type>] uses: the whole field, trimmed, is
    converted, and a name that is no precision throws. *)
Definition stored_element_type (field : string) : result Type_t :=
  convertPrecision (trim field).

Definition getParameters_element_type := getParameters stored_element_type.

(** Modelled from the spec: [ngraph::Dimension] built from an [int64_t]; the
    value -1 is the dynamic dimension, any other value a static one. *)
Inductive Dimension : Type :=
| dim_static (d : Z)
| dim_dynamic.

Definition Dimension_of (d : Z) : Dimension :=
  if d =? -1 then dim_dynamic else dim_static d.

(** ** Layer parameters *)

Record LayerPortData : Type := mkPort {
  portId : Z;                       (* size_t *)
  dims : list Dimension;
  precision : Type_t;
  names : gset string
}.

Record GenericLayerParams : Type := mkParams {
  layerId : Z;                      (* size_t *)
  version : string;
  name : string;
  type : string;
  inputPorts : list LayerPortData;
  outputPorts : list LayerPortData
}.

(* a default-constructed GenericLayerParams: what std::map::operator[] gives
   for an id that has no layer.  [layerId] is left uninitialised in the source;
   it only appears in messages. *)
Definition GenericLayerParams_default : GenericLayerParams :=
  mkParams 0 "" "" "" [] [].

(* the loop shared by getRealInputPortId and getRealOutputPortId *)
Fixpoint real_port_id (ports : list LayerPortData) (id : Z) (real_id : nat) : option nat :=
  match ports with
  | [] => None
  | it :: rest =>
      if portId it =? id then Some real_id
      else real_port_id rest id (S real_id)
  end.

Definition getRealInputPortId (p : GenericLayerParams) (id : Z) : result nat :=
  match real_port_id (inputPorts p) id 0 with
  | Some real_id => Ok real_id
  | None => Throw (IE_exception "Can not find input port with id")
  end.

Definition getRealOutputPortId (p : GenericLayerParams) (id : Z) : result nat :=
  match real_port_id (outputPorts p) id 0 with
  | Some real_id => Ok real_id
  | None => Throw (IE_exception "Can not find output port with id")
  end.

(** ** parseGenericParams *)

(* FOREACH_CHILD (node, parentNode, "dim") of parsePort *)
Fixpoint parse_dims (dim_nodes : list xml_node) : result (list Dimension) :=
  match dim_nodes with
  | [] => Ok []
  | node :: rest =>
      let dimVal := child_value node in
      let '(dim, good) := extract_int64 dimVal in
      if negb good || (dim <? -1) then
        Throw (IE_exception "dimension must be greater or equal to -1")
      else
        ds ← parse_dims rest;
        Ok (Dimension_of dim :: ds)
  end.

Definition backslash : ascii := "\"%char.

(** The loop that restores names holding a comma.  [restore_names name cur
    rest] stands at the test of the [while]: [cur] is [names[i]], [name] the
    name built so far and [rest] the tokens after index [i].  The result lists
    the names in the order they are emplaced.  Reading [names[++i]] past the
    end of the vector has no defined behaviour; the model stops there with
    [out_of_range "names[++i]"]. *)
Fixpoint restore_names (name cur : string) (rest : list string) : result (list string) :=
  match string_last cur with
  | None => Throw (out_of_range "basic_string::at")
  | Some c =>
      if Ascii.eqb c backslash then
        name' ← string_replace1 name (String.length cur - 1) ",";
        match rest with
        | [] => Throw (out_of_range "names[++i]")
        | next :: rest' => restore_names (name' +:+ next) next rest'
        end
      else
        match rest with
        | [] => Ok [name]
        | next :: rest' =>
            tl ← restore_names next next rest';
            Ok (name :: tl)
        end
  end.

Definition parse_names (parentNode : xml_node) : result (list string) :=
  r ← getParameters_string (Some parentNode) "names";
  match r with
  | None => Ok []
  | Some [] => Ok []
  | Some (first :: rest) => restore_names first first rest
  end.

Definition parsePort (parentNode : xml_node) (input : bool) : result LayerPortData :=
  id ← XMLParseUtils.GetIntAttr (Some parentNode) "id";
  ds ← parse_dims (children_named (Some parentNode) "dim");
  ty ← (if input then Ok undefined
        else preStr ← XMLParseUtils.GetStrAttr (Some parentNode) "precision";
             convertPrecision preStr);
  ns ← parse_names parentNode;
  Ok (mkPort (to_size_t id) ds ty (list_to_set ns)).

Fixpoint parse_ports (ports : list xml_node) (input : bool) : result (list LayerPortData) :=
  match ports with
  | [] => Ok []
  | cn :: rest =>
      p ← parsePort cn input;
      ps ← parse_ports rest input;
      Ok (p :: ps)
  end.

Definition parseGenericParams (node : xml_node) : result GenericLayerParams :=
  id ← XMLParseUtils.GetIntAttr (Some node) "id";
  ver ← XMLParseUtils.GetStrAttr (Some node) "version";
  ty ← XMLParseUtils.GetStrAttr (Some node) "type";
  nm ← XMLParseUtils.GetStrAttr (Some node) "name";
  outs ← parse_ports (children_named (child (Some node) "output") "port") false;
  ins ← parse_ports (children_named (child (Some node) "input") "port") true;
  Ok (mkParams (to_size_t id) ver nm ty ins outs).

(** ** Nodes, outputs and the weights blob *)

(** Modelled from the spec: [ngraph::Output<Node>] (nGraph core, not among
    the sources), the output port of a node handle: a node and one of its
    output indices. *)
Record Output : Type := mkOutput {
  out_node : Z;
  out_index : nat
}.

(** Modelled from the spec: [op::FrameworkNodeAttrs] (ngraph_ops, not among
    the sources): the opset name, the type name and the attributes of <data>
    as a map from names to strings. *)
Record FrameworkNodeAttrs : Type := mkFrameworkNodeAttrs {
  fw_opset_name : string;       (* set_opset_name *)
  fw_type_name : string;        (* set_type_name *)
  fw_attrs : gmap string string (* operator[] *)
}.

(** Modelled from the spec: [ngraph::Node] (nGraph core, not among the
    sources), the opaque handle of a constructed operator.  The record holds
    what the loader observes of it: the class tests made with
    [dynamic_pointer_cast], the variable id of an Assign or ReadValue, the
    arguments, the element types of the outputs, the control dependencies,
    the decorations [createNode] adds and, for a FrameworkNode, the
    attributes it records. *)
Record Node : Type := mkNode {
  n_type_name : string;
  n_is_parameter : bool;
  n_is_result : bool;
  n_is_sink : bool;
  n_read_value : option string;     (* Some id: a ReadValueBase *)
  n_assign : option string;         (* Some id: an AssignBase *)
  n_inputs : list (option Output);
  n_outputs : list Type_t;
  n_control_deps : list Z;
  n_friendly_name : string;
  n_rt_info : list (string * string);
  n_output_names : list (gset string);
  n_framework_attrs : option FrameworkNodeAttrs   (* Some attrs: a FrameworkNode *)
}.

Definition set_inputs (n : Node) (ins : list (option Output)) : Node :=
  mkNode (n_type_name n) (n_is_parameter n) (n_is_result n) (n_is_sink n)
         (n_read_value n) (n_assign n) ins (n_outputs n) (n_control_deps n)
         (n_friendly_name n) (n_rt_info n) (n_output_names n) (n_framework_attrs n).

Definition add_control_dependency (n : Node) (dep : Z) : Node :=
  mkNode (n_type_name n) (n_is_parameter n) (n_is_result n) (n_is_sink n)
         (n_read_value n) (n_assign n) (n_inputs n) (n_outputs n)
         (n_control_deps n ++ [dep])
         (n_friendly_name n) (n_rt_info n) (n_output_names n) (n_framework_attrs n).

(** Modelled from the spec: [Node::output(i)] of nGraph core is not among
    the sources; a node handle exposes [output(i)].  Every node has at least
    one output, a larger index must be below the number of outputs. *)
Definition Node_output (id : Z) (n : Node) (output_index : nat) : result Output :=
  if (0 <? output_index)%nat && (length (n_outputs n) <=? output_index)%nat then
    Throw (out_of_range "node output index is out of range")
  else Ok (mkOutput id output_index).

(** Modelled from the spec: [InferenceEngine::Blob] (not among the sources),
    the weights blob, a single immutable byte sequence: its size in bytes and
    the byte at each offset from [cbuffer()]. *)
Record Blob : Type := mkBlob {
  byteSize : Z;
  cbuffer : Z -> Z
}.

(** ** Opsets and node creation *)

Section Loader.

(** A freshly created operator of some opset, and the part of node creation
    that belongs to the operator library: [set_arguments],
    [visit_attributes] with a deserializer over the layer,
    [constructor_validate_and_infer_types] and [clone_with_new_inputs]. *)
Variable Op : Type.
Variable construct :
  Op -> gmap Z Node -> list (option Output) -> option xml_node -> Blob -> result Node.

(** Modelled from the spec: [ngraph::OpSet] (nGraph core, not among the
    sources), a case-insensitive factory producing a fresh operator by type
    name. *)
Record OpSet : Type := mkOpSet {
  create_insensitive : string -> option Op
}.

Variables get_opset1 get_opset2 get_opset3 get_opset4
          get_opset5 get_opset6 get_opset7 get_opset8 : OpSet.

(** *** InputModelIR::convert: the opset registry *)

Definition default_opsets : gmap string OpSet :=
  <["opset8" := get_opset8]> (<["opset7" := get_opset7]> (
  <["opset6" := get_opset6]> (<["opset5" := get_opset5]> (
  <["opset4" := get_opset4]> (<["opset3" := get_opset3]> (
  <["opset2" := get_opset2]> (<["opset1" := get_opset1]> ∅))))))).

(* one extension: the opsets it provides and its version description *)
Record Extension : Type := mkExtension {
  getOpSets : list (string * OpSet);
  ext_description : option string
}.

Fixpoint add_opsets (its : list (string * OpSet)) (opsets : gmap string OpSet)
  : result (gmap string OpSet) :=
  match its with
  | [] => Ok opsets
  | (nm, o) :: rest =>
      match opsets !! nm with
      | Some _ =>
          Throw (IE_exception "Cannot add opset. Opset with the same name already exists.")
      | None => add_opsets rest (<[nm := o]> opsets)
      end
  end.

Fixpoint load_custom_opsets (exts : list Extension) (opsets : gmap string OpSet)
  : result (gmap string OpSet) :=
  match exts with
  | [] => Ok opsets
  | ext :: rest =>
      opsets' ← add_opsets (getOpSets ext) opsets;
      load_custom_opsets rest opsets'
  end.

Definition load_opsets (exts : list Extension) : result (gmap string OpSet) :=
  load_custom_opsets exts default_opsets.

Definition framework_node_enabled (exts : list Extension) : bool :=
  existsb (fun ext => match ext_description ext with
                      | Some d => String.eqb d "framework_node_ext"
                      | None => false
                      end) exts.

(** *** XmlDeserializer::createNode *)

Variable m_opsets : gmap string OpSet.
Variable m_use_framework_node : bool.

Definition experimental_ops_added_to_opset : list string :=
  [ "ExperimentalDetectronDetectionOutput";
    "ExperimentalDetectronGenerateProposalsSingleImage";
    "ExperimentalDetectronPriorGridGenerator";
    "ExperimentalDetectronROIFeatureExtractor";
    "ExperimentalDetectronTopKROIs";
    "GRUCell";
    "RNNCell";
    "Proposal" ].

Definition string_in (s : string) (l : list string) : bool :=
  existsb (String.eqb s) l.

Definition get_element_type (store : gmap Z Node) (o : Output) : Type_t :=
  match store !! out_node o with
  | Some n => default undefined (n_outputs n !! out_index o)
  | None => undefined
  end.

(* "Check that inputs are correctly defined" *)
Fixpoint check_inputs (store : gmap Z Node) (inputs : list (option Output)) : result unit :=
  match inputs with
  | [] => Ok tt
  | None :: _ => Throw (IE_exception "layer has incorrect input")
  | Some o :: rest =>
      if decide (get_element_type store o = undefined) then
        Throw (IE_exception "layer has undefined element type for input")
      else check_inputs store rest
  end.

(* "Save run time info", the friendly name and the tensor names *)
Definition rt_info_of (node : option xml_node) : list (string * string) :=
  let dn := child node "data" in
  match dn with
  | None => []
  | Some _ =>
      (match attribute dn "PrimitivesPriority" with
       | Some v => [("PrimitivesPriority", v)] | None => [] end) ++
      (match attribute dn "alt_width" with
       | Some v => [("alt_width", v)] | None => [] end)
  end.

Definition decorate (n : Node) (node : option xml_node) (params : GenericLayerParams) : Node :=
  mkNode (n_type_name n) (n_is_parameter n) (n_is_result n) (n_is_sink n)
         (n_read_value n) (n_assign n) (n_inputs n) (n_outputs n) (n_control_deps n)
         (name params)
         (rt_info_of node ++ n_rt_info n)
         (imap (fun i old =>
                  match outputPorts params !! i with
                  | Some port => if decide (names port = ∅) then old else names port
                  | None => old
                  end) (n_output_names n))
         (n_framework_attrs n).

Definition skip_names : list string :=
  [ "input_descriptions"; "output_descriptions"; "special_body_ports" ].

(** [on_adapter(name, ValueAccessor<void>&)] for an adapter of
    [op::FrameworkNodeAttrs]: the mandatory attributes type and version of
    the layer, and every attribute of <data> under its name, a later one
    replacing an earlier one of the same name.  [Ok None]: the function
    returns without setting the adapter. *)
Definition on_adapter_framework_node_attrs (m_node : option xml_node) (name : string)
  : result (option FrameworkNodeAttrs) :=
  if string_in name skip_names &&
     match getStrAttribute (child m_node "data") name with Some _ => false | None => true end
  then Ok None
  else
    type_ ← XMLParseUtils.GetStrAttr m_node "type";
    version_ ← XMLParseUtils.GetStrAttr m_node "version";
    let dn := child m_node "data" in
    let node_attrs :=
      match dn with
      | Some d => fold_left (fun m kv => <[fst kv := snd kv]> m) (xml_attrs d) ∅
      | None => ∅
      end in
    Ok (Some (mkFrameworkNodeAttrs version_ type_ node_attrs)).

(** Modelled from the spec: [op::FrameworkNode] (ngraph_ops, not among the
    sources) records the type, the version and the attributes of <data>; its
    [visit_attributes] hands the visitor one attribute,
    "framework_node_attrs", of the kind [op::FrameworkNodeAttrs]. *)
Definition FrameworkNode (inputs : list (option Output)) : Node :=
  mkNode "FrameworkNode" false false false None None inputs [] [] "" [] []
         (Some (mkFrameworkNodeAttrs "" "" ∅)).

Definition FrameworkNode_visit_attributes (n : Node) (node : option xml_node) : result Node :=
  attrs ← on_adapter_framework_node_attrs node "framework_node_attrs";
  Ok (mkNode (n_type_name n) (n_is_parameter n) (n_is_result n) (n_is_sink n)
             (n_read_value n) (n_assign n) (n_inputs n) (n_outputs n) (n_control_deps n)
             (n_friendly_name n) (n_rt_info n) (n_output_names n)
             (match attrs with Some a => Some a | None => n_framework_attrs n end)).

(* set_output_type(index, output_params.precision, ...) for every declared
   output port *)
Definition set_output_types (n : Node) (params : GenericLayerParams) : Node :=
  mkNode (n_type_name n) (n_is_parameter n) (n_is_result n) (n_is_sink n)
         (n_read_value n) (n_assign n) (n_inputs n)
         (List.map precision (outputPorts params)) (n_control_deps n)
         (n_friendly_name n) (n_rt_info n)
         (replicate (length (outputPorts params)) ∅)
         (n_framework_attrs n).

(* the body of "if (!ngraphNode && m_use_framework_node)": the FrameworkNode
   built when no opset is found *)
Definition framework_node (inputs : list (option Output)) (node : option xml_node)
  (params : GenericLayerParams) : result Node :=
  n ← FrameworkNode_visit_attributes (FrameworkNode inputs) node;
  Ok (set_output_types n params).

(* the body of "if (!ngraphNode && opsetIt != m_opsets.end())", entered
   with the opset found so far *)
Definition create_from_opset (opset0 : OpSet) (store : gmap Z Node)
  (inputs : list (option Output)) (node : option xml_node) (weights : Blob)
  (params : GenericLayerParams) : result Node :=
  let type_ := if String.eqb (type params) "Const" then "Constant" else type params in
  opset ←
    (if String.eqb (version params) "opset1" &&
        (String.eqb type_ "MVN" || String.eqb type_ "ROIPooling" || String.eqb type_ "ReorgYolo")
     then match m_opsets !! "opset2" with
          | None => Throw (IE_exception "Cannot create layer from unsupported opset")
          | Some o => Ok o
          end
     else Ok opset0);
  match create_insensitive opset type_ with
  | None => Throw (IE_exception "Opset doesn't contain the operation with type")
  | Some op => construct op store inputs node weights
  end.

Definition createNode (store : gmap Z Node) (inputs : list (option Output))
  (node : option xml_node) (weights : Blob) (params : GenericLayerParams) : result Node :=
  _ ← check_inputs store inputs;
  let opsetIt := m_opsets !! version params in
  let opsetIt :=
    if string_in (type params) experimental_ops_added_to_opset &&
       (String.eqb (version params) "experimental" || String.eqb (version params) "extension")
    then m_opsets !! "opset6" else opsetIt in
  ngraphNode ←
    match opsetIt with
    | Some opset0 =>
        n ← create_from_opset opset0 store inputs node weights params;
        Ok (Some n)
    | None => Ok None
    end;
  ngraphNode ←
    match ngraphNode with
    | None =>
        if m_use_framework_node then
          n ← framework_node inputs node params;
          Ok (Some n)
        else Ok None
    | Some n => Ok (Some n)
    end;
  match ngraphNode with
  | None => Throw (IE_exception "Cannot create layer from unsupported opset")
  | Some n => Ok (decorate n node params)
  end.

(** *** XmlDeserializer::parse_function *)

Record edge : Type := mkEdge {
  fromLayerId : Z;
  fromPortId : Z;
  toPortId : Z
}.

Record node_params : Type := mkNodeParams {
  np_xml : option xml_node;
  np_params : GenericLayerParams
}.

(* params[id] and edges[id] of std::map: absent keys read as the default
   value *)
Definition params_at (params : gmap Z node_params) (id : Z) : node_params :=
  default (mkNodeParams None GenericLayerParams_default) (params !! id).

Definition edges_at (edges : gmap Z (list edge)) (id : Z) : list edge :=
  default [] (edges !! id).

(* the entry that edges[id] creates when there is none *)
Definition touch (edges : gmap Z (list edge)) (id : Z) : gmap Z (list edge) :=
  match edges !! id with
  | Some _ => edges
  | None => <[id := []]> edges
  end.

(* unordered_map::insert: an existing key keeps its value *)
Definition insert_new {K V} `{Countable K} (k : K) (v : V) (m : gmap K V) : gmap K V :=
  match m !! k with
  | Some _ => m
  | None => <[k := v]> m
  end.

Fixpoint fold_result {A S} (f : S -> A -> result S) (l : list A) (s : S) : result S :=
  match l with
  | [] => Ok s
  | a :: l' => s' ← f s a; fold_result f l' s'
  end.

Fixpoint fold_option {A S} (f : A -> S -> option S) (l : list A) (s : S) : option S :=
  match l with
  | [] => Some s
  | a :: l' => s' ← f a s; fold_option f l' s'
  end.

(** "Read all layers and store their parameters in params map" *)
Record layer_table : Type := mkLayers {
  lt_params : gmap Z node_params;
  lt_outputs : list Z;
  lt_opName : gset string
}.

Definition read_layer (t : layer_table) (node : xml_node) : result layer_table :=
  node_param ← parseGenericParams node;
  if bool_decide (name node_param ∈ lt_opName t) && negb (String.eqb (type node_param) "Result")
  then Throw (IE_exception "Invalid IR! name is not unique!")
  else
    Ok (mkLayers
          (<[layerId node_param := mkNodeParams (Some node) node_param]> (lt_params t))
          (if String.eqb (type node_param) "Result" || String.eqb (type node_param) "Assign"
           then lt_outputs t ++ [layerId node_param] else lt_outputs t)
          ({[name node_param]} ∪ lt_opName t)).

Definition read_layers (root : option xml_node) : result layer_table :=
  fold_result read_layer (children_named (child root "layers") "layer") (mkLayers ∅ [] ∅).

(** "Read all edges and store them for further usage" *)
Definition read_edge (edges : gmap Z (list edge)) (_ec : xml_node)
  : result (gmap Z (list edge)) :=
  fromLayer ← XMLParseUtils.GetUIntAttr (Some _ec) "from-layer";
  fromPort ← XMLParseUtils.GetUIntAttr (Some _ec) "from-port";
  toLayer ← XMLParseUtils.GetUIntAttr (Some _ec) "to-layer";
  toPort ← XMLParseUtils.GetUIntAttr (Some _ec) "to-port";
  Ok (<[toLayer := edges_at edges toLayer ++ [mkEdge fromLayer fromPort toPort]]> edges).

Definition read_edges (root : option xml_node) : result (gmap Z (list edge)) :=
  fold_result read_edge (children_named (child root "edges") "edge") ∅.

(** "Run DFS starting from outputs to get nodes topological order".  The
    recursive lambda is given a recursion budget; [dfs_budget] is the one
    [parse_function] uses, and [topological_order_total] shows that it is
    never exhausted. *)
Record dfs_state : Type := mkDfs {
  d_edges : gmap Z (list edge);
  d_used : gset Z;
  d_order : list Z
}.

Fixpoint dfs (budget : nat) (id : Z) (st : dfs_state) : option dfs_state :=
  match budget with
  | O => None
  | S budget' =>
      if bool_decide (id ∈ d_used st) then Some st
      else
        let st1 := mkDfs (touch (d_edges st) id) ({[id]} ∪ d_used st) (d_order st) in
        st2 ← fold_option (fun e => dfs budget' (fromLayerId e))
                          (edges_at (d_edges st) id) st1;
        Some (mkDfs (d_edges st2) (d_used st2) (d_order st2 ++ [id]))
  end.

Definition edge_sources (edges : gmap Z (list edge)) : list Z :=
  '(_, es) ← map_to_list edges; fromLayerId <$> es.

Definition dfs_budget (edges : gmap Z (list edge)) (outputs : list Z) : nat :=
  S (length (outputs ++ edge_sources edges)).

Definition topological_order (edges : gmap Z (list edge)) (outputs : list Z)
  : option dfs_state :=
  fold_option (dfs (dfs_budget edges outputs)) outputs (mkDfs edges ∅ []).

(** "Following topological order create nGraph operations" *)
Record IoMap : Type := mkIoMap {
  io_inputs : gmap Z Z;
  io_outputs : gmap Z Z
}.

Record FunctionNodes : Type := mkFunctionNodes {
  fn_parameters : list Z;
  fn_results : list Z;
  fn_all : list Z;
  fn_sinks : list Z
}.

Record build_state : Type := mkBuild {
  id_to_node : gmap Z Node;
  func_nodes : FunctionNodes;
  io_map : IoMap;
  variable_id_to_read_value : gmap string Z
}.

Definition gather_step (params : gmap Z node_params) (store : gmap Z Node)
  (p : GenericLayerParams) (inputs : list (option Output)) (e : edge)
  : result (list (option Output)) :=
  match store !! fromLayerId e with
  | None => Throw (IE_exception "Attempt to access node that not in graph.")
  | Some input_node =>
      let p_output := np_params (params_at params (fromLayerId e)) in
      realInputPortId ← getRealInputPortId p (toPortId e);
      if (length inputs <=? realInputPortId)%nat then
        Throw (IE_exception "layer is inconsistent!")
      else
        realOutputPortId ← getRealOutputPortId p_output (fromPortId e);
        out ← Node_output (fromLayerId e) input_node realOutputPortId;
        Ok (<[realInputPortId := Some out]> inputs)
  end.

Definition gather_inputs (params : gmap Z node_params) (store : gmap Z Node)
  (p : GenericLayerParams) (es : list edge) : result (list (option Output)) :=
  fold_result (gather_step params store p) es (replicate (length es) None).

Definition index_node (st : build_state) (layer_id : Z) (node : Node) : build_state :=
  let fn := func_nodes st in
  let io := io_map st in
  let '(params_, io_in) :=
    if n_is_parameter node
    then (fn_parameters fn ++ [layer_id],
          insert_new layer_id (Z.of_nat (length (fn_parameters fn))) (io_inputs io))
    else (fn_parameters fn, io_inputs io) in
  let '(results_, io_out) :=
    if n_is_result node
    then (fn_results fn ++ [layer_id],
          insert_new layer_id (Z.of_nat (length (fn_results fn))) (io_outputs io))
    else (fn_results fn, io_outputs io) in
  let sinks_ := if n_is_sink node then fn_sinks fn ++ [layer_id] else fn_sinks fn in
  let vars :=
    match n_read_value node with
    | Some variable_id => <[variable_id := layer_id]> (variable_id_to_read_value st)
    | None => variable_id_to_read_value st
    end in
  mkBuild (<[layer_id := node]> (id_to_node st))
          (mkFunctionNodes params_ results_ (fn_all fn ++ [layer_id]) sinks_)
          (mkIoMap io_in io_out)
          vars.

Definition build_layer (weights : Blob) (params : gmap Z node_params)
  (edges : gmap Z (list edge)) (st : build_state) (layer_id : Z) : result build_state :=
  let p := params_at params layer_id in
  match edges !! layer_id with
  | None => Ok st
  | Some es =>
      inputs ← gather_inputs params (id_to_node st) (np_params p) es;
      node ← createNode (id_to_node st) inputs (np_xml p) weights (np_params p);
      Ok (index_node st layer_id node)
  end.

Definition build_nodes (weights : Blob) (params : gmap Z node_params)
  (edges : gmap Z (list edge)) (order : list Z) (io : IoMap) : result build_state :=
  fold_result (build_layer weights params edges) order
              (mkBuild ∅ (mkFunctionNodes [] [] [] []) io ∅).

(** The function: results, sinks, parameters and name as they are handed to
    [ngraph::Function], and the nodes the handles refer to. *)
Record Function : Type := mkFunction {
  f_results : list Z;
  f_sinks : list Z;
  f_parameters : list Z;
  f_name : string;
  f_nodes : gmap Z Node
}.

(* the loop over func_nodes.sinks after the function is made *)
Definition patch_assign (vars : gmap string Z) (store : gmap Z Node) (sink : Z)
  : result (gmap Z Node) :=
  match store !! sink with
  | None => Ok store
  | Some n =>
      match n_assign n with
      | None => Ok store
      | Some variable_id =>
          match vars !! variable_id with
          | None => Throw (out_of_range "map::at")
          | Some read_value => Ok (<[sink := add_control_dependency n read_value]> store)
          end
      end
  end.

(** Everything up to and including the construction of the nodes. *)
Definition construct_function_nodes (root : option xml_node) (weights : Blob) (io : IoMap)
  : result build_state :=
  layers ← read_layers root;
  edges ← read_edges root;
  match topological_order edges (lt_outputs layers) with
  | None => Throw (runtime_error "dfs budget exhausted")
  | Some d => build_nodes weights (lt_params layers) (d_edges d) (d_order d) io
  end.

Definition make_function (root : option xml_node) (st : build_state) : result Function :=
  store ← fold_result (patch_assign (variable_id_to_read_value st))
                      (fn_sinks (func_nodes st)) (id_to_node st);
  Ok (mkFunction (fn_results (func_nodes st)) (fn_sinks (func_nodes st))
                 (fn_parameters (func_nodes st))
                 (XMLParseUtils.GetStrAttr_def root "name" "")
                 store).

Definition parse_function (root : option xml_node) (weights : Blob) (io : IoMap)
  : result (Function * IoMap) :=
  st ← construct_function_nodes root weights io;
  f ← make_function root st;
  Ok (f, io_map st).

End Loader.

(** ** The attribute visitor: constant buffers *)

(** [(float)n] for an unsigned 64-bit [n]: the nearest number with a 24-bit
    significand, ties to the even significand (IEEE 754 binary32, default
    rounding).  The result is an integer, given exactly. *)
Definition f32_of_u64 (n : Z) : Z :=
  if n <? 2 ^ 24 then n
  else
    let e := Z.log2 n - 23 in
    let q := n / 2 ^ e in
    let r := n mod 2 ^ e in
    let half := 2 ^ (e - 1) in
    let q' := if r <? half then q
              else if half <? r then q + 1
              else if Z.even q then q else q + 1 in
    q' * 2 ^ e.

(** [std::ceil(x / 8.f)] for a binary32 integer [x]: both the division by a
    power of two and the rounding up are exact. *)
Definition f32_ceil_div8 (x : Z) : Z := (x + 7) / 8.

(** Modelled from the spec: [ngraph::shape_size] (nGraph core) is the volume
    of the shape, the product of its dimensions; here accumulated in a
    [size_t]. *)
Definition shape_size (shape : list Z) : Z :=
  fold_left (fun size d => to_size_t (size * d)) shape 1.

(* size < std::ceil(shape_size(shape) * el_type.bitwidth() / 8.f) *)
Definition size_below_shape (size : Z) (shape : list Z) (el_type : Type_t) : bool :=
  f32_of_u64 size <? f32_ceil_div8 (f32_of_u64 (to_size_t (shape_size shape * bitwidth el_type))).

(** Modelled from the spec: [runtime::AlignedBuffer] and
    [runtime::SharedBuffer] (nGraph core, not among the sources): a buffer
    that owns a copy, and a view that references a slice of the weights and
    keeps the blob alive. *)
Inductive AlignedBuffer : Type :=
| OwnedBuffer (chars : string)
    (* AlignedBuffer(value.size()) filled with a copy of the attribute *)
| SharedBuffer (data : Z) (size : Z) (owner : Blob).
    (* SharedBuffer(cbuffer() + data, size, m_weights): a view of the blob *)

Definition seqZ_from (start : Z) (len : Z) : list Z :=
  List.map (fun i => start + Z.of_nat i) (seq 0 (Z.to_nat len)).

(* the bytes a shared buffer gives access to *)
Definition shared_bytes (data size : Z) (owner : Blob) : list Z :=
  List.map (cbuffer owner) (seqZ_from data size).

(** [on_adapter(name, ValueAccessor<void>&)] for an adapter of
    [shared_ptr<runtime::AlignedBuffer>].  [Ok None]: the function returns
    without setting the adapter. *)
Definition on_adapter_aligned_buffer (m_node : option xml_node) (m_weights : Blob)
  (name : string) : result (option AlignedBuffer) :=
  if string_in name skip_names &&
     match getStrAttribute (child m_node "data") name with Some _ => false | None => true end
  then Ok None
  else
    let dn := child m_node "data" in
    type_ ← XMLParseUtils.GetStrAttr m_node "type";
    match dn with
    | None => Throw (IE_exception "No attrtibutes defined for op!")
    | Some _ =>
        match getStrAttribute dn name with
        | Some value => Ok (Some (OwnedBuffer value))
        | None =>
            if String.eqb name "value" && String.eqb type_ "Const" then
              offset ← XMLParseUtils.GetUInt64Attr dn "offset";
              size ← XMLParseUtils.GetUInt64Attr dn "size";
              match getStrAttribute dn "element_type" with
              | None => Ok None
              | Some el_type_str =>
                  shape_opt ← getParameters_int64 dn "shape";
                  match shape_opt with
                  | None => Ok None
                  | Some shape =>
                      el_type ← convertPrecision el_type_str;
                      let length := byteSize m_weights in
                      if length =? 0 then
                        Throw (IE_exception
                                 "Empty weights data in bin file or bin file cannot be found!")
                      else if length <? to_size_t (offset + size) then
                        Throw (IE_exception "Incorrect weights in bin file!")
                      else if size_below_shape size shape el_type then
                        Throw (IE_exception "Attribute and shape size are inconsistent for op!")
                      else Ok (Some (SharedBuffer offset size m_weights))
                  end
              end
            else Ok None
        end
    end.

(** ** Sub-graph operators: the port map *)

(** Modelled from the spec: the input and output descriptions of
    [op::util::SubGraphOp] (nGraph core, not among the sources), with the
    constructor arguments in the order the loader passes them. *)
Inductive InputDescription : Type :=
| SliceInputDescription
    (input_index body_parameter_index start stride part_size end_ axis : Z)
| MergedInputDescription (input_index body_parameter_index body_value_index : Z)
| InvariantInputDescription (input_index body_parameter_index : Z).

Inductive OutputDescription : Type :=
| ConcatOutputDescription
    (body_value_index output_index start stride part_size end_ axis : Z)
| BodyOutputDescription (body_value_index output_index iteration : Z).

(* std::map<K, xml_node>::emplace on a key-sorted list: a key that is
   already present keeps its node *)
Fixpoint map_emplace {V} (k : Z) (v : V) (m : list (Z * V)) : list (Z * V) :=
  match m with
  | [] => [(k, v)]
  | (k', v') :: m' =>
      if k <? k' then (k, v) :: m
      else if k =? k' then m
      else (k', v') :: map_emplace k v m'
  end.

(* unordered_map::at *)
Definition map_at (m : gmap Z Z) (k : Z) : result Z :=
  match m !! k with
  | Some v => Ok v
  | None => Throw (out_of_range "unordered_map::at")
  end.

Definition UINT64_MINUS_ONE : Z := to_size_t (-1).

Definition extend_io_map (io : IoMap) (layer : xml_node) : result IoMap :=
  type_ ← XMLParseUtils.GetStrAttr (Some layer) "type";
  if String.eqb type_ "Parameter" then
    id ← XMLParseUtils.GetUIntAttr (Some layer) "id";
    Ok (mkIoMap (insert_new id UINT64_MINUS_ONE (io_inputs io)) (io_outputs io))
  else if String.eqb type_ "Result" then
    id ← XMLParseUtils.GetUIntAttr (Some layer) "id";
    Ok (mkIoMap (io_inputs io) (insert_new id UINT64_MINUS_ONE (io_outputs io)))
  else Ok io.

Definition updated_io_map (io_map : IoMap) (node : option xml_node) : result IoMap :=
  let body_node := child node "body" in
  match body_node with
  | None => Throw (IE_exception "Missing body part.")
  | Some _ =>
      fold_result extend_io_map (children_named (child body_node "layers") "layer") io_map
  end.

(* "Parse PortMap": the nodes of one kind keyed by external_port_id; the key
   type of the map is uint64_t for the inputs and int64_t for the outputs *)
Definition port_map_entries (key_of : Z -> Z) (node : option xml_node) (kind : string)
  : result (list (Z * xml_node)) :=
  fold_result (fun m x =>
                 ext_port_id ← XMLParseUtils.GetInt64Attr (Some x) "external_port_id";
                 Ok (map_emplace (key_of ext_port_id) x m))
              (children_named (child node "port_map") kind) [].

(* the search through <back_edges>: the first edge whose to-layer is the body
   parameter *)
Fixpoint find_back_edge (xml_edges : list xml_node) (body_parameter_index : Z)
  : result (option xml_node) :=
  match xml_edges with
  | [] => Ok None
  | xml_edge :: rest =>
      to_layer ← XMLParseUtils.GetUIntAttr (Some xml_edge) "to-layer";
      if to_layer =? body_parameter_index then Ok (Some xml_edge)
      else find_back_edge rest body_parameter_index
  end.

(* the body of the loop over input_map: the descriptions pushed for one
   entry *)
Definition describe_input (up_io_map : IoMap) (node : option xml_node) (xml_input : xml_node)
  : result (list InputDescription) :=
  let axis_attr := attribute (Some xml_input) "axis" in
  ti_input_index ← XMLParseUtils.GetInt64Attr (Some xml_input) "external_port_id";
  body_parameter_index ← XMLParseUtils.GetUIntAttr (Some xml_input) "internal_layer_id";
  match axis_attr with
  | Some _ =>
      axis ← XMLParseUtils.GetUIntAttr (Some xml_input) "axis";
      start ← XMLParseUtils.GetInt64Attr_def (Some xml_input) "start" 0;
      stride ← XMLParseUtils.GetInt64Attr_def (Some xml_input) "stride" 1;
      end_ ← XMLParseUtils.GetInt64Attr_def (Some xml_input) "end" (-1);
      part_size ← XMLParseUtils.GetInt64Attr_def (Some xml_input) "part_size" 1;
      input_index ← map_at (io_inputs up_io_map) body_parameter_index;
      Ok [SliceInputDescription ti_input_index input_index start stride part_size end_ axis]
  | None =>
      back ← find_back_edge (children_named (child node "back_edges") "edge")
                            body_parameter_index;
      match back with
      | Some xml_edge =>
          from_layer ← XMLParseUtils.GetUIntAttr (Some xml_edge) "from-layer";
          input_index ← map_at (io_inputs up_io_map) body_parameter_index;
          output_index ← map_at (io_outputs up_io_map) from_layer;
          Ok [MergedInputDescription ti_input_index input_index output_index]
      | None =>
          if 0 <=? ti_input_index then
            input_index ← map_at (io_inputs up_io_map) body_parameter_index;
            Ok [InvariantInputDescription ti_input_index input_index]
          else Ok []
      end
  end.

Definition parseInputDescription (io_map : IoMap) (node : option xml_node)
  : result (list InputDescription) :=
  up_io_map ← updated_io_map io_map node;
  input_map ← port_map_entries to_size_t node "input";
  fold_result (fun inputs input =>
                 ds ← describe_input up_io_map node (snd input);
                 Ok (inputs ++ ds))
              input_map [].

(* the body of the loop over output_map: the description pushed for one
   entry, if any, for the current output_number *)
Definition describe_output (up_io_map : IoMap) (output_number : Z) (xml_output : xml_node)
  : result (option OutputDescription) :=
  let axis_attr := attribute (Some xml_output) "axis" in
  body_result_index ← XMLParseUtils.GetUIntAttr (Some xml_output) "internal_layer_id";
  ext ← XMLParseUtils.GetInt64Attr (Some xml_output) "external_port_id";
  if 0 <=? ext then
    match axis_attr with
    | Some _ =>
        axis ← XMLParseUtils.GetInt64Attr (Some xml_output) "axis";
        start ← XMLParseUtils.GetInt64Attr_def (Some xml_output) "start" 0;
        stride ← XMLParseUtils.GetInt64Attr_def (Some xml_output) "stride" 1;
        end_ ← XMLParseUtils.GetInt64Attr_def (Some xml_output) "end" (-1);
        part_size ← XMLParseUtils.GetInt64Attr_def (Some xml_output) "part_size" 1;
        output_index ← map_at (io_outputs up_io_map) body_result_index;
        Ok (Some (ConcatOutputDescription output_index output_number
                                          start stride part_size end_ axis))
    | None =>
        output_index ← map_at (io_outputs up_io_map) body_result_index;
        Ok (Some (BodyOutputDescription output_index output_number (-1)))
    end
  else Ok None.

(* one turn of the loop: the vector of descriptions and output_number (a
   count of vector elements, which stays far below 2^64) *)
Definition output_step (up_io_map : IoMap) (st : list OutputDescription * Z)
  (output : Z * xml_node) : result (list OutputDescription * Z) :=
  let '(outputs, output_number) := st in
  d ← describe_output up_io_map output_number (snd output);
  match d with
  | Some desc => Ok (outputs ++ [desc], output_number + 1)
  | None => Ok (outputs, output_number)
  end.

Definition parseOutputDescription (io_map : IoMap) (node : option xml_node)
  : result (list OutputDescription) :=
  up_io_map ← updated_io_map io_map node;
  output_map ← port_map_entries (fun k => k) node "output";
  st ← fold_result (output_step up_io_map) output_map ([], 0);
  Ok (fst st).

(** Modelled from the spec: [op::v5::Loop::SpecialBodyPorts] (nGraph core,
    not among the sources): the two [int64_t] indices of the special ports of
    a Loop body, -1 where there is none. *)
Record SpecialBodyPorts : Type := mkSpecialBodyPorts {
  current_iteration_input_idx : Z;
  body_condition_output_idx : Z
}.

(* the conversion of a uint64_t to int64_t *)
Definition to_int64 (v : Z) : Z :=
  let w := v mod SIZE_MOD in
  if w <? 2 ^ 63 then w else w - SIZE_MOD.

(* one turn of a loop of parsePurposeAttribute over a port map: the index
   kept so far is replaced when the entry has the purpose looked for *)
Definition purpose_step (wanted : string) (indices : gmap Z Z) (idx : Z)
  (entry : Z * xml_node) : result Z :=
  let purpose := XMLParseUtils.GetStrAttr_def (Some (snd entry)) "purpose" "" in
  body_parameter_index ← XMLParseUtils.GetUIntAttr (Some (snd entry)) "internal_layer_id";
  if String.eqb purpose wanted then
    v ← map_at indices body_parameter_index;
    Ok (to_int64 v)
  else Ok idx.

Definition parsePurposeAttribute (io_map : IoMap) (node : option xml_node)
  : result SpecialBodyPorts :=
  up_io_map ← updated_io_map io_map node;
  if bool_decide (io_inputs up_io_map = ∅) && bool_decide (io_outputs up_io_map = ∅) then
    Throw (ngraph_check_failure "No parameters or results found in body Function.")
  else
    input_map ← port_map_entries to_size_t node "input";
    output_map ← port_map_entries (fun k => k) node "output";
    current ← fold_result (purpose_step "current_iteration" (io_inputs up_io_map))
                          input_map (-1);
    condition ← fold_result (purpose_step "execution_condition" (io_outputs up_io_map))
                            output_map (-1);
    Ok (mkSpecialBodyPorts current condition).

(** ** The OpenCL device probe (ocl_device.cpp) *)

Module OCL.

(** Constants of the OpenCL headers. *)
Definition CL_FP_DENORM : Z := 1.
Definition CL_DEVICE_FEATURE_FLAG_DP4A_INTEL : Z := 1.
Definition CL_DEVICE_FEATURE_FLAG_DPAS_INTEL : Z := 2.

(** What running the probe kernel of [is_local_block_io_supported] does on
    a device. *)
Inductive kernel_run : Type :=
| cl_error                         (* a cl:: call throws *)
| build_failed                     (* program.build(...) != CL_SUCCESS *)
| kernel_output (bytes : list Z).  (* the eight bytes read back *)

(** A device: the answers of [getInfo], of [clGetDeviceInfo] for the
    unified-shared-memory capability words (error code and value) and of
    the probe kernel. *)
Record Device : Type := mkDevice {
  CL_DEVICE_VENDOR_ID : Z;
  CL_DEVICE_NAME : string;
  CL_DRIVER_VERSION : string;
  CL_DEVICE_HOST_UNIFIED_MEMORY : bool;
  CL_DEVICE_MAX_COMPUTE_UNITS : Z;
  CL_DEVICE_MAX_CLOCK_FREQUENCY : Z;
  CL_DEVICE_MAX_WORK_GROUP_SIZE : Z;
  CL_DEVICE_LOCAL_MEM_SIZE : Z;
  CL_DEVICE_GLOBAL_MEM_SIZE : Z;
  CL_DEVICE_MAX_MEM_ALLOC_SIZE : Z;
  CL_DEVICE_IMAGE_SUPPORT : Z;
  CL_DEVICE_IMAGE2D_MAX_WIDTH : Z;
  CL_DEVICE_IMAGE2D_MAX_HEIGHT : Z;
  CL_DEVICE_EXTENSIONS : string;
  CL_DEVICE_HALF_FP_CONFIG : Z;
  CL_DEVICE_SUB_GROUP_SIZES_INTEL : list Z;
  CL_DEVICE_IP_VERSION_INTEL : Z;
  CL_DEVICE_ID_INTEL : Z;
  CL_DEVICE_NUM_SLICES_INTEL : Z;
  CL_DEVICE_NUM_SUB_SLICES_PER_SLICE_INTEL : Z;
  CL_DEVICE_NUM_EUS_PER_SUB_SLICE_INTEL : Z;
  CL_DEVICE_NUM_THREADS_PER_EU_INTEL : Z;
  CL_DEVICE_FEATURE_CAPABILITIES_INTEL : Z;
  clGetDeviceInfo : Z -> Z * Z;
  run_probe_kernel : kernel_run
}.

Inductive device_type : Type := integrated_gpu | discrete_gpu.

Record gfx_version : Type := mkGfx {
  major : Z;      (* uint16_t *)
  minor : Z;      (* uint8_t *)
  revision : Z    (* uint8_t *)
}.

Record device_info : Type := mkInfo {
  vendor_id : Z;
  dev_name : string;
  driver_version : string;
  dev_type : device_type;
  execution_units_count : Z;
  gpu_frequency : Z;
  max_work_group_size : Z;
  max_local_mem_size : Z;
  max_global_mem_size : Z;
  max_alloc_mem_size : Z;
  supports_image : Z;
  max_image2d_width : Z;
  max_image2d_height : Z;
  supports_fp16 : bool;
  supports_fp64 : bool;
  supports_fp16_denorms : bool;
  supports_subgroups : bool;
  supports_subgroups_short : bool;
  supports_subgroups_char : bool;
  supports_imad : bool;
  supports_immad : bool;
  supports_usm : bool;
  supports_local_block_io : bool;
  supports_queue_families : bool;
  supported_simd_sizes : list Z;
  gfx_ver : gfx_version;
  device_id : Z;
  num_slices : Z;
  num_sub_slices_per_slice : Z;
  num_eus_per_sub_slice : Z;
  num_threads_per_eu : Z
}.



Definition unused_ids : list Z := [0x4905; 0x4906; 0x4907; 0x4908].

Definition Z_in (x : Z) (l : list Z) : bool := existsb (Z.eqb x) l.

(** The end of [driver_dev_id], from the loop that erases the unused ids:
    [found] is what the platform block before it has pushed on [result], the
    device ids that the host lists for vendor 0x8086, in the order of
    enumeration.  The platform block itself, which may throw, is
    [scan_device_ids] below. *)
Definition driver_dev_id (found : list Z) : Z :=
  let result := List.filter (fun id => negb (Z_in id unused_ids)) found in
  match result with
  | [] => 0
  | _ => List.last result 0
  end.

(** The value of [get_device_type] when its query is answered. *)
Definition get_device_type (device : Device) : device_type :=
  if CL_DEVICE_HOST_UNIFIED_MEMORY device then integrated_gpu else discrete_gpu.

Definition parse_version (ver : Z) : gfx_version :=
  mkGfx (Z.shiftr ver 16 mod 2 ^ 16)
        (Z.land (Z.shiftr ver 8) 0xFF)
        (Z.land ver 0xFF).

Definition imad_ids : list Z :=
  [ 0x9A40; 0x9A49; 0x9A59; 0x9AD9;
    0x9A60; 0x9A68; 0x9A70; 0x9A78;
    0x9A7F; 0x9AF8; 0x9AC0; 0x9AC9 ].

(** The value of [get_imad_support] when its queries are answered and the
    platform block of [driver_dev_id] has found [found]. *)
Definition get_imad_support (found : list Z) (device : Device) : bool :=
  let dev_name := CL_DEVICE_NAME device in
  if contains dev_name "Gen12" || contains dev_name "Xe" then true
  else
    match get_device_type device with
    | integrated_gpu =>
        let dev_id := driver_dev_id found in
        if dev_id =? 0 then false
        else if Z_in dev_id imad_ids then true
        else false
    | discrete_gpu => true
    end.

Definition expected : list Z := [1; 3; 5; 7; 9; 11; 13; 15].

(* try { ... } catch (...) { return false; } *)
Definition is_local_block_io_supported (device : Device) : bool :=
  match run_probe_kernel device with
  | cl_error => false
  | build_failed => false
  | kernel_output result => bool_decide (result = expected)
  end.

(** The record that [init_device_info] fills when every query it makes is
    answered and the platform block of [driver_dev_id] has found [found].
    The function as it runs, where a query or the platform block may throw,
    is [init_device_info_on] below. *)
Definition init_device_info (found : list Z) (device : Device) : device_info :=
  let extensions := CL_DEVICE_EXTENSIONS device +:+ " " in
  let fp16 := contains extensions "cl_khr_fp16 " in
  let imad := get_imad_support found device in
  let device_attr_supported := contains extensions "cl_intel_device_attribute_query" in
  let features := CL_DEVICE_FEATURE_CAPABILITIES_INTEL device in
  mkInfo
    (CL_DEVICE_VENDOR_ID device)
    (CL_DEVICE_NAME device)
    (CL_DRIVER_VERSION device)
    (get_device_type device)
    (CL_DEVICE_MAX_COMPUTE_UNITS device)
    (CL_DEVICE_MAX_CLOCK_FREQUENCY device)
    (CL_DEVICE_MAX_WORK_GROUP_SIZE device)
    (CL_DEVICE_LOCAL_MEM_SIZE device)
    (CL_DEVICE_GLOBAL_MEM_SIZE device)
    (CL_DEVICE_MAX_MEM_ALLOC_SIZE device)
    (CL_DEVICE_IMAGE_SUPPORT device)
    (CL_DEVICE_IMAGE2D_MAX_WIDTH device)
    (CL_DEVICE_IMAGE2D_MAX_HEIGHT device)
    fp16
    (contains extensions "cl_khr_fp64 ")
    (fp16 && negb (Z.land (CL_DEVICE_HALF_FP_CONFIG device) CL_FP_DENORM =? 0))
    (contains extensions "cl_intel_subgroups")
    (contains extensions "cl_intel_subgroups_short")
    (contains extensions "cl_intel_subgroups_char")
    (if device_attr_supported
     then imad || negb (Z.land features CL_DEVICE_FEATURE_FLAG_DP4A_INTEL =? 0)
     else imad)
    (if device_attr_supported
     then false || negb (Z.land features CL_DEVICE_FEATURE_FLAG_DPAS_INTEL =? 0)
     else false)
    (contains extensions "cl_intel_unified_shared_memory")
    (contains extensions "cl_intel_subgroup_local_block_io" &&
     is_local_block_io_supported device)
    (contains extensions "cl_intel_command_queue_families")
    (if contains extensions "cl_intel_required_subgroup_size"
     then CL_DEVICE_SUB_GROUP_SIZES_INTEL device
     else [8; 16; 32])
    (if device_attr_supported
     then parse_version (CL_DEVICE_IP_VERSION_INTEL device) else mkGfx 0 0 0)
    (if device_attr_supported then CL_DEVICE_ID_INTEL device else driver_dev_id found)
    (if device_attr_supported then CL_DEVICE_NUM_SLICES_INTEL device else 0)
    (if device_attr_supported then CL_DEVICE_NUM_SUB_SLICES_PER_SLICE_INTEL device else 0)
    (if device_attr_supported then CL_DEVICE_NUM_EUS_PER_SUB_SLICE_INTEL device else 0)
    (if device_attr_supported then CL_DEVICE_NUM_THREADS_PER_EU_INTEL device else 0).

(** *** The probe as it runs

    [device.getInfo<...>()] of the OpenCL bindings returns the answer of the
    driver or throws [cl::Error] with the error code of the driver, and the
    platform block of [driver_dev_id] may throw from [std::stoi]; nothing
    in [init_device_info] or in the constructor catches either.  *)















End OCL.

(** ** Notions used to state the properties *)



(** The reassembly the names attribute calls for: a token that ends in a
    backslash continues with the next token, the backslash standing for a
    comma. *)
Definition drop_last (s : string) : string := String.substring 0 (String.length s - 1) s.

Fixpoint joined_names (tokens : list string) : list string :=
  match tokens with
  | [] => []
  | t :: rest =>
      match string_last t, joined_names rest with
      | Some c, n :: ns =>
          if Ascii.eqb c backslash then (drop_last t +:+ "," +:+ n) :: ns
          else t :: n :: ns
      | _, ns => t :: ns
      end
  end.

(** *** Devices used in the examples *)

Definition sample_device (extensions : string) (query : Z -> Z * Z) (run : OCL.kernel_run)
  : OCL.Device :=
  OCL.mkDevice 0x8086 "Intel(R) UHD Graphics" "21.37" true 24 1150 256
               65536 1073741824 536870912 1 16384 16384
               extensions 0 [8; 16; 32] 0 0 0 0 0 0 0 query run.








(** *** Node creation from a given opset *)

Section LoaderNotions.

Context {Op : Type}.
Variable construct :
  Op -> gmap Z Node -> list (option Output) -> option xml_node -> Blob -> result Node.

(** The node that [createNode] returns when the operator [type_] is taken
    from the opset [o]: the inputs are checked, the opset creates the
    operator, the operator library constructs the node, and the name, the
    run-time information and the tensor names are attached. *)
Definition create_with (o : OpSet Op) (type_ : string) (store : gmap Z Node)
  (inputs : list (option Output)) (node : option xml_node) (weights : Blob)
  (params : GenericLayerParams) : result Node :=
  _ ← check_inputs store inputs;
  match create_insensitive Op o type_ with
  | None => Throw (IE_exception "Opset doesn't contain the operation with type")
  | Some op =>
      n ← construct op store inputs node weights;
      Ok (decorate n node params)
  end.

End LoaderNotions.

(** *** A small operator library for the examples *)

(* an operator is its prototype node; construction sets the arguments *)
Definition sample_op (type_name : string) (is_param is_result is_sink : bool)
  (read_value assign : option string) (outputs : list Type_t) : Node :=
  mkNode type_name is_param is_result is_sink read_value assign [] outputs [] "" []
         (replicate (length outputs) ∅) None.

Definition sample_construct (op : Node) (store : gmap Z Node) (inputs : list (option Output))
  (node : option xml_node) (weights : Blob) : result Node :=
  Ok (set_inputs op inputs).

Definition sample_opset (tag : string) : OpSet Node :=
  mkOpSet Node (fun type_ =>
    if String.eqb type_ "Parameter" then Some (sample_op ("Parameter@" +:+ tag) true false false None None [f32])
    else if String.eqb type_ "Result" then Some (sample_op ("Result@" +:+ tag) false true false None None [f32])
    else if String.eqb type_ "Constant" then Some (sample_op ("Constant@" +:+ tag) false false false None None [f32])
    else if String.eqb type_ "Relu" then Some (sample_op ("Relu@" +:+ tag) false false false None None [f32])
    else if String.eqb type_ "Add" then Some (sample_op ("Add@" +:+ tag) false false false None None [f32])
    else if String.eqb type_ "Split" then Some (sample_op ("Split@" +:+ tag) false false false None None [f32; f32])
    else if String.eqb type_ "ReadValue" then Some (sample_op ("ReadValue@" +:+ tag) false false false (Some "v") None [f32])
    else if String.eqb type_ "Assign" then Some (sample_op ("Assign@" +:+ tag) false false true None (Some "v") [f32])
    else if String.eqb type_ "Assign2" then Some (sample_op ("Assign@" +:+ tag) false false true None (Some "w") [f32])
    else if String.eqb type_ "MVN" then
      (if String.eqb tag "opset1" then None else Some (sample_op ("MVN@" +:+ tag) false false false None None [f32]))
    else if String.eqb type_ "GRUCell" then
      (if String.eqb tag "opset6" then Some (sample_op ("GRUCell@" +:+ tag) false false false None None [f32]) else None)
    else None).

Definition sample_opsets : gmap string (OpSet Node) :=
  default_opsets Node (sample_opset "opset1") (sample_opset "opset2") (sample_opset "opset3")
                 (sample_opset "opset4") (sample_opset "opset5") (sample_opset "opset6")
                 (sample_opset "opset7") (sample_opset "opset8").

Definition sample_params (version type_ name_ : string) : GenericLayerParams :=
  mkParams 1 version name_ type_ [] [mkPort 0 [dim_static 1] f32 ∅].

Definition option_of_result {A} (r : result A) : option A :=
  match r with
  | Ok a => Some a
  | Throw _ => None
  end.

(** *** Positional index of a port *)

(** [r] is the rank of the port id [id] in the declaration order of [ports]:
    the position of the first port declared with that id. *)
Definition port_rank (ports : list LayerPortData) (id : Z) (r : nat) : Prop :=
  portId <$> ports !! r = Some id /\
  forall j, (j < r)%nat -> portId <$> ports !! j <> Some id.





(** What one edge does to the vector of inputs. *)
Definition wired_by (params : gmap Z node_params) (store : gmap Z Node)
  (p : GenericLayerParams) (e : edge) (r : nat) (out : Output) : Prop :=
  port_rank (inputPorts p) (toPortId e) r /\
  out_node out = fromLayerId e /\
  port_rank (outputPorts (np_params (params_at params (fromLayerId e))))
            (fromPortId e) (out_index out) /\
  is_Some (store !! fromLayerId e).

(** *** Constant layers used in the examples *)

Definition const_layer (offset size element_type shape : string) : xml_node :=
  XmlElem "layer" [("id", "0"); ("name", "weights"); ("type", "Const"); ("version", "opset1")] ""
    [ XmlElem "data" [("offset", offset); ("size", size);
                      ("element_type", element_type); ("shape", shape)] "" [];
      XmlElem "output" [] ""
        [ XmlElem "port" [("id", "0"); ("precision", "FP32")] "" [] ] ].

(* S2: the two floats 1.0 and 2.0 *)
Definition sample_weights : Blob :=
  mkBlob 8 (fun i => nth (Z.to_nat i) [0x00; 0x00; 0x80; 0x3F; 0x00; 0x00; 0x00; 0x40] 0).

(** The number of bytes that the elements of a shape occupy, as an exact
    integer: the volume times the bit width, divided by 8 and rounded up. *)
Definition bytes_needed (shape : list Z) (el_type : Type_t) : Z :=
  (fold_left Z.mul shape 1 * bitwidth el_type + 7) / 8.

(** *** Port map notions *)

Definition output_number_of (d : OutputDescription) : Z :=
  match d with
  | ConcatOutputDescription _ n _ _ _ _ _ => n
  | BodyOutputDescription _ n _ => n
  end.

Definition external_port_id (x : xml_node) : result Z :=
  XMLParseUtils.GetInt64Attr (Some x) "external_port_id".

(** [x] is, in document order, the first of the nodes [cs] whose key is
    [k]. *)
Definition first_with_key (key_of : Z -> Z) (cs : list xml_node) (k : Z) (x : xml_node)
  : Prop :=
  exists pre post e,
    cs = pre ++ x :: post /\ external_port_id x = Ok e /\ key_of e = k /\
    forall z e', z ∈ pre -> external_port_id z = Ok e' -> key_of e' <> k.

(** The description that the specification gives a connected output, for the
    current [output_number]. *)
Definition connected_output_description (up_io_map : IoMap) (output_number : Z)
  (xml_output : xml_node) (d : OutputDescription) : Prop :=
  exists body_result_index output_index,
    XMLParseUtils.GetUIntAttr (Some xml_output) "internal_layer_id" = Ok body_result_index /\
    io_outputs up_io_map !! body_result_index = Some output_index /\
    match attribute (Some xml_output) "axis" with
    | Some _ =>
        exists axis start stride end_ part_size,
          XMLParseUtils.GetInt64Attr (Some xml_output) "axis" = Ok axis /\
          XMLParseUtils.GetInt64Attr_def (Some xml_output) "start" 0 = Ok start /\
          XMLParseUtils.GetInt64Attr_def (Some xml_output) "stride" 1 = Ok stride /\
          XMLParseUtils.GetInt64Attr_def (Some xml_output) "end" (-1) = Ok end_ /\
          XMLParseUtils.GetInt64Attr_def (Some xml_output) "part_size" 1 = Ok part_size /\
          d = ConcatOutputDescription output_index output_number
                                      start stride part_size end_ axis
    | None => d = BodyOutputDescription output_index output_number (-1)
    end.

(* S6 and B2: a Loop with a sliced input, an invariant input, an unconnected
   body result and two connected ones *)
Definition port_input (attrs : list (string * string)) : xml_node := XmlElem "input" attrs "" [].
Definition port_output (attrs : list (string * string)) : xml_node := XmlElem "output" attrs "" [].
Definition body_layer (id type_ : string) : xml_node :=
  XmlElem "layer" [("id", id); ("type", type_)] "" [].

Definition sample_loop (inputs outputs back_edges : list xml_node) : xml_node :=
  XmlElem "layer" [("id", "7"); ("type", "Loop"); ("version", "opset5")] ""
    [ XmlElem "port_map" [] "" (inputs ++ outputs);
      XmlElem "back_edges" [] "" back_edges;
      XmlElem "body" [] ""
        [ XmlElem "layers" [] ""
            [ body_layer "5" "Parameter"; body_layer "6" "Parameter";
              body_layer "8" "Result"; body_layer "9" "Result"; body_layer "10" "Result" ] ] ].

(* the io map after the body has been built *)
Definition sample_io_map : IoMap :=
  mkIoMap (<[5 := 0]> (<[6 := 1]> ∅)) (<[8 := 0]> (<[9 := 1]> (<[10 := 2]> ∅))).

Definition back_edges_of (node : option xml_node) : list xml_node :=
  children_named (child node "back_edges") "edge".

Definition to_layer_of (xml_edge : xml_node) : result Z :=
  XMLParseUtils.GetUIntAttr (Some xml_edge) "to-layer".

(** [xml_edge] is the first back edge whose to-layer is the body parameter
    [b]; no back edge has the to-layer [b]. *)
Definition back_edge_to (node : option xml_node) (b : Z) (xml_edge : xml_node) : Prop :=
  exists pre post,
    back_edges_of node = pre ++ xml_edge :: post /\ to_layer_of xml_edge = Ok b /\
    forall z, z ∈ pre -> exists t, to_layer_of z = Ok t /\ t <> b.

Definition no_back_edge_to (node : option xml_node) (b : Z) : Prop :=
  forall z, z ∈ back_edges_of node -> exists t, to_layer_of z = Ok t /\ t <> b.

(** The descriptions that the specification gives one <input> of the port
    map: Sliced when there is an axis, whatever the back edges; otherwise
    Merged when a back edge leads to the body parameter; otherwise Invariant
    when the external port id is not negative; otherwise nothing. *)
Definition specified_input_description (up_io_map : IoMap) (node : option xml_node)
  (xml_input : xml_node) (ds : list InputDescription) : Prop :=
  exists ti b,
    external_port_id xml_input = Ok ti /\
    XMLParseUtils.GetUIntAttr (Some xml_input) "internal_layer_id" = Ok b /\
    match attribute (Some xml_input) "axis" with
    | Some _ =>
        exists input_index axis start stride end_ part_size,
          io_inputs up_io_map !! b = Some input_index /\
          XMLParseUtils.GetUIntAttr (Some xml_input) "axis" = Ok axis /\
          XMLParseUtils.GetInt64Attr_def (Some xml_input) "start" 0 = Ok start /\
          XMLParseUtils.GetInt64Attr_def (Some xml_input) "stride" 1 = Ok stride /\
          XMLParseUtils.GetInt64Attr_def (Some xml_input) "end" (-1) = Ok end_ /\
          XMLParseUtils.GetInt64Attr_def (Some xml_input) "part_size" 1 = Ok part_size /\
          ds = [SliceInputDescription ti input_index start stride part_size end_ axis]
    | None =>
        (exists xml_edge from_layer input_index output_index,
           back_edge_to node b xml_edge /\
           XMLParseUtils.GetUIntAttr (Some xml_edge) "from-layer" = Ok from_layer /\
           io_inputs up_io_map !! b = Some input_index /\
           io_outputs up_io_map !! from_layer = Some output_index /\
           ds = [MergedInputDescription ti input_index output_index]) \/
        (no_back_edge_to node b /\ 0 <= ti /\
         exists input_index, io_inputs up_io_map !! b = Some input_index /\
                             ds = [InvariantInputDescription ti input_index]) \/
        (no_back_edge_to node b /\ ti < 0 /\ ds = [])
    end.

(** Every <input> of the port map has its descriptions among the emitted
    ones. *)
Definition every_input_described (io_map : IoMap) (node : option xml_node)
  (descs : list InputDescription) : Prop :=
  exists up_io_map,
    updated_io_map io_map node = Ok up_io_map /\
    forall xml_input, xml_input ∈ children_named (child node "port_map") "input" ->
      exists ds, specified_input_description up_io_map node xml_input ds /\
                 forall d, d ∈ ds -> d ∈ descs.

(* two inputs of the port map share the external port 0 *)
Definition loop_shared_external_port : xml_node :=
  sample_loop [ port_input [("external_port_id", "0"); ("internal_layer_id", "5")];
                port_input [("external_port_id", "0"); ("internal_layer_id", "6")] ] [] [].

(* P5 and S6: a sliced input that also has a back edge, a merged input, an
   invariant input and an unconnected body parameter *)
Definition loop_all_kinds : xml_node :=
  sample_loop [ port_input [("external_port_id", "2"); ("internal_layer_id", "6")];
                port_input [("external_port_id", "0"); ("internal_layer_id", "5"); ("axis", "0")];
                port_input [("external_port_id", "-1"); ("internal_layer_id", "6")];
                port_input [("external_port_id", "1"); ("internal_layer_id", "5")] ]
              []
              [ XmlElem "edge" [("from-layer", "9"); ("to-layer", "5")] "" [] ].

(** *** Reachability in the edge table *)

(** [feeds edges to from]: the layer [to] has an incoming edge from the
    layer [from]. *)
Definition feeds (edges : gmap Z (list edge)) (to from : Z) : Prop :=
  exists e, e ∈ edges_at edges to /\ fromLayerId e = from.

(** [id] is reached from one of [roots] by following edges from destination
    to source. *)
Definition reachable (edges : gmap Z (list edge)) (roots : list Z) (id : Z) : Prop :=
  exists r, r ∈ roots /\ rtc (feeds edges) r id.

(** The progress of the depth-first search between two of its states, for the
    edge table [E0] it was started with: [new] lists the layers that were
    finished, in the order in which they were appended. *)
Definition same_edges (E0 : gmap Z (list edge)) (st : dfs_state) : Prop :=
  forall x, edges_at (d_edges st) x = edges_at E0 x.

Definition dfs_extends (E0 : gmap Z (list edge)) (st st' : dfs_state) (new : list Z) : Prop :=
  same_edges E0 st' /\
  (forall x, is_Some (d_edges st !! x) -> is_Some (d_edges st' !! x)) /\
  d_used st ⊆ d_used st' /\
  d_order st' = d_order st ++ new /\
  NoDup new /\
  (forall x, x ∈ new <-> x ∈ d_used st' /\ x ∉ d_used st) /\
  (forall x y, x ∈ new -> feeds E0 x y -> y ∈ d_used st') /\
  (forall x, x ∈ new -> is_Some (d_edges st' !! x)).

(** What a call of [dfs] guarantees when it returns. *)
Definition dfs_post (E0 : gmap Z (list edge)) (id : Z) (st st' : dfs_state) : Prop :=
  exists new, dfs_extends E0 st st' new /\ id ∈ d_used st' /\
              forall x, x ∈ new -> rtc (feeds E0) id x.

(** *** The state of node construction *)

(** After the layers [done] have been built, in this order: they are the
    keys of [id_to_node] and the entries of [all]; the sinks, parameters and
    results are the built nodes of these classes; [variable_id_to_read_value]
    knows exactly the variable ids of the built ReadValue nodes. *)
Definition build_inv (st : build_state) (done : list Z) : Prop :=
  (forall id, is_Some (id_to_node st !! id) <-> id ∈ done) /\
  fn_all (func_nodes st) = done /\
  (forall s, s ∈ fn_sinks (func_nodes st) <->
             exists n, id_to_node st !! s = Some n /\ n_is_sink n = true) /\
  (forall s, s ∈ fn_parameters (func_nodes st) <->
             exists n, id_to_node st !! s = Some n /\ n_is_parameter n = true) /\
  (forall s, s ∈ fn_results (func_nodes st) <->
             exists n, id_to_node st !! s = Some n /\ n_is_result n = true) /\
  (forall v id, variable_id_to_read_value st !! v = Some id ->
                exists n, id_to_node st !! id = Some n /\ n_read_value n = Some v) /\
  (forall id n v, id_to_node st !! id = Some n -> n_read_value n = Some v ->
                  is_Some (variable_id_to_read_value st !! v)).

(** The layers of type Result or Assign among the <layer> nodes. *)
Definition output_layer (layer_nodes : list xml_node) (id : Z) : Prop :=
  exists node p, node ∈ layer_nodes /\ parseGenericParams node = Ok p /\ layerId p = id /\
                 (type p = "Result" \/ type p = "Assign").

Definition layer_nodes_of (root : option xml_node) : list xml_node :=
  children_named (child root "layers") "layer".

(** *** A conversion used in the examples

    Layer 1 (Parameter) feeds layer 2 (Relu) which feeds layer 3 (Result);
    layer 5 (Relu), fed by layer 4 (Parameter), leads to no Result and no
    Assign. *)
Definition xml_port (id : string) : xml_node :=
  XmlElem "port" [("id", id); ("precision", "FP32")] "" [XmlElem "dim" [] "1" []].

Definition xml_layer (id name_ type_ : string) (inputs outputs : list xml_node) : xml_node :=
  XmlElem "layer" [("id", id); ("name", name_); ("type", type_); ("version", "opset1")] ""
    [ XmlElem "input" [] "" inputs; XmlElem "output" [] "" outputs ].

Definition xml_edge (from_layer from_port to_layer to_port : string) : xml_node :=
  XmlElem "edge" [("from-layer", from_layer); ("from-port", from_port);
                  ("to-layer", to_layer); ("to-port", to_port)] "" [].

Definition xml_net (layers edges : list xml_node) : xml_node :=
  XmlElem "net" [("name", "sample")] ""
    [ XmlElem "layers" [] "" layers; XmlElem "edges" [] "" edges ].

Definition net_with_dead_branch : xml_node :=
  xml_net [ xml_layer "1" "in" "Parameter" [] [xml_port "0"];
            xml_layer "2" "relu" "Relu" [xml_port "0"] [xml_port "1"];
            xml_layer "3" "out" "Result" [xml_port "0"] [];
            xml_layer "4" "in2" "Parameter" [] [xml_port "0"];
            xml_layer "5" "dead" "Relu" [xml_port "0"] [xml_port "1"] ]
          [ xml_edge "1" "0" "2" "0"; xml_edge "2" "1" "3" "0"; xml_edge "4" "0" "5" "0" ].

(* the id 2 is declared twice, with different names *)
Definition net_repeated_id : xml_node :=
  xml_net [ xml_layer "1" "in" "Parameter" [] [xml_port "0"];
            xml_layer "2" "relu" "Relu" [xml_port "0"] [xml_port "1"];
            xml_layer "2" "tanh" "Tanh" [xml_port "0"] [xml_port "1"];
            xml_layer "3" "out" "Result" [xml_port "0"] [] ]
          [ xml_edge "1" "0" "2" "0"; xml_edge "2" "1" "3" "0" ].

(* S7: ReadValue (3) and Assign (9) of the variable "v" *)
Definition net_with_state : xml_node :=
  xml_net [ xml_layer "1" "in" "Parameter" [] [xml_port "0"];
            xml_layer "3" "read" "ReadValue" [xml_port "0"] [xml_port "1"];
            xml_layer "9" "save" "Assign" [xml_port "0"] [xml_port "1"];
            xml_layer "10" "out" "Result" [xml_port "0"] [] ]
          [ xml_edge "1" "0" "3" "0"; xml_edge "3" "1" "9" "0"; xml_edge "3" "1" "10" "0" ].

(* an Assign of the variable "v" with no ReadValue *)
Definition net_assign_only : xml_node :=
  xml_net [ xml_layer "1" "in" "Parameter" [] [xml_port "0"];
            xml_layer "9" "save" "Assign" [xml_port "0"] [xml_port "1"] ]
          [ xml_edge "1" "0" "9" "0" ].

Definition no_weights : Blob := mkBlob 0 (fun _ => 0).
Definition empty_io_map : IoMap := mkIoMap ∅ ∅.

Definition sample_build (root : xml_node) : result build_state :=
  construct_function_nodes Node sample_construct sample_opsets false
                           (Some root) no_weights empty_io_map.

Definition sample_parse (root : xml_node) : result (Function * IoMap) :=
  parse_function Node sample_construct sample_opsets false (Some root) no_weights empty_io_map.


(** *** Notions for the comma-separated attributes *)

(** The attribute value without one closing comma. *)
Fixpoint strip_trailing_comma (s : string) : string :=
  match s with
  | EmptyString => EmptyString
  | String c s' =>
      match s' with
      | EmptyString => if Ascii.eqb c "," then EmptyString else s
      | _ => String c (strip_trailing_comma s')
      end
  end.

Definition ends_with_backslash (t : string) : bool :=
  match string_last t with
  | Some c => Ascii.eqb c backslash
  | None => false
  end.

(** Tokens of a names attribute in which no token is empty and a token that
    ends in a backslash is followed by one that does not, so that every
    escaped comma stands alone in its name.  [after_escape] tells that the
    token before ended in a backslash. *)
Fixpoint single_escapes (after_escape : bool) (tokens : list string) : bool :=
  match tokens with
  | [] => negb after_escape
  | t :: rest =>
      negb (String.eqb t "") &&
      (if ends_with_backslash t then negb after_escape && single_escapes true rest
       else single_escapes false rest)
  end.

Definition names_attr (value : string) : xml_node :=
  XmlElem "port" [("id", "0"); ("names", value)] "" [].


(** *** Notions for the layer and edge tables *)

(** What one <edge> element says: the layer it leads to, and the edge as it
    is stored in the list of that layer. *)
Definition edge_of_xml (ec : xml_node) : result (Z * edge) :=
  fromLayer ← XMLParseUtils.GetUIntAttr (Some ec) "from-layer";
  fromPort ← XMLParseUtils.GetUIntAttr (Some ec) "from-port";
  toLayer ← XMLParseUtils.GetUIntAttr (Some ec) "to-layer";
  toPort ← XMLParseUtils.GetUIntAttr (Some ec) "to-port";
  Ok (toLayer, mkEdge fromLayer fromPort toPort).

Definition edge_nodes_of (root : option xml_node) : list xml_node :=
  children_named (child root "edges") "edge".

(* two layers named "relu", the second one not a Result *)
Definition net_name_clash : xml_node :=
  xml_net [ xml_layer "1" "in" "Parameter" [] [xml_port "0"];
            xml_layer "2" "relu" "Relu" [xml_port "0"] [xml_port "1"];
            xml_layer "3" "relu" "Relu" [xml_port "0"] [xml_port "1"];
            xml_layer "4" "out" "Result" [xml_port "0"] [] ]
          [ xml_edge "1" "0" "2" "0"; xml_edge "2" "1" "3" "0"; xml_edge "3" "1" "4" "0" ].


(** *** Notions for the order of construction and the port maps *)

(** In [order], [y] stands before (an occurrence of) [x]. *)
Definition precedes (order : list Z) (y x : Z) : Prop :=
  exists pre post, order = pre ++ x :: post /\ y ∈ pre.

(** The map [m] is the map [m0] extended by the positions of the layers of
    [l]: what [m0] held is kept, and a layer id that [m0] did not hold is
    mapped to [v] exactly when it is the entry of [l] at index [v]. *)
Definition indexed_from (m0 m : gmap Z Z) (l : list Z) : Prop :=
  (forall id v, m0 !! id = Some v -> m !! id = Some v) /\
  (forall id, m0 !! id = None ->
     forall v, m !! id = Some v <-> 0 <= v /\ l !! Z.to_nat v = Some id).

(* the layers 1 and 2 feed each other *)
Definition net_with_cycle : xml_node :=
  xml_net [ xml_layer "1" "a" "Add" [xml_port "0"] [xml_port "1"];
            xml_layer "2" "b" "Relu" [xml_port "0"] [xml_port "1"];
            xml_layer "3" "out" "Result" [xml_port "0"] [] ]
          [ xml_edge "2" "1" "1" "0"; xml_edge "1" "1" "2" "0"; xml_edge "2" "1" "3" "0" ].


(** *** Notions for the creation of a node *)

(** The positional index of an input port id, 0 when the id is not
    declared. *)
Definition input_rank_or_zero (p : GenericLayerParams) (id : Z) : nat :=
  match getRealInputPortId p id with
  | Ok r => r
  | Throw _ => 0%nat
  end.

(** [n'] is [n] with control dependencies added after those it had. *)
Definition control_deps_added (n n' : Node) (extra : list Z) : Prop :=
  n' = mkNode (n_type_name n) (n_is_parameter n) (n_is_result n) (n_is_sink n)
              (n_read_value n) (n_assign n) (n_inputs n) (n_outputs n)
              (n_control_deps n ++ extra)
              (n_friendly_name n) (n_rt_info n) (n_output_names n) (n_framework_attrs n).


(* S5: a layer of an opset that is not registered *)
Definition sample_unknown_layer : xml_node :=
  XmlElem "layer" [("id", "1"); ("name", "x"); ("type", "MyOp"); ("version", "my_opset")] ""
    [ XmlElem "data" [("alpha", "1"); ("beta", "two")] "" [];
      XmlElem "output" [] "" [xml_port "0"] ].

Definition sample_extension (opset_name : string) : Extension Node :=
  mkExtension Node [(opset_name, sample_opset opset_name)] None.


(** *** Notions for the port maps of a sub-graph operator *)

(** Among the <layer> nodes [layers], one of type [type_] has the id
    [id]. *)
Definition declares (layers : list xml_node) (type_ : string) (id : Z) : Prop :=
  exists layer, layer ∈ layers /\
                XMLParseUtils.GetStrAttr (Some layer) "type" = Ok type_ /\
                XMLParseUtils.GetUIntAttr (Some layer) "id" = Ok id.

Definition body_layers_of (node : option xml_node) : list xml_node :=
  children_named (child (child node "body") "layers") "layer".

(** The map [m] is [m0] together with the ids of [D], as unconnected: what
    [m0] held is kept, and an id that [m0] did not hold is in [m] exactly
    when it is in [D], with the value -1 of a uint64_t. *)
Definition extended_unconnected (m0 m : gmap Z Z) (D : Z -> Prop) : Prop :=
  (forall id v, m0 !! id = Some v -> m !! id = Some v) /\
  (forall id, m0 !! id = None ->
     forall v, m !! id = Some v <-> v = UINT64_MINUS_ONE /\ D id).

(** The index that the last entry with the purpose [wanted] gives, -1 when
    no entry has it. *)
Definition has_purpose (wanted : string) (entry : Z * xml_node) : bool :=
  String.eqb (XMLParseUtils.GetStrAttr_def (Some (snd entry)) "purpose" "") wanted.

Definition purpose_index (wanted : string) (indices : gmap Z Z)
  (entries : list (Z * xml_node)) (idx : Z) : Prop :=
  match last (List.filter (has_purpose wanted) entries) with
  | None => idx = -1
  | Some entry =>
      exists id v, XMLParseUtils.GetUIntAttr (Some (snd entry)) "internal_layer_id" = Ok id /\
                   indices !! id = Some v /\ idx = to_int64 v
  end.

Definition sample_loop_with_purposes : xml_node :=
  sample_loop
    [ port_input [("external_port_id", "1"); ("internal_layer_id", "6")];
      port_input [("external_port_id", "0"); ("internal_layer_id", "5");
                  ("purpose", "current_iteration")] ]
    [ port_output [("external_port_id", "0"); ("internal_layer_id", "9");
                   ("purpose", "execution_condition")] ]
    [].


(** *** Notions for the order of the function's nodes *)

(** The class test [P] on the node stored under [id]; false when there is
    none. *)
Definition node_has (P : Node -> bool) (store : gmap Z Node) (id : Z) : bool :=
  match store !! id with
  | Some n => P n
  | None => false
  end.

Definition is_output_type (p : GenericLayerParams) : bool :=
  String.eqb (type p) "Result" || String.eqb (type p) "Assign".


(** *** Notions for names written with escaped commas *)

(** A name as it is written into a names attribute: as it is, or, when it
    holds one comma, with a backslash before the comma. *)
Inductive written_name : Type :=
| Plain (s : string)
| WithComma (before after : string).

Definition written_value (w : written_name) : string :=
  match w with
  | Plain s => s
  | WithComma a b => a +:+ "," +:+ b
  end.

(* the fields it occupies between the commas of the attribute *)
Definition written_tokens (w : written_name) : list string :=
  match w with
  | Plain s => [s]
  | WithComma a b => [a +:+ String backslash ""; b]
  end.

Definition written_attr (ws : list written_name) : string :=
  String.concat "," (ws ≫= written_tokens).

Fixpoint all_chars (P : ascii -> bool) (s : string) : bool :=
  match s with
  | EmptyString => true
  | String c s' => P c && all_chars P s'
  end.

(* neither white space nor a comma *)
Definition name_char (c : ascii) : bool := negb (is_space c) && negb (Ascii.eqb c ",").

(** What can be written: parts without white space and commas, a plain name
    and the part after a comma not empty and not ending in a backslash. *)
Definition closing_part (s : string) : bool :=
  negb (String.eqb s "") && all_chars name_char s && negb (ends_with_backslash s).

Definition written_ok (w : written_name) : bool :=
  match w with
  | Plain s => closing_part s
  | WithComma a b => all_chars name_char a && closing_part b
  end.


(** *** A layer whose input ports are declared as 7, 3, 9 *)

Definition net_three_inputs : xml_node :=
  xml_net [ xml_layer "1" "a" "Parameter" [] [xml_port "0"];
            xml_layer "2" "b" "Parameter" [] [xml_port "0"];
            xml_layer "3" "c" "Parameter" [] [xml_port "0"];
            xml_layer "4" "sum" "Add" [xml_port "7"; xml_port "3"; xml_port "9"]
                      [xml_port "11"];
            xml_layer "5" "out" "Result" [xml_port "0"] [] ]
          [ xml_edge "1" "0" "4" "9"; xml_edge "2" "0" "4" "3"; xml_edge "3" "0" "4" "7";
            xml_edge "4" "11" "5" "0" ].


(** *** Notions for the layers that are not reached *)

Section ConstructionNotions.

Context {Op : Type}.
Variable construct :
  Op -> gmap Z Node -> list (option Output) -> option xml_node -> Blob -> result Node.
Variable m_opsets : gmap string (OpSet Op).
Variable m_use_framework_node : bool.
Variable weights : Blob.

(** What [parse_function] does once the layers and the edges are read: the
    search from the output layers, then the construction of the nodes. *)
Definition construct_from_tables (params : gmap Z node_params)
  (edges : gmap Z (list edge)) (outputs : list Z) (io : IoMap) : result build_state :=
  match topological_order edges outputs with
  | None => Throw (runtime_error "dfs budget exhausted")
  | Some d =>
      build_nodes Op construct m_opsets m_use_framework_node weights params
                  (d_edges d) (d_order d) io
  end.

End ConstructionNotions.

(** Two states of the search that have visited and finished the same layers,
    over edge tables that give the layers of [R] the edge lists of [E]. *)
Definition dfs_agree (E : gmap Z (list edge)) (R : Z -> Prop) (st st' : dfs_state) : Prop :=
  d_used st = d_used st' /\ d_order st = d_order st' /\
  forall x, R x -> edges_at (d_edges st) x = edges_at E x /\
                   edges_at (d_edges st') x = edges_at E x.

(* the unreached layer 5 repeats the name of layer 2 *)
Definition net_dead_name_clash : xml_node :=
  xml_net [ xml_layer "1" "in" "Parameter" [] [xml_port "0"];
            xml_layer "2" "relu" "Relu" [xml_port "0"] [xml_port "1"];
            xml_layer "3" "out" "Result" [xml_port "0"] [];
            xml_layer "4" "in2" "Parameter" [] [xml_port "0"];
            xml_layer "5" "relu" "Relu" [xml_port "0"] [xml_port "1"] ]
          [ xml_edge "1" "0" "2" "0"; xml_edge "2" "1" "3" "0"; xml_edge "4" "0" "5" "0" ].

(** * Properties *)

(** ** The exception monad *)

Lemma bind_Ok_inv {A B} (m : result A) (f : A -> result B) (b : B) :
  m ≫= f = Ok b -> exists a, m = Ok a /\ f a = Ok b.
Proof. destruct m as [a|e]; simpl; [eauto | discriminate]. Qed.


Ltac inv_bind H :=
  let a := fresh "a" in
  let Ha := fresh "Ha" in
  apply bind_Ok_inv in H; destruct H as (a & Ha & H).

Lemma fold_result_app {A S} (f : S -> A -> result S) (l1 l2 : list A) (s : S) :
  fold_result f (l1 ++ l2) s = fold_result f l1 s ≫= fold_result f l2.
Proof.
  revert s. induction l1 as [|a l1 IH]; intros s; simpl; [reflexivity|].
  destruct (f s a); simpl; auto.
Qed.

Lemma fold_result_ext {A S} (f g : S -> A -> result S) (l : list A) (s : S) :
  (forall a s', a ∈ l -> f s' a = g s' a) ->
  fold_result f l s = fold_result g l s.
Proof.
  revert s. induction l as [|a l IH]; intros s Hfg; simpl; [reflexivity|].
  rewrite (Hfg a s) by left.
  destruct (g s a); simpl; [|reflexivity].
  apply IH. intros b s' Hb. apply Hfg. by right.
Qed.

(** ** Dimensions of a port *)






(** ** Tensor names of an output port *)

Lemma parse_names_tokens (port : xml_node) (v : string) (first : string) (rest : list string) :
  attribute (Some port) "names" = Some v ->
  getParameters_fields stored_string (getline_fields v) = Ok (first :: rest) ->
  parse_names port = restore_names first first rest.
Proof.
  intros Hv Hf. unfold parse_names, getParameters_string, getParameters, getStrAttribute.
  rewrite Hv. unfold mbind, result_bind. rewrite Hf. reflexivity.
Qed.

(** C8.  A names attribute with one escaped comma is restored, one with two
    escaped commas in the same name is not: for [a\,b\,c] the loop replaces
    the character at the position computed from the current token, not from
    the name built so far, and emplaces [a,b\c]; the name [a,b,c] that the
    reassembly of the tokens gives is not in the result. *)
Theorem names_second_escaped_comma_lost (port : xml_node) :
  attribute (Some port) "names" = Some "a\,b\,c" ->
  parse_names port = Ok ["a,b\c"] /\
  joined_names (getline_fields "a\,b\,c") = ["a,b,c"] /\
  ~ "a,b,c" ∈ ["a,b\c"].
Proof.
  intros Hv. split; [|split].
  - rewrite (parse_names_tokens port _ "a\" ["b\"; "c"] Hv eq_refl). reflexivity.
  - reflexivity.
  - intros H. apply list_elem_of_In in H. destruct H as [H|[]]. discriminate.
Qed.

Lemma names_second_escaped_comma_lost_witness :
  parse_names (XmlElem "port" [("id", "2"); ("precision", "FP32"); ("names", "a\,b\,c")] "" [])
    = Ok ["a,b\c"].
Proof.
  apply (names_second_escaped_comma_lost
           (XmlElem "port" [("id", "2"); ("precision", "FP32"); ("names", "a\,b\,c")] "" [])).
  reflexivity.
Defined.

(** With a single escaped comma per name the loop and the reassembly agree. *)
Lemma names_one_escaped_comma_restored (port : xml_node) :
  attribute (Some port) "names" = Some "in\,1,out\,2,plain" ->
  parse_names port = Ok ["in,1"; "out,2"; "plain"] /\
  joined_names (getline_fields "in\,1,out\,2,plain") = ["in,1"; "out,2"; "plain"].
Proof.
  intros Hv. split; [|reflexivity].
  rewrite (parse_names_tokens port _ "in\" ["1"; "out\"; "2"; "plain"] Hv eq_refl).
  reflexivity.
Qed.

(** ** The device probe *)












(** ** Opset resolution *)

Section OpsetResolution.

Context {Op : Type}.
Variable construct :
  Op -> gmap Z Node -> list (option Output) -> option xml_node -> Blob -> result Node.
Variables o1 o2 o3 o4 o5 o6 o7 o8 : OpSet Op.

Lemma add_opsets_keeps its (m m' : gmap string (OpSet Op)) k v :
  add_opsets Op its m = Ok m' -> m !! k = Some v -> m' !! k = Some v.
Proof.
  revert m. induction its as [|[nm o] its IH]; intros m Hadd Hk; simpl in Hadd.
  - by injection Hadd as <-.
  - destruct (m !! nm) eqn:Hnm; [discriminate|].
    apply (IH _ Hadd). rewrite lookup_insert_ne; [done|]. congruence.
Qed.

Lemma load_custom_opsets_keeps exts (m m' : gmap string (OpSet Op)) k v :
  load_custom_opsets Op exts m = Ok m' -> m !! k = Some v -> m' !! k = Some v.
Proof.
  revert m. induction exts as [|ext exts IH]; intros m Hload Hk; simpl in Hload.
  - by injection Hload as <-.
  - inv_bind Hload. apply (IH _ Hload). eapply add_opsets_keeps; eauto.
Qed.

Lemma load_opsets_builtin exts m :
  load_opsets Op o1 o2 o3 o4 o5 o6 o7 o8 exts = Ok m ->
  m !! "opset1" = Some o1 /\ m !! "opset2" = Some o2 /\ m !! "opset6" = Some o6.
Proof.
  intros H. unfold load_opsets in H.
  repeat split; eapply load_custom_opsets_keeps; eauto; reflexivity.
Qed.

End OpsetResolution.

Section OpsetRemapping.

Context {Op : Type}.
Variable construct :
  Op -> gmap Z Node -> list (option Output) -> option xml_node -> Blob -> result Node.
Variables o1 o2 o3 o4 o5 o6 o7 o8 : OpSet Op.

Lemma string_in_In (x : string) (l : list string) : string_in x l = true <-> In x l.
Proof.
  unfold string_in. rewrite existsb_exists. split.
  - intros (y & Hy & Heq). apply String.eqb_eq in Heq. by subst y.
  - intros Hx. exists x. split; [exact Hx | apply String.eqb_refl].
Qed.

Lemma createNode_resolved (m_opsets : gmap string (OpSet Op)) fw store inputs node weights
  params (opset0 o : OpSet Op) (type_ : string) :
  (forall u, check_inputs store inputs = Ok u ->
     (if string_in (type params) experimental_ops_added_to_opset &&
         (String.eqb (version params) "experimental" || String.eqb (version params) "extension")
      then m_opsets !! "opset6" else m_opsets !! version params) = Some opset0 /\
     create_from_opset Op construct m_opsets opset0 store inputs node weights params =
       match create_insensitive Op o type_ with
       | None => Throw (IE_exception "Opset doesn't contain the operation with type")
       | Some op => construct op store inputs node weights
       end) ->
  createNode Op construct m_opsets fw store inputs node weights params
    = create_with construct o type_ store inputs node weights params.
Proof.
  intros H. unfold createNode, create_with.
  destruct (check_inputs store inputs) as [u|e]; [|reflexivity].
  destruct (H u eq_refl) as [-> ->]. unfold mbind, result_bind.
  destruct (create_insensitive Op o type_) as [op|]; [|reflexivity].
  destruct (construct op store inputs node weights); reflexivity.
Qed.

(** C4.  With the registry that [convert] loads (the eight built-in opsets
    and the opsets of the extensions): an operator of the experimental list
    at version "experimental" or "extension" is created by opset6, whether
    or not that version names a registered opset; MVN, ROIPooling and
    ReorgYolo at version "opset1" are created by opset2; a layer of type
    "Const" is created as "Constant" by the opset of its version.  In none
    of these cases does the layer end in the unsupported-opset failure, which
    is raised when no remapping applies, the version names no registered
    opset and the framework-node fallback is off. *)
Theorem opset_version_remapping (exts : list (Extension Op))
  (m_opsets : gmap string (OpSet Op)) (fw : bool) (store : gmap Z Node)
  (inputs : list (option Output)) (node : option xml_node) (weights : Blob)
  (params : GenericLayerParams) :
  load_opsets Op o1 o2 o3 o4 o5 o6 o7 o8 exts = Ok m_opsets ->
  (In (type params) experimental_ops_added_to_opset ->
   version params = "experimental" \/ version params = "extension" ->
   createNode Op construct m_opsets fw store inputs node weights params
     = create_with construct o6 (type params) store inputs node weights params) /\
  (version params = "opset1" ->
   In (type params) ["MVN"; "ROIPooling"; "ReorgYolo"] ->
   createNode Op construct m_opsets fw store inputs node weights params
     = create_with construct o2 (type params) store inputs node weights params) /\
  (type params = "Const" ->
   forall o, m_opsets !! version params = Some o ->
   createNode Op construct m_opsets fw store inputs node weights params
     = create_with construct o "Constant" store inputs node weights params) /\
  (m_opsets !! version params = None ->
   ~ (In (type params) experimental_ops_added_to_opset /\
      (version params = "experimental" \/ version params = "extension")) ->
   fw = false ->
   createNode Op construct m_opsets fw store inputs node weights params
     = (check_inputs store inputs ≫= fun _ =>
        Throw (IE_exception "Cannot create layer from unsupported opset"))).
Proof.
  intros Hload.
  destruct (load_opsets_builtin o1 o2 o3 o4 o5 o6 o7 o8 exts m_opsets Hload)
    as (H1 & H2 & H6).
  split; [|split; [|split]].
  - intros Hty Hver. apply (createNode_resolved _ _ _ _ _ _ _ o6). intros u _.
    unfold create_from_opset.
    simpl in Hty.
    destruct Hty as [Hty|[Hty|[Hty|[Hty|[Hty|[Hty|[Hty|[Hty|[]]]]]]]]];
      rewrite <- Hty; destruct Hver as [Hver|Hver]; rewrite Hver; simpl; auto.
  - intros Hver Hty. apply (createNode_resolved _ _ _ _ _ _ _ o1). intros u _.
    unfold create_from_opset. rewrite Hver, H1, H2.
    simpl in Hty. destruct Hty as [Hty|[Hty|[Hty|[]]]]; rewrite <- Hty; simpl; auto.
  - intros Hty o Ho. apply (createNode_resolved _ _ _ _ _ _ _ o). intros u _.
    unfold create_from_opset. rewrite Hty, Ho. simpl.
    split; [reflexivity|].
    destruct (String.eqb (version params) "opset1"); reflexivity.
  - intros Hnone Hno ->. unfold createNode.
    destruct (check_inputs store inputs) as [u|e]; [|reflexivity].
    unfold mbind, result_bind.
    destruct (string_in (type params) experimental_ops_added_to_opset &&
              (String.eqb (version params) "experimental" ||
               String.eqb (version params) "extension")) eqn:Hc.
    + exfalso. apply Hno. apply andb_true_iff in Hc as [Hin Hv].
      apply string_in_In in Hin. split; [exact Hin|].
      apply orb_true_iff in Hv as [Hv|Hv]; apply String.eqb_eq in Hv; auto.
    + rewrite Hnone. reflexivity.
Qed.

End OpsetRemapping.

(** S3: MVN at version "opset1" comes from opset2 (opset1 has no MVN); GRUCell
    at version "extension", which is no registered opset, comes from opset6;
    Const at opset3 is the Constant of opset3. *)
Lemma opset_version_remapping_witness :
  n_type_name <$> option_of_result
    (createNode Node sample_construct sample_opsets false ∅ [] None (mkBlob 0 (fun _ => 0))
                (sample_params "opset1" "MVN" "mvn")) = Some "MVN@opset2" /\
  n_type_name <$> option_of_result
    (createNode Node sample_construct sample_opsets false ∅ [] None (mkBlob 0 (fun _ => 0))
                (sample_params "extension" "GRUCell" "cell")) = Some "GRUCell@opset6" /\
  n_type_name <$> option_of_result
    (createNode Node sample_construct sample_opsets false ∅ [] None (mkBlob 0 (fun _ => 0))
                (sample_params "opset3" "Const" "c")) = Some "Constant@opset3".
Proof.
  split; [|split].
  - destruct (opset_version_remapping sample_construct
                (sample_opset "opset1") (sample_opset "opset2") (sample_opset "opset3")
                (sample_opset "opset4") (sample_opset "opset5") (sample_opset "opset6")
                (sample_opset "opset7") (sample_opset "opset8")
                [] sample_opsets false ∅ [] None (mkBlob 0 (fun _ => 0))
                (sample_params "opset1" "MVN" "mvn") eq_refl) as (_ & H & _ & _).
    rewrite H; [reflexivity | reflexivity | simpl; auto].
  - destruct (opset_version_remapping sample_construct
                (sample_opset "opset1") (sample_opset "opset2") (sample_opset "opset3")
                (sample_opset "opset4") (sample_opset "opset5") (sample_opset "opset6")
                (sample_opset "opset7") (sample_opset "opset8")
                [] sample_opsets false ∅ [] None (mkBlob 0 (fun _ => 0))
                (sample_params "extension" "GRUCell" "cell") eq_refl) as (H & _ & _ & _).
    rewrite H; [reflexivity | simpl; auto 10 | right; reflexivity].
  - destruct (opset_version_remapping sample_construct
                (sample_opset "opset1") (sample_opset "opset2") (sample_opset "opset3")
                (sample_opset "opset4") (sample_opset "opset5") (sample_opset "opset6")
                (sample_opset "opset7") (sample_opset "opset8")
                [] sample_opsets false ∅ [] None (mkBlob 0 (fun _ => 0))
                (sample_params "opset3" "Const" "c") eq_refl) as (_ & _ & H & _).
    rewrite (H eq_refl (sample_opset "opset3")); reflexivity.
Defined.

(** ** Wiring of the inputs *)

Lemma real_port_id_rank (ports : list LayerPortData) (id : Z) (k r : nat) :
  real_port_id ports id k = Some r <->
  exists r', r = (k + r')%nat /\ port_rank ports id r'.
Proof.
  revert k. induction ports as [|it rest IH]; intros k; simpl.
  - split; [discriminate|]. intros (r' & _ & H & _). rewrite lookup_nil in H. discriminate.
  - destruct (Z.eqb_spec (portId it) id) as [Heq|Hne].
    + split.
      * intros [= <-]. exists 0%nat. split; [lia|]. split; [simpl; congruence|].
        intros j Hj. lia.
      * intros (r' & -> & Hr & Hfirst). destruct r' as [|r'].
        -- f_equal. lia.
        -- exfalso. apply (Hfirst 0%nat); [lia|]. simpl. congruence.
    + rewrite IH. split.
      * intros (r' & -> & Hr & Hfirst). exists (S r'). split; [lia|]. split; [exact Hr|].
        intros [|j] Hj; simpl; [congruence|]. apply Hfirst. lia.
      * intros (r' & -> & Hr & Hfirst). destruct r' as [|r'].
        -- simpl in Hr. congruence.
        -- exists r'. split; [lia|]. split; [exact Hr|].
           intros j Hj. apply (Hfirst (S j)). lia.
Qed.

Lemma getRealInputPortId_rank (p : GenericLayerParams) (id : Z) (r : nat) :
  getRealInputPortId p id = Ok r <-> port_rank (inputPorts p) id r.
Proof.
  unfold getRealInputPortId.
  destruct (real_port_id (inputPorts p) id 0) as [r0|] eqn:E.
  - apply real_port_id_rank in E as (r' & -> & Hr). simpl. split.
    + by intros [= <-].
    + intros Hr2. f_equal. destruct Hr as [Ha Hb], Hr2 as [Hc Hd].
      destruct (Nat.lt_trichotomy r' r) as [Hlt|[->|Hgt]]; [|reflexivity|].
      * destruct (Hd _ Hlt Ha).
      * destruct (Hb _ Hgt Hc).
  - split; [discriminate|]. intros Hr.
    assert (real_port_id (inputPorts p) id 0 = Some r) as H
      by (apply real_port_id_rank; exists r; auto).
    congruence.
Qed.

Lemma getRealOutputPortId_rank (p : GenericLayerParams) (id : Z) (r : nat) :
  getRealOutputPortId p id = Ok r <-> port_rank (outputPorts p) id r.
Proof.
  unfold getRealOutputPortId.
  destruct (real_port_id (outputPorts p) id 0) as [r0|] eqn:E.
  - apply real_port_id_rank in E as (r' & -> & Hr). simpl. split.
    + by intros [= <-].
    + intros Hr2. f_equal. destruct Hr as [Ha Hb], Hr2 as [Hc Hd].
      destruct (Nat.lt_trichotomy r' r) as [Hlt|[->|Hgt]]; [|reflexivity|].
      * destruct (Hd _ Hlt Ha).
      * destruct (Hb _ Hgt Hc).
  - split; [discriminate|]. intros Hr.
    assert (real_port_id (outputPorts p) id 0 = Some r) as H
      by (apply real_port_id_rank; exists r; auto).
    congruence.
Qed.

Lemma gather_step_Ok params store p inputs0 e inputs1 :
  gather_step params store p inputs0 e = Ok inputs1 ->
  exists r out, wired_by params store p e r out /\ (r < length inputs0)%nat /\
                inputs1 = <[r := Some out]> inputs0.
Proof.
  unfold gather_step. intros H.
  destruct (store !! fromLayerId e) as [n|] eqn:Hn; [|discriminate].
  inv_bind H. rename a into r.
  destruct (Nat.leb_spec (length inputs0) r) as [Hle|Hlt]; [discriminate|].
  inv_bind H. rename a into k. inv_bind H. rename a into out.
  injection H as <-.
  exists r, out. split; [|split; [lia|reflexivity]].
  unfold Node_output in Ha1.
  destruct ((0 <? k)%nat && (length (n_outputs n) <=? k)%nat); [discriminate|].
  injection Ha1 as <-. simpl.
  split; [by apply getRealInputPortId_rank|].
  split; [reflexivity|]. split; [by apply getRealOutputPortId_rank|]. eauto.
Qed.

Lemma gather_fold params store p es inputs0 inputs :
  fold_result (gather_step params store p) es inputs0 = Ok inputs ->
  length inputs = length inputs0 /\
  (forall i out0, inputs0 !! i = Some (Some out0) -> exists out, inputs !! i = Some (Some out)) /\
  (forall e, e ∈ es -> exists r out,
      port_rank (inputPorts p) (toPortId e) r /\ inputs !! r = Some (Some out)) /\
  (forall i out, inputs !! i = Some (Some out) ->
      inputs0 !! i = Some (Some out) \/ exists e, e ∈ es /\ wired_by params store p e i out).
Proof.
  revert inputs0. induction es as [|e es IH]; intros inputs0 H; simpl in H.
  - injection H as <-. repeat split; eauto.
    intros e He. inversion He.
  - inv_bind H. rename a into inputs1.
    apply gather_step_Ok in Ha as (r & out & Hw & Hr & ->).
    destruct (IH _ H) as (Hlen & Hmono & Hall & Hback). clear IH.
    rewrite length_insert in Hlen.
    split; [exact Hlen|]. split; [|split].
    + intros i out0 Hi. destruct (decide (i = r)) as [->|Hne].
      * apply (Hmono r out). by apply list_lookup_insert_eq.
      * apply (Hmono i out0). by rewrite list_lookup_insert_ne.
    + intros e' He'. apply elem_of_cons in He' as [->|He'].
      * destruct (Hmono r out) as [out' Hout']; [by apply list_lookup_insert_eq|].
        exists r, out'. split; [apply Hw | exact Hout'].
      * by apply Hall.
    + intros i out' Hi. destruct (Hback i out' Hi) as [H0|(e' & He' & Hw')].
      * destruct (decide (i = r)) as [->|Hne].
        -- rewrite list_lookup_insert_eq in H0 by exact Hr. injection H0 as <-.
           right. exists e. split; [left | exact Hw].
        -- rewrite list_lookup_insert_ne in H0 by congruence. by left.
      * right. exists e'. split; [by right | exact Hw'].
Qed.

(** When the inputs of a node are gathered, the vector has one slot per
    incoming edge; every edge binds the slot whose index is the rank of its
    to-port id among the declared input ports of the layer; every bound slot
    holds the output of the edge's source node whose index is the rank of the
    from-port id among the declared output ports of the source layer. *)
Lemma gather_inputs_wired (params : gmap Z node_params) (store : gmap Z Node)
  (p : GenericLayerParams) (es : list edge) (inputs : list (option Output)) :
  gather_inputs params store p es = Ok inputs ->
  length inputs = length es /\
  (forall e, e ∈ es -> exists r out,
      port_rank (inputPorts p) (toPortId e) r /\ inputs !! r = Some (Some out)) /\
  (forall i out, inputs !! i = Some (Some out) ->
      exists e, e ∈ es /\ wired_by params store p e i out) /\
  (portId <$> inputPorts p = [7; 3; 9] ->
   forall e, e ∈ es -> toPortId e = 3 ->
   getRealInputPortId p 3 = Ok 1%nat /\ exists out, inputs !! 1%nat = Some (Some out)).
Proof.
  unfold gather_inputs. intros H.
  destruct (gather_fold _ _ _ _ _ _ H) as (Hlen & _ & Hall & Hback).
  rewrite length_replicate in Hlen.
  split; [exact Hlen|]. split; [exact Hall|]. split.
  - intros i out Hi. destruct (Hback i out Hi) as [H0|H0]; [|exact H0].
    apply lookup_replicate in H0 as [H0 _]. discriminate.
  - intros Hids e He Hto.
    assert (port_rank (inputPorts p) 3 1) as Hrank.
    { split.
      - rewrite <- list_lookup_fmap, Hids. reflexivity.
      - intros j Hj. rewrite <- list_lookup_fmap, Hids.
        destruct j as [|j]; [simpl; congruence | lia]. }
    split; [by apply getRealInputPortId_rank|].
    destruct (Hall e He) as (r & out & Hr & Hout). rewrite Hto in Hr.
    apply getRealInputPortId_rank in Hr, Hrank. rewrite Hr in Hrank.
    injection Hrank as ->. eauto.
Qed.



(** ** Constant buffers *)

Lemma get_number_range lo hi node str v :
  XMLParseUtils.get_number lo hi node str = Ok v -> lo <= v <= hi.
Proof.
  unfold XMLParseUtils.get_number.
  destruct (attribute node str); [|discriminate].
  destruct (scan_integer s) as [[w rest]|]; [|discriminate].
  destruct ((w <? INT64_MIN) || (INT64_MAX <? w)); [discriminate|].
  destruct (negb (String.eqb rest "")); simpl; [discriminate|].
  destruct (Z.ltb_spec w lo); simpl; [discriminate|].
  destruct (Z.ltb_spec hi w); simpl; [discriminate|].
  intros [= <-]. lia.
Qed.

Lemma f32_of_u64_small (n : Z) : n < 2 ^ 24 -> f32_of_u64 n = n.
Proof.
  intros H. unfold f32_of_u64. destruct (Z.ltb_spec n (2 ^ 24)); [reflexivity | lia].
Qed.

Lemma shape_size_mod (shape : list Z) :
  shape_size shape = fold_left Z.mul shape 1 mod SIZE_MOD.
Proof.
  unfold shape_size.
  assert (forall acc,
            fold_left (fun size d => to_size_t (size * d)) shape (acc mod SIZE_MOD)
              = fold_left Z.mul shape acc mod SIZE_MOD) as H.
  { induction shape as [|d shape IH]; intros acc; simpl; [reflexivity|].
    unfold to_size_t at 2. rewrite Z.mul_mod_idemp_l by (unfold SIZE_MOD; lia).
    apply IH. }
  rewrite <- (H 1). reflexivity.
Qed.

(** Where the sizes are exactly representable in binary32 the test of the
    loader is the exact comparison with the bytes the shape needs. *)
Lemma size_below_shape_exact (size : Z) (shape : list Z) (el_type : Type_t) :
  size < 2 ^ 24 ->
  0 <= fold_left Z.mul shape 1 * bitwidth el_type < 2 ^ 24 ->
  size_below_shape size shape el_type = (size <? bytes_needed shape el_type).
Proof.
  intros Hs Hb. unfold size_below_shape, bytes_needed, f32_ceil_div8.
  assert (to_size_t (shape_size shape * bitwidth el_type)
          = fold_left Z.mul shape 1 * bitwidth el_type) as ->.
  { rewrite shape_size_mod. unfold to_size_t.
    rewrite Z.mul_mod_idemp_l by (unfold SIZE_MOD; lia).
    apply Z.mod_small. unfold SIZE_MOD. lia. }
  rewrite !f32_of_u64_small by lia. reflexivity.
Qed.

Lemma shared_bytes_spec (data size : Z) (owner : Blob) (i : nat) :
  (Z.of_nat i < size) ->
  shared_bytes data size owner !! i = Some (cbuffer owner (data + Z.of_nat i)).
Proof.
  intros Hi. unfold shared_bytes, seqZ_from.
  rewrite !list_lookup_fmap, lookup_seq_lt by lia. reflexivity.
Qed.

Lemma shared_bytes_length (data size : Z) (owner : Blob) :
  0 <= size -> Z.of_nat (length (shared_bytes data size owner)) = size.
Proof.
  intros H. unfold shared_bytes, seqZ_from. rewrite !length_map, length_seq. lia.
Qed.

(** The branch for a "Const" layer and the attribute "value": the order of
    the reads and of the three tests, and the buffer that is set.  The two
    numbers read with [GetUInt64Attr] are below 2^63, their sum does not
    wrap. *)
Lemma const_value_from_weights (m_node dn : xml_node) (m_weights : Blob)
  (offset size : Z) (el_type_str : string) (shape : list Z) (el_type : Type_t) :
  child (Some m_node) "data" = Some dn ->
  XMLParseUtils.GetStrAttr (Some m_node) "type" = Ok "Const" ->
  getStrAttribute (Some dn) "value" = None ->
  XMLParseUtils.GetUInt64Attr (Some dn) "offset" = Ok offset ->
  XMLParseUtils.GetUInt64Attr (Some dn) "size" = Ok size ->
  getStrAttribute (Some dn) "element_type" = Some el_type_str ->
  getParameters_int64 (Some dn) "shape" = Ok (Some shape) ->
  convertPrecision el_type_str = Ok el_type ->
  on_adapter_aligned_buffer (Some m_node) m_weights "value" =
    (if byteSize m_weights =? 0 then
       Throw (IE_exception "Empty weights data in bin file or bin file cannot be found!")
     else if byteSize m_weights <? offset + size then
       Throw (IE_exception "Incorrect weights in bin file!")
     else if size_below_shape size shape el_type then
       Throw (IE_exception "Attribute and shape size are inconsistent for op!")
     else Ok (Some (SharedBuffer offset size m_weights))) /\
  0 <= offset /\ 0 <= size /\
  (forall i, (Z.of_nat i < size) ->
     shared_bytes offset size m_weights !! i = Some (cbuffer m_weights (offset + Z.of_nat i))) /\
  Z.of_nat (length (shared_bytes offset size m_weights)) = size.
Proof.
  intros Hdn Hty Hval Hoff Hsize Hel Hshape Hprec.
  pose proof (get_number_range _ _ _ _ _ Hoff) as Ho.
  pose proof (get_number_range _ _ _ _ _ Hsize) as Hs.
  unfold INT64_MAX in Ho, Hs.
  split; [|split; [lia|split; [lia|split]]].
  - unfold on_adapter_aligned_buffer.
    rewrite Hdn, Hval. change (string_in "value" skip_names) with false.
    cbn [andb]. rewrite Hty. unfold mbind, result_bind.
    change (("value" =? "value")%string && ("Const" =? "Const")%string) with true.
    cbv beta iota. rewrite Hoff, Hsize, Hel, Hshape, Hprec.
    assert (to_size_t (offset + size) = offset + size) as ->.
    { unfold to_size_t. apply Z.mod_small. unfold SIZE_MOD. lia. }
    reflexivity.
  - intros i Hi. by apply shared_bytes_spec.
  - apply shared_bytes_length. lia.
Qed.

(** C3.  A "Const" layer with offset 0, size 16777216, element type u8 and
    shape 16777217 needs 16777217 bytes, one more than its size.  The test
    [size < ceil(volume * bitwidth / 8.f)] is made in single precision, where
    8 * 16777217 rounds to 2^27; the layer is not refused and receives a
    shared buffer of 16777216 bytes. *)
Theorem const_size_test_rounds_in_single_precision (m_weights : Blob) :
  byteSize m_weights = 16777216 ->
  on_adapter_aligned_buffer (Some (const_layer "0" "16777216" "u8" "16777217")) m_weights "value"
    = Ok (Some (SharedBuffer 0 16777216 m_weights)) /\
  16777216 < bytes_needed [16777217] u8.
Proof.
  intros Hlen. split; [|reflexivity].
  destruct (const_value_from_weights
              (const_layer "0" "16777216" "u8" "16777217")
              (XmlElem "data" [("offset", "0"); ("size", "16777216");
                               ("element_type", "u8"); ("shape", "16777217")] "" [])
              m_weights 0 16777216 "u8" [16777217] u8
              eq_refl eq_refl eq_refl eq_refl eq_refl eq_refl eq_refl eq_refl) as (-> & _).
  rewrite Hlen. reflexivity.
Qed.

Lemma const_size_test_rounds_in_single_precision_witness :
  on_adapter_aligned_buffer (Some (const_layer "0" "16777216" "u8" "16777217"))
                            (mkBlob 16777216 (fun _ => 0)) "value"
    = Ok (Some (SharedBuffer 0 16777216 (mkBlob 16777216 (fun _ => 0)))).
Proof.
  apply (const_size_test_rounds_in_single_precision (mkBlob 16777216 (fun _ => 0))).
  reflexivity.
Defined.

(** S2: the constant of two floats shares the eight bytes of the blob; a
    shape that needs more than the size is refused when the numbers are
    small. *)
Lemma const_from_sample_weights :
  on_adapter_aligned_buffer (Some (const_layer "0" "8" "f32" "2")) sample_weights "value"
    = Ok (Some (SharedBuffer 0 8 sample_weights)) /\
  shared_bytes 0 8 sample_weights = [0x00; 0x00; 0x80; 0x3F; 0x00; 0x00; 0x00; 0x40] /\
  on_adapter_aligned_buffer (Some (const_layer "0" "8" "f32" "3")) sample_weights "value"
    = Throw (IE_exception "Attribute and shape size are inconsistent for op!") /\
  on_adapter_aligned_buffer (Some (const_layer "4" "8" "f32" "2")) sample_weights "value"
    = Throw (IE_exception "Incorrect weights in bin file!") /\
  on_adapter_aligned_buffer (Some (const_layer "0" "0" "f32" "0")) (mkBlob 0 (fun _ => 0)) "value"
    = Throw (IE_exception "Empty weights data in bin file or bin file cannot be found!").
Proof. repeat split; reflexivity. Qed.

(** ** The port map *)

Lemma map_emplace_spec {V} (k0 : Z) (v0 : V) (m : list (Z * V)) :
  StronglySorted Z.lt (m.*1) ->
  StronglySorted Z.lt ((map_emplace k0 v0 m).*1) /\
  forall k v, (k, v) ∈ map_emplace k0 v0 m <->
              (k, v) ∈ m \/ (k = k0 /\ v = v0 /\ k0 ∉ m.*1).
Proof.
  induction m as [|[k' v'] m IH]; simpl; intros Hs.
  - split; [repeat constructor|].
    intros k v. rewrite list_elem_of_singleton. split.
    + intros [= -> ->]. right. repeat split. apply not_elem_of_nil.
    + intros [H|(-> & -> & _)]; [inversion H | reflexivity].
  - apply StronglySorted_cons in Hs as [Hall Hs].
    destruct (IH Hs) as [IHs IHm]. clear IH.
    rewrite Forall_forall in Hall.
    destruct (Z.ltb_spec k0 k') as [Hlt|Hge].
    + split.
      * simpl. apply StronglySorted_cons. split.
        -- constructor; [exact Hlt|]. apply Forall_forall. intros x Hx.
           specialize (Hall x Hx). lia.
        -- apply StronglySorted_cons. split; [by apply Forall_forall | exact Hs].
      * intros k v. rewrite !elem_of_cons. split.
        -- intros [[= -> ->]|H]; [|by left].
           right. repeat split. intros [->|Hin]; [lia|].
           specialize (Hall _ Hin). lia.
        -- intros [H|(-> & -> & _)]; [by right | by left].
    + destruct (Z.eqb_spec k0 k') as [->|Hne].
      * split.
        -- simpl. apply StronglySorted_cons. split; [by apply Forall_forall | exact Hs].
        -- intros k v. split; [by left|].
           intros [H|(_ & _ & Hn)]; [exact H|]. exfalso. apply Hn. left.
      * split.
        -- simpl. apply StronglySorted_cons. split; [|exact IHs].
           apply Forall_forall. intros x Hx.
           apply list_elem_of_fmap in Hx as ([k v] & -> & Hkv). simpl.
           apply IHm in Hkv as [Hkv|(-> & _ & _)]; [|lia].
           apply Hall. apply list_elem_of_fmap. exists (k, v). auto.
        -- intros k v. rewrite !elem_of_cons, IHm. split.
           ++ intros [H|[H|(-> & -> & Hn)]]; [tauto|tauto|].
              right. repeat split. intros [->|Hin]; [lia | contradiction].
           ++ intros [[H|H]|(-> & -> & Hn)]; [tauto|tauto|].
              right; right. repeat split. intros Hin. apply Hn. by right.
Qed.

Lemma port_map_fold (key_of : Z -> Z) (cs : list xml_node) (m0 m : list (Z * xml_node)) :
  fold_result (fun m x => external_port_id x ≫= (fun ext_port_id =>
                            Ok (map_emplace (key_of ext_port_id) x m))) cs m0 = Ok m ->
  StronglySorted Z.lt (m0.*1) ->
  StronglySorted Z.lt (m.*1) /\
  (forall k y, (k, y) ∈ m0 -> (k, y) ∈ m) /\
  (forall k y, (k, y) ∈ m ->
     (k, y) ∈ m0 \/ ((k ∉ m0.*1) /\ first_with_key key_of cs k y)) /\
  (forall k y, first_with_key key_of cs k y -> k ∉ m0.*1 -> (k, y) ∈ m).
Proof.
  revert m0. induction cs as [|c cs IH]; intros m0 H Hs; simpl in H.
  - injection H as <-. split; [exact Hs|]. split; [auto|]. split; [auto|].
    intros k y (pre & post & e & Hcs & _). destruct pre; discriminate.
  - inv_bind H. rename a into m1. inv_bind Ha. rename a into e. injection Ha as <-.
    destruct (map_emplace_spec (key_of e) c m0 Hs) as [Hs1 Hm1].
    destruct (IH _ H Hs1) as (Hsm & Hmono & Hback & Hfirst). clear IH.
    split; [exact Hsm|]. split; [|split].
    + intros k y Hky. apply Hmono, Hm1. by left.
    + intros k y Hky. apply Hback in Hky as [Hky|[Hnin Hf]].
      * apply Hm1 in Hky as [Hky|(-> & -> & Hn)]; [by left|].
        right. split; [exact Hn|]. exists [], cs, e. repeat split; auto.
        intros z e' Hz. inversion Hz.
      * assert (k <> key_of e) as Hne.
        { intros ->. apply Hnin. apply list_elem_of_fmap.
          destruct (decide (key_of e ∈ m0.*1)) as [Hin|Hn].
          - apply list_elem_of_fmap in Hin as ([k' v'] & Hk & Hin). simpl in Hk. subst k'.
            exists (key_of e, v'). split; [reflexivity|]. apply Hm1. by left.
          - exists (key_of e, c). split; [reflexivity|]. apply Hm1. right. auto. }
        right. split.
        -- intros Hin. apply Hnin. apply list_elem_of_fmap in Hin as ([k' v'] & Hk & Hin).
           simpl in Hk. subst k'. apply list_elem_of_fmap. exists (k, v').
           split; [reflexivity|]. apply Hm1. by left.
        -- destruct Hf as (pre & post & e2 & -> & He2 & Hk & Hpre).
           exists (c :: pre), post, e2. repeat split; auto.
           intros z e' Hz Hze. apply elem_of_cons in Hz as [->|Hz]; [|eauto].
           unfold external_port_id in Ha0, Hze. rewrite Ha0 in Hze. injection Hze as <-.
           congruence.
    + intros k y (pre & post & e2 & Hcs & He2 & Hk & Hpre) Hnin.
      destruct pre as [|c' pre]; simpl in Hcs; injection Hcs as -> ->.
      * unfold external_port_id in Ha0, He2. rewrite Ha0 in He2. injection He2 as <-.
        apply Hmono, Hm1. right. subst k. auto.
      * apply Hfirst.
        -- exists pre, post, e2. repeat split; auto.
           intros z e' Hz. apply Hpre. by right.
        -- intros Hin. apply list_elem_of_fmap in Hin as ([k' v'] & Hk' & Hin).
           simpl in Hk'. subst k'.
           apply Hm1 in Hin as [Hin|(Hke & _ & _)].
           ++ apply Hnin. apply list_elem_of_fmap. exists (k, v'). auto.
           ++ apply (Hpre c' e); [left | exact Ha0 | congruence].
Qed.

Lemma port_map_entries_spec (key_of : Z -> Z) (node : option xml_node) (kind : string)
  (m : list (Z * xml_node)) :
  port_map_entries key_of node kind = Ok m ->
  StronglySorted Z.lt (m.*1) /\
  forall k y, (k, y) ∈ m <->
              first_with_key key_of (children_named (child node "port_map") kind) k y.
Proof.
  unfold port_map_entries. intros H.
  destruct (port_map_fold key_of _ [] m H) as (Hs & _ & Hback & Hfirst); [constructor|].
  split; [exact Hs|]. intros k y. split.
  - intros Hky. apply Hback in Hky as [Hky|[_ Hf]]; [inversion Hky | exact Hf].
  - intros Hf. apply Hfirst; [exact Hf | apply not_elem_of_nil].
Qed.

Lemma map_at_Ok (m : gmap Z Z) (k v : Z) : map_at m k = Ok v <-> m !! k = Some v.
Proof. unfold map_at. destruct (m !! k); split; congruence. Qed.

Lemma describe_output_cases (up : IoMap) (n : Z) (x : xml_node) (r : option OutputDescription) :
  describe_output up n x = Ok r ->
  exists ext, external_port_id x = Ok ext /\
    is_Ok (XMLParseUtils.GetUIntAttr (Some x) "internal_layer_id") /\
    match r with
    | None => ext < 0
    | Some d => 0 <= ext /\ output_number_of d = n /\ connected_output_description up n x d
    end.
Proof.
  unfold describe_output, external_port_id. intros H.
  inv_bind H. rename a into body. inv_bind H. rename a into ext.
  exists ext. split; [exact Ha0|]. split; [by exists body|].
  destruct (Z.leb_spec 0 ext) as [Hle|Hlt]; [|injection H as <-; lia].
  unfold connected_output_description.
  destruct (attribute (Some x) "axis") as [a|] eqn:Haxis.
  - inv_bind H. rename a0 into axis. inv_bind H. rename a0 into start.
    inv_bind H. rename a0 into stride. inv_bind H. rename a0 into end_.
    inv_bind H. rename a0 into part_size. inv_bind H. rename a0 into idx.
    injection H as <-. split; [exact Hle|]. split; [reflexivity|].
    exists body, idx. split; [exact Ha|]. split; [by apply map_at_Ok|].
    exists axis, start, stride, end_, part_size. auto 10.
  - inv_bind H. rename a into idx. injection H as <-.
    split; [exact Hle|]. split; [reflexivity|].
    exists body, idx. split; [exact Ha|]. split; [by apply map_at_Ok|].
    reflexivity.
Qed.

Lemma output_fold (up : IoMap) (m : list (Z * xml_node)) (outs0 outs : list OutputDescription)
  (n : Z) :
  fold_result (output_step up) m (outs0, Z.of_nat (length outs0)) = Ok (outs, n) ->
  (forall k x, (k, x) ∈ m -> external_port_id x = Ok k) ->
  exists new,
    outs = outs0 ++ new /\ n = Z.of_nat (length outs) /\
    Forall2 (fun kx d => connected_output_description up (output_number_of d) kx.2 d)
            (filter (fun kx => 0 <= kx.1) m) new /\
    (forall i d, new !! i = Some d -> output_number_of d = Z.of_nat (length outs0 + i)) /\
    (forall k x, (k, x) ∈ m -> is_Ok (XMLParseUtils.GetUIntAttr (Some x) "internal_layer_id")).
Proof.
  revert outs0. induction m as [|[k x] m IH]; intros outs0 H Hkeys; simpl in H.
  - injection H as <- <-. exists []. rewrite app_nil_r.
    split; [reflexivity|]. split; [reflexivity|]. split; [constructor|]. split.
    + intros i d Hi. rewrite lookup_nil in Hi. discriminate.
    + intros k x Hin. inversion Hin.
  - inv_bind H. destruct a as [outs1 n1]. inv_bind Ha. rename a into r.
    apply describe_output_cases in Ha0 as (ext & Hext & Hbody & Hr).
    rewrite (Hkeys k x) in Hext by left. injection Hext as ->.
    destruct r as [d|].
    + injection Ha as <- <-. destruct Hr as (Hle & Hnum & Hdesc).
      replace (Z.of_nat (length outs0) + 1) with (Z.of_nat (length (outs0 ++ [d]))) in H
        by (rewrite length_app; simpl; lia).
      destruct (IH _ H) as (new & -> & Hn & Hall & Hidx & Hread).
      { intros k' x' Hin. apply Hkeys. by right. }
      exists (d :: new). split; [by rewrite <- app_assoc|]. split; [exact Hn|].
      split; [|split].
      * rewrite filter_cons_True by (simpl; lia). constructor; [|exact Hall].
        simpl. rewrite Hnum. exact Hdesc.
      * intros [|i] d' Hi; simpl in Hi.
        -- injection Hi as <-. rewrite Hnum. f_equal. lia.
        -- rewrite (Hidx i d' Hi). rewrite length_app. simpl. f_equal. lia.
      * intros k' x' Hin. apply elem_of_cons in Hin as [[= -> ->]|Hin]; eauto.
    + injection Ha as <- <-.
      destruct (IH _ H) as (new & -> & Hn & Hall & Hidx & Hread).
      { intros k' x' Hin. apply Hkeys. by right. }
      exists new. split; [reflexivity|]. split; [exact Hn|]. split; [|split; [exact Hidx|]].
      * rewrite filter_cons_False by (simpl; lia). exact Hall.
      * intros k' x' Hin. apply elem_of_cons in Hin as [[= -> ->]|Hin]; eauto.
Qed.

(** C6.  The outputs of the port map are taken in ascending order of
    external_port_id (one node per id).  Those with a negative id give no
    description and leave [output_number] as it is; the i-th description that
    is emitted, Concat or Body, describes the i-th output with a non-negative
    id and carries the output number i, the number of descriptions emitted
    before it. *)
Theorem output_number_counts_connected_outputs (io_map : IoMap) (node : option xml_node)
  (descs : list OutputDescription) :
  parseOutputDescription io_map node = Ok descs ->
  exists up_io_map output_map,
    updated_io_map io_map node = Ok up_io_map /\
    port_map_entries (fun k => k) node "output" = Ok output_map /\
    StronglySorted Z.lt (output_map.*1) /\
    (forall k x, (k, x) ∈ output_map ->
       x ∈ children_named (child node "port_map") "output" /\ external_port_id x = Ok k) /\
    Forall2 (fun kx d => connected_output_description up_io_map (output_number_of d) kx.2 d)
            (filter (fun kx => 0 <= kx.1) output_map) descs /\
    (forall i d, descs !! i = Some d -> output_number_of d = Z.of_nat i) /\
    (forall k x n, (k, x) ∈ output_map -> k < 0 -> describe_output up_io_map n x = Ok None).
Proof.
  unfold parseOutputDescription. intros H.
  inv_bind H. rename a into up. inv_bind H. rename a into output_map.
  inv_bind H. destruct a as [outs n]. injection H as <-. simpl.
  exists up, output_map. split; [exact Ha|]. split; [exact Ha0|].
  destruct (port_map_entries_spec _ _ _ _ Ha0) as [Hsorted Hentries].
  assert (forall k x, (k, x) ∈ output_map ->
            x ∈ children_named (child node "port_map") "output" /\ external_port_id x = Ok k)
    as Hkeys.
  { intros k x Hin. apply Hentries in Hin as (pre & post & e & -> & He & <- & _).
    split; [|exact He]. apply elem_of_app. right. left. }
  split; [exact Hsorted|]. split; [exact Hkeys|].
  destruct (output_fold up output_map [] outs n Ha1) as (new & -> & _ & Hall & Hidx & Hread).
  { intros k x Hin. by apply Hkeys. }
  simpl. split; [exact Hall|]. split; [exact Hidx|].
  intros k x n' Hin Hneg.
  destruct (Hread k x Hin) as [body Hbody].
  unfold describe_output. rewrite Hbody.
  destruct (Hkeys k x Hin) as [_ Hk]. unfold external_port_id in Hk.
  unfold mbind, result_bind. rewrite Hk.
  destruct (Z.leb_spec 0 k); [lia | reflexivity].
Qed.

Lemma output_number_counts_connected_outputs_witness :
  parseOutputDescription sample_io_map
    (Some (sample_loop []
             [ port_output [("external_port_id", "3"); ("internal_layer_id", "10")];
               port_output [("external_port_id", "-1"); ("internal_layer_id", "8")];
               port_output [("external_port_id", "1"); ("internal_layer_id", "9"); ("axis", "0")] ]
             []))
    = Ok [ ConcatOutputDescription 1 0 0 1 1 (-1) 0; BodyOutputDescription 2 1 (-1) ] /\
  output_number_of (BodyOutputDescription 2 1 (-1)) = 1.
Proof.
  assert (parseOutputDescription sample_io_map
    (Some (sample_loop []
             [ port_output [("external_port_id", "3"); ("internal_layer_id", "10")];
               port_output [("external_port_id", "-1"); ("internal_layer_id", "8")];
               port_output [("external_port_id", "1"); ("internal_layer_id", "9"); ("axis", "0")] ]
             []))
    = Ok [ ConcatOutputDescription 1 0 0 1 1 (-1) 0; BodyOutputDescription 2 1 (-1) ]) as H
    by reflexivity.
  split; [exact H|].
  destruct (output_number_counts_connected_outputs _ _ _ H)
    as (up & m & _ & _ & _ & _ & _ & Hidx & _).
  apply (Hidx 1%nat). reflexivity.
Defined.

Lemma find_back_edge_spec (es : list xml_node) (b : Z) (r : option xml_node) :
  find_back_edge es b = Ok r ->
  match r with
  | Some xml_edge =>
      exists pre post, es = pre ++ xml_edge :: post /\ to_layer_of xml_edge = Ok b /\
                       forall z, z ∈ pre -> exists t, to_layer_of z = Ok t /\ t <> b
  | None => forall z, z ∈ es -> exists t, to_layer_of z = Ok t /\ t <> b
  end.
Proof.
  revert r. induction es as [|e es IH]; intros r H; simpl in H.
  - injection H as <-. intros z Hz. inversion Hz.
  - inv_bind H. rename a into t.
    destruct (Z.eqb_spec t b) as [->|Hne].
    + injection H as <-. exists [], es. repeat split; auto.
      intros z Hz. inversion Hz.
    + specialize (IH r H). destruct r as [xml_edge|].
      * destruct IH as (pre & post & -> & Hto & Hpre).
        exists (e :: pre), post. repeat split; auto.
        intros z Hz. apply elem_of_cons in Hz as [->|Hz]; eauto.
      * intros z Hz. apply elem_of_cons in Hz as [->|Hz]; eauto.
Qed.

(** The body of the loop over the inputs emits what the specification gives. *)
Lemma describe_input_specified (up : IoMap) (node : option xml_node) (x : xml_node)
  (ds : list InputDescription) :
  describe_input up node x = Ok ds -> specified_input_description up node x ds.
Proof.
  unfold describe_input, specified_input_description. intros H.
  inv_bind H. rename a into ti. inv_bind H. rename a into b.
  exists ti, b. split; [exact Ha|]. split; [exact Ha0|].
  destruct (attribute (Some x) "axis") as [a|].
  - inv_bind H. rename a0 into axis. inv_bind H. rename a0 into start.
    inv_bind H. rename a0 into stride. inv_bind H. rename a0 into end_.
    inv_bind H. rename a0 into part_size. inv_bind H. rename a0 into idx.
    injection H as <-. apply map_at_Ok in Ha6.
    exists idx, axis, start, stride, end_, part_size. auto 10.
  - inv_bind H. rename a into back.
    apply find_back_edge_spec in Ha1.
    destruct back as [xml_edge|].
    + inv_bind H. rename a into from_layer. inv_bind H. rename a into idx.
      inv_bind H. rename a into out. injection H as <-.
      apply map_at_Ok in Ha3, Ha4.
      left. exists xml_edge, from_layer, idx, out. auto 10.
    + destruct (Z.leb_spec 0 ti) as [Hle|Hlt].
      * inv_bind H. rename a into idx. injection H as <-. apply map_at_Ok in Ha2.
        right; left. split; [exact Ha1|]. split; [exact Hle|]. eauto.
      * injection H as <-. right; right. auto.
Qed.

Lemma input_fold (up : IoMap) (node : option xml_node) (m : list (Z * xml_node))
  (acc descs : list InputDescription) :
  fold_result (fun inputs input => describe_input up node input.2 ≫= (fun ds =>
                                   Ok (inputs ++ ds))) m acc = Ok descs ->
  exists dss, Forall2 (fun kx ds => describe_input up node kx.2 = Ok ds) m dss /\
              descs = acc ++ concat dss.
Proof.
  revert acc. induction m as [|kx m IH]; intros acc H; simpl in H.
  - injection H as <-. exists []. split; [constructor | by rewrite app_nil_r].
  - inv_bind H. inv_bind Ha. rename a0 into ds. injection Ha as <-.
    destruct (IH _ H) as (dss & Hall & ->).
    exists (ds :: dss). split; [by constructor|]. simpl. by rewrite app_assoc.
Qed.

(** C5, counterexample.  Two <input> nodes of the port map share the external
    port 0.  Only the first is kept in the map keyed by external_port_id: one
    Invariant description is emitted, and the second input, which has no axis
    and no back edge and a non-negative port id, has none. *)
Lemma second_input_of_a_port_id_not_described :
  parseInputDescription sample_io_map (Some loop_shared_external_port)
    = Ok [InvariantInputDescription 0 0] /\
  ~ every_input_described sample_io_map (Some loop_shared_external_port)
      [InvariantInputDescription 0 0].
Proof.
  split; [reflexivity|].
  intros (up & Hup & Hall).
  assert (up = sample_io_map) as ->.
  { assert (updated_io_map sample_io_map (Some loop_shared_external_port) = Ok sample_io_map)
      as E by reflexivity.
    congruence. }
  destruct (Hall (port_input [("external_port_id", "0"); ("internal_layer_id", "6")]))
    as (ds & (ti & b & Hti & Hb & Hcase) & Hin).
  { right; left. }
  injection Hti as <-. injection Hb as <-. simpl in Hcase.
  destruct Hcase as [(e & _ & _ & _ & (pre & post & He & _) & _)
                    |[(_ & _ & idx & Hidx & ->)|(_ & Hneg & _)]].
  - destruct pre; discriminate.
  - assert (idx = 1) as -> by (vm_compute in Hidx; congruence).
    specialize (Hin _ (list_elem_of_here _ _)).
    apply list_elem_of_singleton in Hin. discriminate.
  - vm_compute in Hneg. discriminate.
Qed.

(** C5, as amended.  The inputs of the port map are keyed by
    external_port_id, and of several inputs with one id only the first in the
    document is kept.  Each input that is kept emits: a Sliced description
    when it has an axis (start 0, stride 1, end -1, part_size 1 unless given),
    whether or not a back edge leads to its body parameter; else a Merged
    description when a back edge leads to its body parameter; else an
    Invariant description when its external port id is not negative; else
    nothing. *)
Theorem input_description_kinds (io_map : IoMap) (node : option xml_node)
  (descs : list InputDescription) :
  parseInputDescription io_map node = Ok descs ->
  exists up_io_map input_map dss,
    updated_io_map io_map node = Ok up_io_map /\
    port_map_entries to_size_t node "input" = Ok input_map /\
    (forall k x, (k, x) ∈ input_map <->
       first_with_key to_size_t (children_named (child node "port_map") "input") k x) /\
    Forall2 (fun kx ds => specified_input_description up_io_map node kx.2 ds) input_map dss /\
    descs = concat dss.
Proof.
  unfold parseInputDescription. intros H.
  inv_bind H. rename a into up. inv_bind H. rename a into input_map.
  destruct (input_fold _ _ _ _ _ H) as (dss & Hall & ->).
  exists up, input_map, dss. split; [exact Ha|]. split; [exact Ha0|].
  split; [apply (port_map_entries_spec _ _ _ _ Ha0)|]. split; [|reflexivity].
  eapply Forall2_impl; [exact Hall|]. intros kx ds. apply describe_input_specified.
Qed.

Lemma input_description_kinds_witness :
  parseInputDescription sample_io_map (Some loop_all_kinds)
    = Ok [ SliceInputDescription 0 0 0 1 1 (-1) 0;
           MergedInputDescription 1 0 1;
           InvariantInputDescription 2 1 ] /\
  exists up_io_map input_map dss,
    updated_io_map sample_io_map (Some loop_all_kinds) = Ok up_io_map /\
    port_map_entries to_size_t (Some loop_all_kinds) "input" = Ok input_map /\
    (forall k x, (k, x) ∈ input_map <->
       first_with_key to_size_t
         (children_named (child (Some loop_all_kinds) "port_map") "input") k x) /\
    Forall2 (fun kx ds => specified_input_description up_io_map (Some loop_all_kinds) kx.2 ds)
            input_map dss /\
    [ SliceInputDescription 0 0 0 1 1 (-1) 0; MergedInputDescription 1 0 1;
      InvariantInputDescription 2 1 ] = concat dss.
Proof.
  assert (parseInputDescription sample_io_map (Some loop_all_kinds)
          = Ok [ SliceInputDescription 0 0 0 1 1 (-1) 0;
                 MergedInputDescription 1 0 1;
                 InvariantInputDescription 2 1 ]) as H by reflexivity.
  split; [exact H|].
  exact (input_description_kinds _ _ _ H).
Defined.

(** ** The topological order *)

Lemma fold_option_fmap {A B S} (f : B -> S -> option S) (g : A -> B) (l : list A) (s : S) :
  fold_option (fun a => f (g a)) l s = fold_option f (g <$> l) s.
Proof.
  revert s. induction l as [|a l IH]; intros s; simpl; [reflexivity|].
  destruct (f (g a) s); simpl; auto.
Qed.

Lemma edges_at_touch (edges : gmap Z (list edge)) (id x : Z) :
  edges_at (touch edges id) x = edges_at edges x.
Proof.
  unfold touch, edges_at. destruct (edges !! id) eqn:E; [reflexivity|].
  destruct (decide (id = x)) as [->|Hne].
  - rewrite lookup_insert_eq, E. reflexivity.
  - by rewrite lookup_insert_ne.
Qed.

Lemma touch_is_Some (edges : gmap Z (list edge)) (id x : Z) :
  is_Some (edges !! x) -> is_Some (touch edges id !! x).
Proof.
  unfold touch. destruct (edges !! id) eqn:E; [auto|].
  intros Hx. destruct (decide (id = x)) as [->|Hne].
  - rewrite lookup_insert_eq. eauto.
  - by rewrite lookup_insert_ne.
Qed.

Lemma touch_self (edges : gmap Z (list edge)) (id : Z) : is_Some (touch edges id !! id).
Proof.
  unfold touch. destruct (edges !! id) eqn:E; [rewrite E; eauto|].
  rewrite lookup_insert_eq. eauto.
Qed.

Section DepthFirst.

Variable E0 : gmap Z (list edge).

Lemma dfs_extends_refl (st : dfs_state) : same_edges E0 st -> dfs_extends E0 st st [].
Proof.
  intros Hs. unfold dfs_extends. rewrite app_nil_r.
  repeat split; auto; try constructor; try set_solver.
Qed.

Lemma dfs_extends_trans (st st1 st2 : dfs_state) (new1 new2 : list Z) :
  dfs_extends E0 st st1 new1 -> dfs_extends E0 st1 st2 new2 ->
  dfs_extends E0 st st2 (new1 ++ new2).
Proof.
  intros (_ & Hk1 & Hu1 & Ho1 & Hd1 & Hn1 & Hc1 & He1)
         (Hs2 & Hk2 & Hu2 & Ho2 & Hd2 & Hn2 & Hc2 & He2).
  unfold dfs_extends. split; [exact Hs2|]. split; [auto|]. split; [set_solver|].
  split; [by rewrite Ho2, Ho1, app_assoc|]. split; [|split; [|split]].
  - apply NoDup_app. split; [exact Hd1|]. split; [|exact Hd2].
    intros x Hx1 Hx2. apply Hn1 in Hx1. apply Hn2 in Hx2. tauto.
  - intros x. rewrite elem_of_app, Hn1, Hn2. split.
    + intros [[Ha Hb]|[Ha Hb]]; split; set_solver.
    + intros [Ha Hb]. destruct (decide (x ∈ d_used st1)); [left|right]; tauto.
  - intros x y Hx Hf. apply elem_of_app in Hx as [Hx|Hx]; [|eauto].
    apply Hu2. eauto.
  - intros x Hx. apply elem_of_app in Hx as [Hx|Hx]; eauto.
Qed.

Lemma visit_all (visit : Z -> dfs_state -> option dfs_state) :
  (forall id st st', visit id st = Some st' -> same_edges E0 st -> dfs_post E0 id st st') ->
  forall ids st st',
    fold_option visit ids st = Some st' -> same_edges E0 st ->
    exists new, dfs_extends E0 st st' new /\
                (forall i, i ∈ ids -> i ∈ d_used st') /\
                (forall x, x ∈ new -> exists i, i ∈ ids /\ rtc (feeds E0) i x).
Proof.
  intros Hvisit ids. induction ids as [|i ids IH]; intros st st' H Hs; simpl in H.
  - injection H as <-. exists []. split; [by apply dfs_extends_refl|].
    split; intros x Hx; inversion Hx.
  - destruct (visit i st) as [st1|] eqn:Hv; [|discriminate]. simpl in H.
    destruct (Hvisit _ _ _ Hv Hs) as (new1 & Hext1 & Hi & Hr1).
    destruct (IH _ _ H (proj1 Hext1)) as (new2 & Hext2 & Hids & Hr2).
    exists (new1 ++ new2). split; [by eapply dfs_extends_trans|]. split.
    + intros j Hj. apply elem_of_cons in Hj as [->|Hj]; [|auto].
      destruct Hext2 as (_ & _ & Hu & _). set_solver.
    + intros x Hx. apply elem_of_app in Hx as [Hx|Hx].
      * exists i. split; [left | auto].
      * destruct (Hr2 x Hx) as (j & Hj & Hrj). exists j. split; [by right | exact Hrj].
Qed.

Lemma dfs_sound (budget : nat) (id : Z) (st st' : dfs_state) :
  dfs budget id st = Some st' -> same_edges E0 st -> dfs_post E0 id st st'.
Proof.
  revert id st st'. induction budget as [|b IH]; intros id st st' H Hs; [discriminate|].
  simpl in H. case_bool_decide as Hused.
  - injection H as <-. exists []. split; [by apply dfs_extends_refl|].
    split; [exact Hused|]. intros x Hx. inversion Hx.
  - rewrite fold_option_fmap in H.
    match type of H with
    | context [fold_option _ _ ?s] => set (st1 := s) in H
    end.
    destruct (fold_option (dfs b) (fromLayerId <$> edges_at (d_edges st) id) st1)
      as [st2|] eqn:Hfold; [|discriminate].
    simpl in H. injection H as <-.
    assert (same_edges E0 st1) as Hs1.
    { intros x. unfold st1. simpl. rewrite edges_at_touch. apply Hs. }
    destruct (visit_all (dfs b) IH _ _ _ Hfold Hs1)
      as (new & (Hs2 & Hk & Hu & Ho & Hd & Hn & Hc & He) & Hids & Hr).
    assert (id ∈ d_used st2) as Hid by (apply Hu; unfold st1; simpl; set_solver).
    exists (new ++ [id]). split; [|split; [exact Hid|]].
    + unfold dfs_extends. simpl. split; [exact Hs2|]. split; [|split; [|split; [|split]]].
      * intros x Hx. apply Hk. unfold st1. simpl. by apply touch_is_Some.
      * transitivity (d_used st1); [unfold st1; simpl; set_solver | exact Hu].
      * rewrite Ho. unfold st1. simpl. by rewrite app_assoc.
      * apply NoDup_app. split; [exact Hd|]. split; [|apply NoDup_singleton].
        intros x Hx Hx'. apply list_elem_of_singleton in Hx' as ->.
        apply Hn in Hx as [_ Hx]. apply Hx. unfold st1. simpl. set_solver.
      * split; [|split].
        -- intros x. rewrite elem_of_app, list_elem_of_singleton, Hn.
           unfold st1. simpl. split.
           ++ intros [[Ha Hb]| ->]; split; auto; set_solver.
           ++ intros [Ha Hb]. destruct (decide (x = id)); [by right|left].
              split; [exact Ha | set_solver].
        -- intros x y Hx Hf. apply elem_of_app in Hx as [Hx|Hx]; [eauto|].
           apply list_elem_of_singleton in Hx as ->.
           destruct Hf as (e & He' & <-). apply Hids.
           apply list_elem_of_fmap. exists e. split; [reflexivity|]. by rewrite Hs.
        -- intros x Hx. apply elem_of_app in Hx as [Hx|Hx]; [eauto|].
           apply list_elem_of_singleton in Hx as ->.
           apply Hk. unfold st1. simpl. apply touch_self.
    + intros x Hx. apply elem_of_app in Hx as [Hx|Hx].
      * destruct (Hr x Hx) as (i & Hi & Hri).
        apply list_elem_of_fmap in Hi as (e & -> & He').
        eapply rtc_l; [|exact Hri]. exists e. split; [by rewrite <- Hs | reflexivity].
      * apply list_elem_of_singleton in Hx as ->. apply rtc_refl.
Qed.

(** The budget is never exhausted: a nested call always finds a layer of
    the universe [U] that is not yet used. *)
Variable U : gset Z.
Hypothesis U_closed : forall x y, feeds E0 x y -> y ∈ U.

Lemma visit_all_total (visit : Z -> dfs_state -> option dfs_state) (b : nat) :
  (forall id st st', visit id st = Some st' -> same_edges E0 st -> dfs_post E0 id st st') ->
  (forall id st, same_edges E0 st -> id ∈ U -> (size (U ∖ d_used st) < b)%nat ->
                 is_Some (visit id st)) ->
  forall ids st, same_edges E0 st -> (forall i, i ∈ ids -> i ∈ U) ->
                 (size (U ∖ d_used st) < b)%nat ->
                 is_Some (fold_option visit ids st).
Proof.
  intros Hpost Htotal ids. induction ids as [|i ids IH]; intros st Hs Hin Hsize; simpl.
  - eauto.
  - destruct (Htotal i st Hs (Hin i (list_elem_of_here _ _)) Hsize) as [st1 Hv].
    rewrite Hv. simpl.
    destruct (Hpost _ _ _ Hv Hs) as (new & (Hs1 & _ & Hu & _) & _).
    apply IH; [exact Hs1 | intros j Hj; apply Hin; by right |].
    eapply Nat.le_lt_trans; [|exact Hsize]. apply subseteq_size. set_solver.
Qed.

Lemma dfs_total (budget : nat) (id : Z) (st : dfs_state) :
  same_edges E0 st -> id ∈ U -> (size (U ∖ d_used st) < budget)%nat ->
  is_Some (dfs budget id st).
Proof.
  revert id st. induction budget as [|b IH]; intros id st Hs Hid Hsize; [lia|].
  simpl. case_bool_decide as Hused; [eauto|].
  rewrite fold_option_fmap.
  match goal with
  | |- context [fold_option _ _ ?s] => set (st1 := s)
  end.
  assert (same_edges E0 st1) as Hs1.
  { intros x. unfold st1. simpl. rewrite edges_at_touch. apply Hs. }
  assert (size (U ∖ d_used st1) < b)%nat as Hsize1.
  { assert (U ∖ d_used st1 ⊂ U ∖ d_used st) as Hsub
      by (unfold st1; simpl; set_solver).
    apply subset_size in Hsub. lia. }
  destruct (visit_all_total (dfs b) b (fun id st st' => dfs_sound b id st st') IH
              (fromLayerId <$> edges_at (d_edges st) id) st1 Hs1) as [st2 Hfold].
  - intros i Hi. apply list_elem_of_fmap in Hi as (e & -> & He).
    apply (U_closed id). exists e. split; [by rewrite <- Hs | reflexivity].
  - exact Hsize1.
  - rewrite Hfold. simpl. eauto.
Qed.

End DepthFirst.

Lemma size_list_to_set_le (l : list Z) : (size (list_to_set l : gset Z) <= length l)%nat.
Proof.
  induction l as [|x l IH].
  - rewrite list_to_set_nil, size_empty. simpl. lia.
  - rewrite list_to_set_cons, size_union_alt, size_singleton. simpl.
    assert (size (list_to_set l ∖ {[x]} : gset Z) <= size (list_to_set l : gset Z))%nat
      by (apply subseteq_size; set_solver).
    lia.
Qed.

Lemma feeds_source (edges : gmap Z (list edge)) (x y : Z) :
  feeds edges x y -> y ∈ edge_sources edges.
Proof.
  intros (e & He & <-). unfold edges_at in He.
  destruct (edges !! x) as [es|] eqn:Hx; simpl in He; [|inversion He].
  unfold edge_sources. apply list_elem_of_bind. exists (x, es). split.
  - apply list_elem_of_fmap. eauto.
  - by apply elem_of_map_to_list.
Qed.

(** The search from the output layers returns, and its order lists, without
    repetition, exactly the layers reachable from them; each of them has an
    entry in the edge table afterwards, and the edge lists are unchanged. *)
Lemma topological_order_total (edges : gmap Z (list edge)) (outputs : list Z) :
  exists d, topological_order edges outputs = Some d /\
            same_edges edges d /\
            NoDup (d_order d) /\
            (forall x, x ∈ d_order d <-> reachable edges outputs x) /\
            (forall x, x ∈ d_order d -> is_Some (d_edges d !! x)).
Proof.
  set (U := list_to_set (outputs ++ edge_sources edges) : gset Z).
  set (st0 := mkDfs edges ∅ []).
  assert (same_edges edges st0) as Hs0 by (intros x; reflexivity).
  assert (forall x y, feeds edges x y -> y ∈ U) as Hclosed.
  { intros x y Hf. unfold U. apply elem_of_list_to_set, elem_of_app. right.
    by eapply feeds_source. }
  destruct (visit_all_total edges U Hclosed
              (dfs (dfs_budget edges outputs)) (dfs_budget edges outputs)
              (fun id st st' => dfs_sound edges _ id st st')
              (fun id st => dfs_total edges U Hclosed _ id st)
              outputs st0 Hs0) as [d Hd].
  - intros i Hi. unfold U. apply elem_of_list_to_set, elem_of_app. by left.
  - unfold dfs_budget. simpl.
    assert (size (U ∖ ∅) <= size U)%nat by (apply subseteq_size; set_solver).
    pose proof (size_list_to_set_le (outputs ++ edge_sources edges)). fold U in H0. lia.
  - exists d. split; [exact Hd|].
    destruct (visit_all edges (dfs (dfs_budget edges outputs))
                        (fun id st st' => dfs_sound edges _ id st st')
                        outputs st0 d Hd Hs0)
      as (new & (Hs & _ & _ & Ho & Hnd & Hn & Hc & He) & Hroots & Hr).
    simpl in Ho. subst new.
    split; [exact Hs|]. split; [exact Hnd|]. split; [|exact He].
    intros x. split.
    + intros Hx. destruct (Hr x Hx) as (r & Hroot & Hrx). by exists r.
    + intros (r & Hroot & Hrx). apply Hn.
      split; [|simpl; set_solver].
      assert (forall a b, rtc (feeds edges) a b -> a ∈ d_used d -> b ∈ d_used d) as Hclo.
      { intros a b Hab. induction Hab as [a|a y z Hf _ IH]; [auto|].
        intros Ha. apply IH. apply (Hc a y); [|exact Hf].
        apply Hn. split; [exact Ha | simpl; set_solver]. }
      apply (Hclo r x Hrx). by apply Hroots.
Qed.

(** ** Construction of the nodes *)

Lemma fold_result_inv {A S} (f : S -> A -> result S) (P : S -> list A -> Prop)
  (l : list A) (s0 s : S) :
  P s0 [] ->
  (forall st done a rest st',
     l = done ++ a :: rest -> P st done -> f st a = Ok st' -> P st' (done ++ [a])) ->
  fold_result f l s0 = Ok s -> P s l.
Proof.
  intros H0 Hstep.
  assert (forall l2 l1 st, l = l1 ++ l2 -> P st l1 ->
            fold_result f l2 st = Ok s -> P s l) as H.
  { induction l2 as [|a l2 IH]; intros l1 st Hl HP Hfold; simpl in Hfold.
    - injection Hfold as <-. rewrite app_nil_r in Hl. by subst l1.
    - inv_bind Hfold. rename a0 into st'.
      apply (IH (l1 ++ [a]) st'); [by rewrite <- app_assoc | | exact Hfold].
      eapply Hstep; eauto. }
  intros Hfold. apply (H l [] s0); auto.
Qed.

Lemma read_layers_outputs (root : option xml_node) (layers : layer_table) :
  read_layers root = Ok layers ->
  forall id, id ∈ lt_outputs layers <-> output_layer (layer_nodes_of root) id.
Proof.
  unfold read_layers. fold (layer_nodes_of root).
  apply (fold_result_inv read_layer
           (fun t done => forall id, id ∈ lt_outputs t <-> output_layer done id)).
  - intros id. simpl. split; [intros Hin; inversion Hin|].
    intros (node & p & Hin & _). inversion Hin.
  - intros t done node rest t' _ IH Hstep id.
    unfold read_layer in Hstep. inv_bind Hstep. rename a into p.
    destruct (bool_decide (name p ∈ lt_opName t) && negb (String.eqb (type p) "Result"));
      [discriminate|].
    injection Hstep as <-. simpl.
    assert (output_layer (done ++ [node]) id <->
            output_layer done id \/
            (layerId p = id /\ (type p = "Result" \/ type p = "Assign"))) as ->.
    { split.
      - intros (node' & p' & Hin & Hp & Hid & Hty).
        apply elem_of_app in Hin as [Hin|Hin].
        + left. by exists node', p'.
        + apply list_elem_of_singleton in Hin as ->. rewrite Ha in Hp.
          injection Hp as <-. by right.
      - intros [(node' & p' & Hin & Hp)|[Hid Hty]].
        + exists node', p'. split; [apply elem_of_app; by left | exact Hp].
        + exists node, p. split; [apply elem_of_app; right; left | auto]. }
    destruct (String.eqb_spec (type p) "Result") as [Hr|Hr];
      [|destruct (String.eqb_spec (type p) "Assign") as [Has|Has]]; simpl.
    + rewrite elem_of_app, list_elem_of_singleton, IH. split.
      * intros [?| ->]; auto.
      * intros [?|[<- _]]; auto.
    + rewrite elem_of_app, list_elem_of_singleton, IH. split.
      * intros [?| ->]; auto.
      * intros [?|[<- _]]; auto.
    + rewrite IH. split; [tauto|]. intros [?|[_ [?|?]]]; tauto.
Qed.

Section BuildFacts.

Context {Op : Type}.
Variable construct :
  Op -> gmap Z Node -> list (option Output) -> option xml_node -> Blob -> result Node.
Variable m_opsets : gmap string (OpSet Op).
Variable m_use_framework_node : bool.
Variable weights : Blob.

Lemma index_node_inv (st : build_state) (done : list Z) (id : Z) (node : Node) :
  build_inv st done -> id ∉ done -> build_inv (index_node st id node) (done ++ [id]).
Proof.
  intros (Hdom & Hall & Hsinks & Hparams & Hresults & Hvars & Hvars') Hnew.
  assert (id_to_node st !! id = None) as Hnone.
  { destruct (id_to_node st !! id) eqn:E; [|reflexivity].
    exfalso. apply Hnew, Hdom. eauto. }
  assert (forall (P : Node -> bool) (l : list Z),
            (forall s, s ∈ l <-> exists n, id_to_node st !! s = Some n /\ P n = true) ->
            forall s, s ∈ (if P node then l ++ [id] else l) <->
                      exists n, <[id := node]> (id_to_node st) !! s = Some n /\ P n = true)
    as Hclass.
  { intros P l Hl s. destruct (decide (s = id)) as [->|Hne].
    - rewrite lookup_insert_eq. destruct (P node) eqn:HP.
      + split; [eauto|]. intros _. apply elem_of_app. right. left.
      + rewrite Hl, Hnone. split; intros (n & Hn & Hpn); congruence.
    - rewrite lookup_insert_ne by congruence. rewrite <- Hl.
      destruct (P node); [|reflexivity].
      rewrite elem_of_app, list_elem_of_singleton. tauto. }
  unfold build_inv, index_node.
  destruct (n_is_parameter node) eqn:Hp; destruct (n_is_result node) eqn:Hr; simpl;
    (split; [|split; [by rewrite Hall|]]).
  all: try (intros x; rewrite elem_of_app, list_elem_of_singleton, <- Hdom;
            destruct (decide (x = id)) as [->|Hne];
            [rewrite lookup_insert_eq; split; eauto
            |rewrite lookup_insert_ne by congruence; tauto]).
  all: (split; [apply (Hclass n_is_sink _ Hsinks)|]).
  all: (split; [specialize (Hclass n_is_parameter _ Hparams); rewrite Hp in Hclass;
                exact Hclass|]).
  all: (split; [specialize (Hclass n_is_result _ Hresults); rewrite Hr in Hclass;
                exact Hclass|]).
  all: split.
  all: try (intros v rv Hv; destruct (n_read_value node) as [w|] eqn:Hw;
            [destruct (decide (w = v)) as [->|Hwv];
             [rewrite lookup_insert_eq in Hv; injection Hv as <-;
              rewrite lookup_insert_eq; eauto
             |rewrite lookup_insert_ne in Hv by congruence]|];
            (destruct (Hvars v rv Hv) as (n & Hn & Hnv); exists n; split; [|exact Hnv];
             rewrite lookup_insert_ne; [exact Hn | congruence])).
  all: intros x n v Hx Hn;
       (destruct (decide (x = id)) as [->|Hne];
        [rewrite lookup_insert_eq in Hx; injection Hx as <-; rewrite Hn;
         rewrite lookup_insert_eq; eauto
        |rewrite lookup_insert_ne in Hx by congruence;
         destruct (n_read_value node) as [w|];
         [destruct (decide (w = v)) as [->|Hwv];
          [rewrite lookup_insert_eq; eauto | rewrite lookup_insert_ne by congruence]|];
         eauto]).
Qed.

Lemma build_layer_indexes (params : gmap Z node_params) (edges : gmap Z (list edge))
  (st st' : build_state) (id : Z) :
  build_layer Op construct m_opsets m_use_framework_node weights params edges st id = Ok st' ->
  is_Some (edges !! id) ->
  exists node, st' = index_node st id node.
Proof.
  unfold build_layer. intros H [es Hes]. rewrite Hes in H.
  inv_bind H. inv_bind H. injection H as <-. eauto.
Qed.

Lemma build_nodes_inv (params : gmap Z node_params) (edges : gmap Z (list edge))
  (order : list Z) (io : IoMap) (st : build_state) :
  build_nodes Op construct m_opsets m_use_framework_node weights params edges order io = Ok st ->
  NoDup order -> (forall x, x ∈ order -> is_Some (edges !! x)) ->
  build_inv st order.
Proof.
  unfold build_nodes. intros H Hnd Hedges.
  apply (fold_result_inv _ build_inv) in H; [exact H| |].
  - unfold build_inv. simpl.
    repeat split; try (intros Hx; inversion Hx; fail);
      try (intros (n & Hn & _); rewrite lookup_empty in Hn; discriminate);
      try (intros [n Hn]; rewrite lookup_empty in Hn; discriminate).
    + intros v id Hv. rewrite lookup_empty in Hv. discriminate.
    + intros id n v Hn. rewrite lookup_empty in Hn. discriminate.
  - intros s done a rest s' Horder Hinv Hstep.
    assert (a ∈ order) as Ha by (rewrite Horder; apply elem_of_app; right; left).
    destruct (build_layer_indexes _ _ _ _ _ Hstep (Hedges a Ha)) as [node ->].
    apply index_node_inv; [exact Hinv|].
    rewrite Horder in Hnd. apply NoDup_app in Hnd as (_ & Hdisj & _).
    intros Hin. apply (Hdisj a Hin). left.
Qed.

End BuildFacts.

(** ** The post-pass over the sinks *)

Lemma patch_assign_Ok (vars : gmap string Z) (store store' : gmap Z Node) (sink : Z) :
  patch_assign vars store sink = Ok store' ->
  (forall id n, store !! id = Some n ->
     exists n', store' !! id = Some n' /\ n_assign n' = n_assign n /\
                forall x, x ∈ n_control_deps n -> x ∈ n_control_deps n') /\
  (forall id, is_Some (store' !! id) -> is_Some (store !! id)) /\
  (forall n v, store !! sink = Some n -> n_assign n = Some v ->
     exists rv n', vars !! v = Some rv /\ store' !! sink = Some n' /\
                   rv ∈ n_control_deps n').
Proof.
  unfold patch_assign. intros H.
  destruct (store !! sink) as [n|] eqn:Hs.
  - destruct (n_assign n) as [v|] eqn:Hv.
    + destruct (vars !! v) as [rv|] eqn:Hrv; [|discriminate].
      injection H as <-. split; [|split].
      * intros id m Hm. destruct (decide (id = sink)) as [Heq|Hne]; [subst id|].
        -- rewrite lookup_insert_eq. rewrite Hs in Hm. injection Hm as <-.
           eexists. split; [reflexivity|]. split; [reflexivity|].
           intros x Hx. simpl. apply elem_of_app. by left.
        -- rewrite lookup_insert_ne by congruence. eauto.
      * intros id. destruct (decide (id = sink)) as [Heq|Hne]; [subst id|].
        -- rewrite Hs. eauto.
        -- by rewrite lookup_insert_ne by congruence.
      * intros m w [= <-] Hw. rewrite Hv in Hw. injection Hw as <-.
        exists rv. eexists. split; [exact Hrv|]. rewrite lookup_insert_eq.
        split; [reflexivity|]. simpl. apply elem_of_app. right. left.
    + injection H as <-. split; [eauto|]. split; [auto|].
      intros m w Hm Hw. injection Hm as <-. congruence.
  - injection H as <-. split; [eauto|]. split; [auto|].
    intros m w Hm. congruence.
Qed.

Lemma patch_fold_Ok (vars : gmap string Z) (sinks : list Z) (store0 store : gmap Z Node) :
  fold_result (patch_assign vars) sinks store0 = Ok store ->
  (forall id n, store0 !! id = Some n ->
     exists n', store !! id = Some n' /\ n_assign n' = n_assign n /\
                forall x, x ∈ n_control_deps n -> x ∈ n_control_deps n') /\
  (forall id, is_Some (store !! id) -> is_Some (store0 !! id)) /\
  (forall sink n v, sink ∈ sinks -> store0 !! sink = Some n -> n_assign n = Some v ->
     exists rv n', vars !! v = Some rv /\ store !! sink = Some n' /\
                   rv ∈ n_control_deps n').
Proof.
  revert store0. induction sinks as [|s sinks IH]; intros store0 H; simpl in H.
  - injection H as <-. split; [eauto|]. split; [auto|].
    intros sink n v Hin. inversion Hin.
  - inv_bind H. rename a into store1.
    destruct (patch_assign_Ok _ _ _ _ Ha) as (Hkeep1 & Hdom1 & Hsink1).
    destruct (IH _ H) as (Hkeep & Hdom & Hsinks). clear IH.
    split; [|split].
    + intros id n Hn. destruct (Hkeep1 id n Hn) as (n1 & Hn1 & Ha1 & Hc1).
      destruct (Hkeep id n1 Hn1) as (n2 & Hn2 & Ha2 & Hc2).
      exists n2. split; [exact Hn2|]. split; [congruence | auto].
    + auto.
    + intros sink n v Hin Hn Hv. apply elem_of_cons in Hin as [->|Hin].
      * destruct (Hsink1 n v Hn Hv) as (rv & n1 & Hrv & Hn1 & Hdep).
        destruct (Hkeep s n1 Hn1) as (n2 & Hn2 & _ & Hc2). eauto 10.
      * destruct (Hkeep1 sink n Hn) as (n1 & Hn1 & Ha1 & _).
        apply (Hsinks sink n1 v Hin Hn1). congruence.
Qed.

Lemma patch_fold_Throw (vars : gmap string Z) (sinks : list Z) (store0 : gmap Z Node)
  (sink : Z) (n : Node) (v : string) :
  sink ∈ sinks -> store0 !! sink = Some n -> n_assign n = Some v -> vars !! v = None ->
  fold_result (patch_assign vars) sinks store0 = Throw (out_of_range "map::at").
Proof.
  revert store0 n. induction sinks as [|s sinks IH]; intros store0 n Hin Hn Hv Hnone.
  - inversion Hin.
  - simpl. destruct (patch_assign vars store0 s) as [store1|e] eqn:Hp.
    + simpl. destruct (patch_assign_Ok _ _ _ _ Hp) as (Hkeep1 & _ & Hsink1).
      apply elem_of_cons in Hin as [->|Hin].
      * destruct (Hsink1 n v Hn Hv) as (rv & _ & Hrv & _). congruence.
      * destruct (Hkeep1 sink n Hn) as (n1 & Hn1 & Ha1 & _).
        apply (IH store1 n1 Hin Hn1); congruence.
    + simpl. unfold patch_assign in Hp.
      destruct (store0 !! s) as [m|]; [|discriminate].
      destruct (n_assign m) as [w|]; [|discriminate].
      destruct (vars !! w); [discriminate|]. by injection Hp as <-.
Qed.

(** ** The converted function *)

Section ParseFunctionFacts.

Context {Op : Type}.
Variable construct :
  Op -> gmap Z Node -> list (option Output) -> option xml_node -> Blob -> result Node.
Variable m_opsets : gmap string (OpSet Op).
Variable m_use_framework_node : bool.
Variable weights : Blob.

Lemma gather_inputs_params_agree (params params' : gmap Z node_params) (store : gmap Z Node)
  (p : GenericLayerParams) (es : list edge) :
  (forall e, e ∈ es -> params_at params (fromLayerId e) = params_at params' (fromLayerId e)) ->
  gather_inputs params store p es = gather_inputs params' store p es.
Proof.
  intros H. unfold gather_inputs. apply fold_result_ext.
  intros e inputs He. unfold gather_step. rewrite (H e He). reflexivity.
Qed.

Lemma build_nodes_params_agree (params params' : gmap Z node_params)
  (edges : gmap Z (list edge)) (order : list Z) (io : IoMap) :
  (forall x, x ∈ order -> params_at params x = params_at params' x) ->
  (forall x e, x ∈ order -> e ∈ edges_at edges x ->
               params_at params (fromLayerId e) = params_at params' (fromLayerId e)) ->
  build_nodes Op construct m_opsets m_use_framework_node weights params edges order io =
  build_nodes Op construct m_opsets m_use_framework_node weights params' edges order io.
Proof.
  intros Hself Hsrc. unfold build_nodes. apply fold_result_ext.
  intros x st Hx. unfold build_layer. rewrite (Hself x Hx).
  destruct (edges !! x) as [es|] eqn:Hes; [|reflexivity].
  rewrite (gather_inputs_params_agree params params').
  - reflexivity.
  - intros e He. apply (Hsrc x e Hx). unfold edges_at. rewrite Hes. exact He.
Qed.

Lemma construct_function_nodes_Ok (root : option xml_node) (io : IoMap) (st : build_state) :
  construct_function_nodes Op construct m_opsets m_use_framework_node root weights io = Ok st ->
  exists layers edges d,
    read_layers root = Ok layers /\ read_edges root = Ok edges /\
    topological_order edges (lt_outputs layers) = Some d /\
    same_edges edges d /\
    (forall x, x ∈ d_order d <-> reachable edges (lt_outputs layers) x) /\
    build_nodes Op construct m_opsets m_use_framework_node weights (lt_params layers)
                (d_edges d) (d_order d) io = Ok st /\
    build_inv st (d_order d).
Proof.
  unfold construct_function_nodes. intros H.
  inv_bind H. rename a into layers. inv_bind H. rename a into edges.
  destruct (topological_order_total edges (lt_outputs layers))
    as (d & Hd & Hs & Hnd & Hreach & Hentries).
  rewrite Hd in H.
  exists layers, edges, d. repeat split; auto; try apply Hreach.
  all: try (apply (build_nodes_inv _ _ _ _ _ _ _ _ _ H Hnd Hentries)).
Qed.

(** C2.  Once the nodes are built: if the function is made, every sink that
    is an Assign has received, as a control dependency, the ReadValue node
    recorded under its variable id, a node built in this conversion; and if
    some sink is an Assign whose variable id belongs to no ReadValue node
    built in this conversion, making the function throws and the conversion
    returns no function. *)
Theorem assign_control_depends_on_read_value (root : option xml_node) (io : IoMap)
  (st : build_state) :
  construct_function_nodes Op construct m_opsets m_use_framework_node root weights io = Ok st ->
  (forall f, make_function root st = Ok f ->
     forall sink n v,
       id_to_node st !! sink = Some n -> n_is_sink n = true -> n_assign n = Some v ->
       exists rv nrv n',
         variable_id_to_read_value st !! v = Some rv /\
         id_to_node st !! rv = Some nrv /\ n_read_value nrv = Some v /\
         sink ∈ f_sinks f /\ f_nodes f !! sink = Some n' /\ rv ∈ n_control_deps n') /\
  (forall sink n v,
     id_to_node st !! sink = Some n -> n_is_sink n = true -> n_assign n = Some v ->
     (forall id m, id_to_node st !! id = Some m -> n_read_value m <> Some v) ->
     make_function root st = Throw (out_of_range "map::at") /\
     parse_function Op construct m_opsets m_use_framework_node root weights io
       = Throw (out_of_range "map::at")).
Proof.
  intros H.
  destruct (construct_function_nodes_Ok _ _ _ H)
    as (layers & edges & d & _ & _ & _ & _ & _ & _ & Hinv).
  destruct Hinv as (_ & _ & Hsinks & _ & _ & Hvars & Hvars').
  split.
  - intros f Hf sink n v Hn Hsink Hv.
    unfold make_function in Hf. inv_bind Hf. rename a into store.
    injection Hf as <-. simpl.
    destruct (patch_fold_Ok _ _ _ _ Ha) as (_ & _ & Hpatched).
    assert (sink ∈ fn_sinks (func_nodes st)) as Hin by (apply Hsinks; eauto).
    destruct (Hpatched sink n v Hin Hn Hv) as (rv & n' & Hrv & Hn' & Hdep).
    destruct (Hvars v rv Hrv) as (nrv & Hnrv & Hread).
    exists rv, nrv, n'. auto 10.
  - intros sink n v Hn Hsink Hv Hnone.
    assert (sink ∈ fn_sinks (func_nodes st)) as Hin by (apply Hsinks; eauto).
    assert (variable_id_to_read_value st !! v = None) as Hvar.
    { destruct (variable_id_to_read_value st !! v) as [rv|] eqn:E; [|reflexivity].
      destruct (Hvars v rv E) as (nrv & Hnrv & Hread). destruct (Hnone rv nrv Hnrv Hread). }
    assert (make_function root st = Throw (out_of_range "map::at")) as Hmake.
    { unfold make_function. rewrite (patch_fold_Throw _ _ _ sink n v Hin Hn Hv Hvar).
      reflexivity. }
    split; [exact Hmake|].
    unfold parse_function. rewrite H. simpl. rewrite Hmake. reflexivity.
Qed.

End ParseFunctionFacts.


(** S7: the Assign of layer 9 control-depends on the ReadValue of layer 3;
    without the ReadValue the conversion throws. *)
Lemma assign_control_depends_on_read_value_witness :
  (exists st f n',
     sample_build net_with_state = Ok st /\
     make_function (Some net_with_state) st = Ok f /\
     f_nodes f !! 9 = Some n' /\ 3 ∈ n_control_deps n') /\
  sample_parse net_assign_only = Throw (out_of_range "map::at").
Proof.
  split.
  - pose (r := sample_build net_with_state).
    assert (sample_build net_with_state = r) as E by reflexivity.
    vm_compute in r.
    match goal with r := Ok ?s |- _ => set (st := s) in * end. subst r.
    pose (rf := make_function (Some net_with_state) st).
    assert (make_function (Some net_with_state) st = rf) as Ef by reflexivity.
    vm_compute in rf.
    match goal with rf := Ok ?s |- _ => set (f := s) in * end. subst rf.
    destruct (assign_control_depends_on_read_value _ _ _ _ _ _ _ E) as [H _].
    destruct (id_to_node st !! 9) as [n|] eqn:Hn; [|vm_compute in Hn; discriminate].
    destruct (H f Ef 9 n "v" Hn) as (rv & nrv & n' & Hrv & _ & _ & _ & Hn' & Hdep).
    + vm_compute in Hn. injection Hn as <-. reflexivity.
    + vm_compute in Hn. injection Hn as <-. reflexivity.
    + exists st, f, n'. split; [exact E|]. split; [exact Ef|]. split; [exact Hn'|].
      vm_compute in Hrv. injection Hrv as <-. exact Hdep.
  - pose (r := sample_build net_assign_only).
    assert (sample_build net_assign_only = r) as E by reflexivity.
    vm_compute in r.
    match goal with r := Ok ?s |- _ => set (st := s) in * end. subst r.
    destruct (assign_control_depends_on_read_value _ _ _ _ _ _ _ E) as [_ H].
    destruct (id_to_node st !! 9) as [n|] eqn:Hn; [|vm_compute in Hn; discriminate].
    destruct (H 9 n "v" Hn) as [_ Hparse]; [| | |exact Hparse].
    + vm_compute in Hn. injection Hn as <-. reflexivity.
    + vm_compute in Hn. injection Hn as <-. reflexivity.
    + apply map_Forall_to_list. vm_compute.
      repeat (constructor; [discriminate|]). constructor.
Defined.

(** * Further properties of the two units *)

(** ** The device probe: derived fields *)

Lemma prefix_app_l (p q s : string) :
  String.prefix (p +:+ q) s = true -> String.prefix p s = true.
Proof.
  revert s. induction p as [|c p IH]; intros s H; simpl; [by destruct s|].
  destruct s as [|d s]; simpl in *; [discriminate|].
  destruct (ascii_dec c d); [eauto | discriminate].
Qed.

Lemma contains_app_l (s p q : string) :
  contains s (p +:+ q) = true -> contains s p = true.
Proof.
  induction s as [|c s IH]; cbn [contains]; intros H.
  - apply orb_true_iff in H as [H|H]; [|discriminate].
    apply prefix_app_l in H. by rewrite H.
  - apply orb_true_iff in H as [H|H].
    + apply prefix_app_l in H. by rewrite H.
    + rewrite (IH H). apply orb_true_r.
Qed.

(** X1.  [parse_version] splits a 32-bit version word into fields that fit
    their types and lose nothing: the word is major * 2^16 + minor * 2^8 +
    revision. *)
Theorem parse_version_fields (ver : Z) :
  0 <= ver < 2 ^ 32 ->
  0 <= OCL.major (OCL.parse_version ver) < 2 ^ 16 /\
  0 <= OCL.minor (OCL.parse_version ver) < 2 ^ 8 /\
  0 <= OCL.revision (OCL.parse_version ver) < 2 ^ 8 /\
  OCL.major (OCL.parse_version ver) * 2 ^ 16 + OCL.minor (OCL.parse_version ver) * 2 ^ 8
    + OCL.revision (OCL.parse_version ver) = ver.
Proof.
  intros Hver. unfold OCL.parse_version. simpl.
  change 255 with (Z.ones 8). rewrite !Z.land_ones by lia.
  rewrite !Z.shiftr_div_pow2 by lia.
  change (2 ^ 16) with 65536. change (2 ^ 8) with 256. change (2 ^ 32) with 4294967296 in Hver.
  Z.div_mod_to_equations. lia.
Qed.

Lemma parse_version_fields_witness :
  OCL.parse_version 0x000C0302 = OCL.mkGfx 12 3 2 /\
  12 * 2 ^ 16 + 3 * 2 ^ 8 + 2 = 0x000C0302.
Proof.
  split; [reflexivity|].
  destruct (parse_version_fields 0x000C0302) as (_ & _ & _ & H); [lia|].
  exact H.
Defined.

Lemma filter_last_app (l : list Z) (x : Z) (P : Z -> bool) :
  List.filter P (l ++ [x]) = List.filter P l ++ (if P x then [x] else []).
Proof. rewrite List.filter_app. reflexivity. Qed.

(** X2.  [driver_dev_id] never returns one of the reserved ids; it returns
    the last id of the enumeration that is not reserved, and 0 when there is
    none: a reserved id at the end of the enumeration is passed over, any
    other id at the end is the result. *)
Theorem driver_dev_id_last_unreserved (found : list Z) (x : Z) :
  OCL.Z_in (OCL.driver_dev_id found) OCL.unused_ids = false /\
  (OCL.driver_dev_id found <> 0 -> In (OCL.driver_dev_id found) found) /\
  (OCL.Z_in x OCL.unused_ids = true ->
   OCL.driver_dev_id (found ++ [x]) = OCL.driver_dev_id found) /\
  (OCL.Z_in x OCL.unused_ids = false -> OCL.driver_dev_id (found ++ [x]) = x) /\
  ((forall id, In id found -> OCL.Z_in id OCL.unused_ids = true) ->
   OCL.driver_dev_id found = 0).
Proof.
  unfold OCL.driver_dev_id.
  set (keep := fun id => negb (OCL.Z_in id OCL.unused_ids)).
  assert (forall (l : list Z) d, l <> [] -> In (List.last l d) l) as Hlast.
  { induction l as [|a l IH]; intros d Hl; [contradiction|].
    destruct l as [|b l]; [left; reflexivity|].
    right. apply (IH d). discriminate. }
  assert (forall l : list Z, match l with [] => 0 | _ :: _ => List.last l 0 end
                             = List.last l 0) as Hm by (intros [|? ?]; reflexivity).
  rewrite !Hm.
  split; [|split; [|split; [|split]]].
  - destruct (List.filter keep found) as [|a l] eqn:E; [reflexivity|].
    assert (In (List.last (a :: l) 0) (List.filter keep found)) as Hin
      by (rewrite E; apply Hlast; discriminate).
    apply filter_In in Hin as [_ Hk]. unfold keep in Hk.
    by apply negb_true_iff in Hk.
  - intros Hnz. destruct (List.filter keep found) as [|a l] eqn:E; [contradiction|].
    assert (In (List.last (a :: l) 0) (List.filter keep found)) as Hin
      by (rewrite E; apply Hlast; discriminate).
    by apply filter_In in Hin as [Hin _].
  - intros Hx. rewrite filter_last_app. unfold keep at 2. rewrite Hx. simpl.
    by rewrite app_nil_r.
  - intros Hx. rewrite filter_last_app. unfold keep at 2. rewrite Hx. simpl.
    apply last_last.
  - intros Hall. replace (List.filter keep found) with (@nil Z); [reflexivity|].
    symmetry. induction found as [|a l IH]; [reflexivity|]. simpl.
    unfold keep at 1. rewrite (Hall a) by (left; reflexivity). simpl.
    apply IH. intros id Hid. apply Hall. by right.
Qed.

Lemma driver_dev_id_last_unreserved_witness :
  OCL.driver_dev_id ([0x9A49; 0x3E92] ++ [0x4905]) = 0x3E92 /\
  OCL.driver_dev_id ([0x9A49] ++ [0x3E92]) = 0x3E92 /\
  OCL.driver_dev_id [0x4905; 0x4908] = 0.
Proof.
  split; [|split].
  - destruct (driver_dev_id_last_unreserved [0x9A49; 0x3E92] 0x4905) as (_ & _ & H & _).
    rewrite H; reflexivity.
  - destruct (driver_dev_id_last_unreserved [0x9A49] 0x3E92) as (_ & _ & _ & H & _).
    apply H. reflexivity.
  - destruct (driver_dev_id_last_unreserved [0x4905; 0x4908] 0) as (_ & _ & _ & _ & H).
    apply H. intros id [<-|[<-|[]]]; reflexivity.
Defined.

Lemma land_pow2_testbit (x k : Z) :
  0 <= k -> negb (Z.land x (2 ^ k) =? 0) = Z.testbit x k.
Proof.
  intros Hk. destruct (Z.testbit x k) eqn:E.
  - apply negb_true_iff, Z.eqb_neq. intros H0.
    assert (Z.testbit (Z.land x (2 ^ k)) k = true) as Ht.
    { rewrite Z.land_spec, E, Z.pow2_bits_true by lia. reflexivity. }
    rewrite H0, Z.bits_0 in Ht. discriminate.
  - apply negb_false_iff, Z.eqb_eq. apply Z.bits_inj'. intros n Hn.
    rewrite Z.land_spec, Z.bits_0.
    destruct (Z.eq_dec n k) as [->|Hne]; [by rewrite E|].
    rewrite Z.pow2_bits_false by lia. apply andb_false_r.
Qed.

(** X3.  Integer dot-product support.  [get_imad_support] holds exactly for
    a device whose name contains "Gen12" or "Xe", for a discrete device, and
    for an integrated device whose driver id is in the list of ids (the test
    of the id against 0 changes nothing).  In the device information, IMAD is
    that or, with the attribute-query extension, the DP4A feature bit; IMMAD
    is the DPAS feature bit and needs the attribute-query extension. *)
Theorem imad_and_immad_support (found : list Z) (device : OCL.Device) :
  let info := OCL.init_device_info found device in
  let attr_query :=
    contains (OCL.CL_DEVICE_EXTENSIONS device +:+ " ") "cl_intel_device_attribute_query" in
  let features := OCL.CL_DEVICE_FEATURE_CAPABILITIES_INTEL device in
  (OCL.get_imad_support found device = true <->
     contains (OCL.CL_DEVICE_NAME device) "Gen12" = true \/
     contains (OCL.CL_DEVICE_NAME device) "Xe" = true \/
     OCL.CL_DEVICE_HOST_UNIFIED_MEMORY device = false \/
     OCL.Z_in (OCL.driver_dev_id found) OCL.imad_ids = true) /\
  (OCL.supports_imad info = true <->
     OCL.get_imad_support found device = true \/
     (attr_query = true /\ Z.testbit features 0 = true)) /\
  (OCL.supports_immad info = true <->
     attr_query = true /\ Z.testbit features 1 = true).
Proof.
  intros info attr_query features.
  assert (forall x, negb (Z.land x 1 =? 0) = Z.testbit x 0) as Hbit0
    by (intros x; apply (land_pow2_testbit x 0); lia).
  assert (forall x, negb (Z.land x 2 =? 0) = Z.testbit x 1) as Hbit1
    by (intros x; apply (land_pow2_testbit x 1); lia).
  split; [|split].
  - unfold OCL.get_imad_support, OCL.get_device_type.
    destruct (contains (OCL.CL_DEVICE_NAME device) "Gen12"); cbn [orb]; [tauto|].
    destruct (contains (OCL.CL_DEVICE_NAME device) "Xe"); cbn [orb]; [tauto|].
    destruct (OCL.CL_DEVICE_HOST_UNIFIED_MEMORY device); [|tauto].
    destruct (Z.eqb_spec (OCL.driver_dev_id found) 0) as [E|E].
    + rewrite E. change (OCL.Z_in 0 OCL.imad_ids) with false.
      intuition discriminate.
    + destruct (OCL.Z_in (OCL.driver_dev_id found) OCL.imad_ids);
        intuition discriminate.
  - unfold info, OCL.init_device_info. simpl. fold attr_query. fold features.
    unfold OCL.CL_DEVICE_FEATURE_FLAG_DP4A_INTEL. rewrite Hbit0.
    destruct attr_query; [rewrite orb_true_iff|]; intuition discriminate.
  - unfold info, OCL.init_device_info. simpl. fold attr_query. fold features.
    unfold OCL.CL_DEVICE_FEATURE_FLAG_DPAS_INTEL. rewrite Hbit1.
    destruct attr_query; simpl; intuition discriminate.
Qed.

(** X4.  What the extension tests entail.  The three sub-group extensions are
    looked for as substrings without a closing space, so a device that lists
    cl_intel_subgroups_short or cl_intel_subgroups_char is reported with
    sub-group support; half-precision denormals are never reported without
    half precision; local block io is never reported when the probe kernel
    does not return the expected bytes. *)
Theorem extension_flags_entail (found : list Z) (device : OCL.Device) :
  let info := OCL.init_device_info found device in
  (OCL.supports_subgroups_short info = true -> OCL.supports_subgroups info = true) /\
  (OCL.supports_subgroups_char info = true -> OCL.supports_subgroups info = true) /\
  (OCL.supports_fp16_denorms info = true -> OCL.supports_fp16 info = true) /\
  (OCL.supports_local_block_io info = true ->
     OCL.run_probe_kernel device = OCL.kernel_output OCL.expected).
Proof.
  intros info. unfold info, OCL.init_device_info. simpl.
  split; [|split; [|split]].
  - apply (contains_app_l _ "cl_intel_subgroups" "_short").
  - apply (contains_app_l _ "cl_intel_subgroups" "_char").
  - intros H. by apply andb_true_iff in H as [H _].
  - intros H. apply andb_true_iff in H as [_ H].
    unfold OCL.is_local_block_io_supported in H.
    destruct (OCL.run_probe_kernel device) as [| |bytes]; try discriminate.
    apply bool_decide_eq_true in H. by subst bytes.
Qed.

Lemma extension_flags_entail_witness :
  OCL.supports_subgroups
    (OCL.init_device_info [] (sample_device "cl_intel_subgroups_short" (fun _ => (0, 0))
                                            OCL.cl_error)) = true.
Proof.
  destruct (extension_flags_entail [] (sample_device "cl_intel_subgroups_short"
                                         (fun _ => (0, 0)) OCL.cl_error)) as (H & _).
  apply H. reflexivity.
Defined.

(** ** Comma-separated attributes *)

Lemma str_app_cons (c : ascii) (s t : string) : String c s +:+ t = String c (s +:+ t).
Proof. reflexivity. Qed.

Lemma str_app_nil_r (s : string) : s +:+ "" = s.
Proof.
  induction s as [|c s IH]; [reflexivity|]. by rewrite str_app_cons, IH.
Qed.

Lemma str_app_assoc (a b c : string) : (a +:+ b) +:+ c = a +:+ (b +:+ c).
Proof.
  induction a as [|x a IH]; [reflexivity|]. by rewrite !str_app_cons, IH.
Qed.

Lemma contains_comma_cons (d : ascii) (s : string) :
  contains (String d s) "," = Ascii.eqb d "," || contains s ",".
Proof.
  cbn [contains String.prefix].
  destruct (ascii_dec "," d) as [<-|Hne].
  - by destruct s.
  - destruct (Ascii.eqb_spec d ",") as [->|_]; [contradiction|]. reflexivity.
Qed.

Lemma contains_comma_snoc (s : string) (c : ascii) :
  contains s "," = false -> Ascii.eqb c "," = false ->
  contains (s +:+ String c "") "," = false.
Proof.
  induction s as [|d s IH]; intros Hs Hc.
  - change ("" +:+ String c "") with (String c ""). rewrite contains_comma_cons, Hc.
    reflexivity.
  - change (String d s +:+ String c "") with (String d (s +:+ String c "")).
    rewrite contains_comma_cons in *. apply orb_false_iff in Hs as [Hd Hs].
    rewrite Hd, IH; auto.
Qed.

Lemma getline_aux_not_nil (s cur : string) : getline_fields_aux s cur <> [].
Proof.
  revert cur. induction s as [|c s IH]; intros cur; simpl; [discriminate|].
  destruct (Ascii.eqb c ","); [destruct s; discriminate | apply IH].
Qed.

Lemma getline_aux_concat (s cur : string) :
  String.concat "," (getline_fields_aux s cur) = cur +:+ strip_trailing_comma s.
Proof.
  revert cur. induction s as [|c s IH]; intros cur.
  - simpl. by rewrite str_app_nil_r.
  - cbn [getline_fields_aux strip_trailing_comma].
    destruct (Ascii.eqb_spec c ",") as [->|Hc].
    + destruct s as [|d s]; [simpl; by rewrite str_app_nil_r|].
      pose proof (getline_aux_not_nil (String d s) "") as Hne.
      specialize (IH ""). 
      destruct (getline_fields_aux (String d s) "") as [|f fs] eqn:E; [contradiction|].
      change (String.concat "," (cur :: f :: fs))
        with (cur +:+ "," +:+ String.concat "," (f :: fs)).
      rewrite IH. reflexivity.
    + rewrite IH, str_app_assoc. destruct s; reflexivity.
Qed.

Lemma getline_aux_no_comma (s cur : string) :
  contains cur "," = false ->
  Forall (fun f => contains f "," = false) (getline_fields_aux s cur).
Proof.
  revert cur. induction s as [|c s IH]; intros cur Hcur; simpl.
  - by constructor.
  - destruct (Ascii.eqb c ",") eqn:Hc.
    + destruct s; constructor; auto.
    + apply IH. by apply contains_comma_snoc.
Qed.

(** X5.  The fields [std::getline] cuts an attribute value into hold no comma,
    and joined with commas they give the value back, less one closing
    comma: nothing else of the value is lost or added. *)
Theorem getline_fields_rejoin (s : string) :
  String.concat "," (getline_fields s) = strip_trailing_comma s /\
  Forall (fun f => contains f "," = false) (getline_fields s).
Proof.
  destruct s as [|c s]; [split; [reflexivity | constructor]|].
  unfold getline_fields. split.
  - apply getline_aux_concat.
  - by apply getline_aux_no_comma.
Qed.

Lemma getline_aux_empty_field (s cur : string) :
  In "" (getline_fields_aux s cur) <->
  (cur = "" /\ (s = "" \/ String.prefix "," s = true)) \/ contains s ",," = true.
Proof.
  revert cur. induction s as [|c s IH]; intros cur.
  - simpl. intuition (try discriminate; auto).
  - cbn [getline_fields_aux].
    assert (contains (String c s) ",," =
            (Ascii.eqb c "," && String.prefix "," s) || contains s ",,") as Hcont.
    { cbn [contains String.prefix]. destruct (ascii_dec "," c) as [<-|Hne]; [reflexivity|].
      destruct (Ascii.eqb_spec c ",") as [->|_]; [contradiction | reflexivity]. }
    assert (String.prefix "," (String c s) = Ascii.eqb c ",") as Hpre.
    { cbn [String.prefix]. destruct (ascii_dec "," c) as [<-|Hne]; [by destruct s|].
      destruct (Ascii.eqb_spec c ",") as [->|_]; [contradiction | reflexivity]. }
    rewrite Hcont, Hpre.
    destruct (Ascii.eqb c ",") eqn:Hc; cbn [andb orb].
    + destruct s as [|d s].
      * simpl. intuition (try discriminate; auto).
      * change (In "" (cur :: getline_fields_aux (String d s) ""))
          with (cur = "" \/ In "" (getline_fields_aux (String d s) "")).
        rewrite (IH ""), orb_true_iff.
        intuition (try discriminate; auto).
    + rewrite IH.
      assert (cur +:+ String c "" <> "") as Hne by (destruct cur; discriminate).
      intuition (try discriminate; auto).
Qed.

Lemma getParameters_fields_all {T} (extract : string -> T) (fields : list string) :
  ~ In "" fields ->
  getParameters_fields (fun f => Ok (extract f)) fields = Ok (extract <$> fields).
Proof.
  induction fields as [|f fs IH]; intros Hno; [reflexivity|]. simpl.
  destruct (String.eqb_spec f "") as [->|Hf]; [exfalso; apply Hno; by left|].
  rewrite IH; [reflexivity|]. intros Hin. apply Hno. by right.
Qed.

Lemma getParameters_fields_Ok {T} (extract : string -> result T) (fields : list string)
  (vs : list T) :
  getParameters_fields extract fields = Ok vs <->
  ~ In "" fields /\ Forall2 (fun f v => extract f = Ok v) fields vs.
Proof.
  revert vs. induction fields as [|f fs IH]; intros vs; simpl.
  - split.
    + intros [= <-]. split; [tauto | constructor].
    + intros [_ H]. by inversion H.
  - destruct (String.eqb_spec f "") as [->|Hf].
    + split; [discriminate|]. intros [Hno _]. exfalso. apply Hno. by left.
    + destruct (extract f) as [v|e] eqn:Hv; simpl.
      * destruct (getParameters_fields extract fs) as [ws|e]; simpl.
        -- split.
           ++ intros [= <-]. destruct (proj1 (IH ws) eq_refl) as [Hno Hall].
              split; [intros [?|?]; [congruence | contradiction] | by constructor].
           ++ intros [Hno Hall]. inversion Hall as [|? v' ? ws' Hv' Hall']; subst.
              rewrite Hv in Hv'. injection Hv' as <-. f_equal. f_equal.
              assert (Ok ws = Ok ws') as Heq; [|by injection Heq].
              apply IH. split; [intros Hin; apply Hno; by right | exact Hall'].
        -- split; [discriminate|].
           intros [Hno Hall]. inversion Hall as [|? v' ? ws' Hv' Hall']; subst.
           assert (Throw e = Ok ws') as Heq; [|discriminate].
           apply IH. split; [intros Hin; apply Hno; by right | exact Hall'].
      * split; [discriminate|].
        intros [_ Hall]. inversion Hall; congruence.
Qed.

Lemma getParameters_fields_first_bad {T} (extract : string -> result T)
  (pre : list string) (f : string) (post : list string) :
  (forall g, In g pre -> g <> "" /\ is_Ok (extract g)) ->
  (f = "" -> getParameters_fields extract (pre ++ f :: post)
             = Throw (IE_exception "Cannot get vector of parameters!")) /\
  (forall e, f <> "" -> extract f = Throw e ->
             getParameters_fields extract (pre ++ f :: post) = Throw e).
Proof.
  induction pre as [|g pre IH]; intros Hpre; simpl.
  - split.
    + by intros ->.
    + intros e Hf He. destruct (String.eqb_spec f "") as [|_]; [contradiction|].
      by rewrite He.
  - destruct (Hpre g (or_introl eq_refl)) as [Hg [v Hv]].
    destruct (String.eqb_spec g "") as [|_]; [contradiction|]. rewrite Hv. simpl.
    destruct IH as [IH1 IH2]; [intros h Hh; apply Hpre; by right|].
    split.
    + intros Hf. by rewrite (IH1 Hf).
    + intros e Hf He. by rewrite (IH2 e Hf He).
Qed.

Lemma first_empty_field (l : list string) :
  In "" l -> exists pre post, l = pre ++ "" :: post /\ ~ In "" pre.
Proof.
  induction l as [|g gs IH]; intros Hin; [destruct Hin|].
  destruct (String.eqb_spec g "") as [->|Hg].
  - exists [], gs. split; [reflexivity | tauto].
  - destruct Hin as [?|Hin]; [congruence|].
    destruct (IH Hin) as (pre & post & -> & Hno).
    exists (g :: pre), post. split; [reflexivity|].
    intros [?|?]; [congruence | contradiction].
Qed.

(** X6.  [getParameters] on an attribute that is present.  A field is empty
    exactly when the value starts with a comma or holds two commas in a row;
    a closing comma opens no field and an empty value has none.  The vector
    is returned exactly when no field is empty and every extraction returns,
    and it holds what the extractions stored, in order.  Otherwise the first
    field that is empty or whose extraction throws decides: an empty field
    throws "Cannot get vector of parameters!", an extraction its own
    exception.  For [std::string], whose extraction always returns, the call
    throws exactly when a field is empty. *)
Theorem getParameters_first_bad_field {T} (extract : string -> result T)
    (node : option xml_node) (name value : string) :
  getStrAttribute node name = Some value ->
  let fields := getline_fields value in
  (In "" fields <-> String.prefix "," value = true \/ contains value ",," = true) /\
  (forall vs, getParameters extract node name = Ok (Some vs) <->
              ~ In "" fields /\ Forall2 (fun f v => extract f = Ok v) fields vs) /\
  (forall pre f post,
     fields = pre ++ f :: post ->
     (forall g, In g pre -> g <> "" /\ is_Ok (extract g)) ->
     (f = "" -> getParameters extract node name
                = Throw (IE_exception "Cannot get vector of parameters!")) /\
     (forall e, f <> "" -> extract f = Throw e ->
                getParameters extract node name = Throw e)) /\
  (In "" fields ->
   getParameters_string node name
   = Throw (IE_exception "Cannot get vector of parameters!")) /\
  (~ In "" fields ->
   getParameters_string node name = Ok (Some (extract_string <$> fields))).
Proof.
  intros Hattr fields. unfold getParameters_string, getParameters. rewrite Hattr.
  fold fields.
  split; [|split; [|split; [|split]]].
  - unfold fields. destruct value as [|c v]; [simpl; intuition discriminate|].
    unfold getline_fields. rewrite getline_aux_empty_field.
    intuition (try discriminate; auto).
  - intros vs. rewrite <- getParameters_fields_Ok.
    destruct (getParameters_fields extract fields); simpl; split; congruence.
  - intros pre f post Hfields Hpre. rewrite Hfields.
    destruct (getParameters_fields_first_bad extract pre f post Hpre) as [H1 H2].
    split.
    + intros Hf. by rewrite (H1 Hf).
    + intros e Hf He. by rewrite (H2 e Hf He).
  - intros Hin. destruct (first_empty_field fields Hin) as (pre' & post' & Hfirst & Hpre').
    rewrite Hfirst.
    destruct (getParameters_fields_first_bad stored_string pre' "" post') as [H1 _].
    + intros g Hg. split; [intros ->; contradiction | by eexists].
    + by rewrite (H1 eq_refl).
  - intros Hno. unfold stored_string. by rewrite getParameters_fields_all.
Qed.

Lemma getParameters_first_bad_field_witness :
  getParameters_int64 (Some (names_attr "1,,2")) "names"
  = Throw (IE_exception "Cannot get vector of parameters!") /\
  getParameters_int64 (Some (names_attr "1,x,3,")) "names" = Ok (Some [1; 0; 3]) /\
  getParameters_element_type (Some (names_attr "f32, i64 ,half")) "names"
  = Throw (IE_exception "Incorrect precision") /\
  getParameters_string (Some (names_attr "")) "names" = Ok (Some []).
Proof.
  split; [|split; [|split]].
  - destruct (getParameters_first_bad_field stored_int64
                (Some (names_attr "1,,2")) "names" "1,,2" eq_refl) as (_ & _ & H & _).
    destruct (H ["1"] "" ["2"] eq_refl) as [H1 _].
    + intros g [<-|[]]. split; [discriminate | by eexists].
    + exact (H1 eq_refl).
  - apply (getParameters_first_bad_field stored_int64
             (Some (names_attr "1,x,3,")) "names" "1,x,3," eq_refl).
    split; [simpl; intuition discriminate|].
    repeat constructor.
  - destruct (getParameters_first_bad_field stored_element_type
                (Some (names_attr "f32, i64 ,half")) "names" "f32, i64 ,half" eq_refl)
      as (_ & _ & H & _).
    destruct (H ["f32"; " i64 "] "half" [] eq_refl) as [_ H2].
    + intros g [<-|[<-|[]]]; (split; [discriminate | by eexists]).
    + apply H2; [discriminate | reflexivity].
  - apply (getParameters_first_bad_field stored_string
             (Some (names_attr "")) "names" "" eq_refl).
    simpl. tauto.
Defined.

Lemma substring_zero_length (n : nat) (s : string) : String.substring n 0 s = "".
Proof.
  revert n. induction s as [|c s IH]; intros [|n]; simpl; auto.
Qed.

Lemma string_last_nonempty (s : string) : s <> "" -> is_Some (string_last s).
Proof.
  intros Hs. unfold string_last.
  destruct (String.length s) as [|n] eqn:E; [destruct s; [contradiction | discriminate]|].
  assert (n < String.length s)%nat as Hlt by lia. clear E Hs.
  revert n Hlt. induction s as [|c s IH]; intros n Hlt; simpl in *; [lia|].
  destruct n as [|n]; [eauto|]. apply IH. lia.
Qed.

Lemma joined_names_plain (t : string) (rest : list string) :
  ends_with_backslash t = false -> joined_names (t :: rest) = t :: joined_names rest.
Proof.
  intros Ht. unfold ends_with_backslash in Ht. cbn [joined_names].
  destruct (string_last t) as [c|]; [|reflexivity].
  rewrite Ht. by destruct (joined_names rest).
Qed.

Lemma restore_names_plain (name cur : string) (rest : list string) :
  cur <> "" -> ends_with_backslash cur = false ->
  restore_names name cur rest
  = match rest with
    | [] => Ok [name]
    | next :: rest' => tl ← restore_names next next rest'; Ok (name :: tl)
    end.
Proof.
  intros Hne Hend. unfold ends_with_backslash in Hend.
  destruct (string_last_nonempty cur Hne) as [c Hc]. rewrite Hc in Hend.
  destruct rest; simpl; by rewrite Hc, Hend.
Qed.

Lemma restore_names_escaped (cur next : string) (rest : list string) :
  ends_with_backslash cur = true ->
  restore_names cur cur (next :: rest)
  = restore_names (drop_last cur +:+ "," +:+ next) next rest.
Proof.
  intros Hend. unfold ends_with_backslash in Hend.
  destruct (string_last cur) as [c|] eqn:Hc; [|discriminate].
  assert (String.length cur <> 0)%nat as Hlen.
  { unfold string_last in Hc. destruct (String.length cur); [discriminate | lia]. }
  cbn [restore_names]. rewrite Hc, Hend. unfold string_replace1.
  destruct (Nat.ltb_spec (String.length cur) (String.length cur - 1)) as [Hlt|_]; [lia|].
  replace (String.length cur - (String.length cur - 1 + 1))%nat with 0%nat by lia.
  rewrite substring_zero_length, str_app_nil_r.
  unfold mbind, result_bind. cbv beta iota. fold (drop_last cur).
  by rewrite str_app_assoc.
Qed.

Lemma restore_names_single (rest : list string) :
  forall t,
    (single_escapes false (t :: rest) = true ->
     restore_names t t rest = Ok (joined_names (t :: rest))) /\
    (single_escapes true (t :: rest) = true ->
     joined_names (t :: rest) = t :: joined_names rest /\
     forall name, restore_names name t rest = Ok (name :: joined_names rest)).
Proof.
  induction rest as [|m rest IH]; intros t.
  - split; cbn [single_escapes]; intros H.
    + apply andb_true_iff in H as [Hne H]. apply negb_true_iff, String.eqb_neq in Hne.
      destruct (ends_with_backslash t) eqn:E; [discriminate|].
      rewrite restore_names_plain, joined_names_plain by done. reflexivity.
    + apply andb_true_iff in H as [Hne H]. apply negb_true_iff, String.eqb_neq in Hne.
      destruct (ends_with_backslash t) eqn:E; [discriminate|].
      split; [by apply joined_names_plain|]. intros name.
      by rewrite restore_names_plain.
  - destruct (IH m) as [IHa IHb]. split; intros H.
    + change (single_escapes false (t :: m :: rest))
        with (negb (String.eqb t "") &&
              (if ends_with_backslash t then negb false && single_escapes true (m :: rest)
               else single_escapes false (m :: rest))) in H.
      apply andb_true_iff in H as [Hne H]. apply negb_true_iff, String.eqb_neq in Hne.
      destruct (ends_with_backslash t) eqn:E.
      * cbn [negb andb] in H. destruct (IHb H) as [Hj Hr].
        rewrite restore_names_escaped, Hr by done.
        unfold ends_with_backslash in E.
        change (joined_names (t :: m :: rest))
          with (match string_last t, joined_names (m :: rest) with
                | Some c, n :: ns =>
                    if Ascii.eqb c backslash then (drop_last t +:+ "," +:+ n) :: ns
                    else t :: n :: ns
                | _, ns => t :: ns
                end).
        rewrite Hj. destruct (string_last t); [|discriminate]. cbv beta iota in E.
        by rewrite E.
      * rewrite (joined_names_plain t), restore_names_plain, (IHa H) by done. reflexivity.
    + change (single_escapes true (t :: m :: rest))
        with (negb (String.eqb t "") &&
              (if ends_with_backslash t then negb true && single_escapes true (m :: rest)
               else single_escapes false (m :: rest))) in H.
      apply andb_true_iff in H as [Hne H]. apply negb_true_iff, String.eqb_neq in Hne.
      destruct (ends_with_backslash t) eqn:E; [discriminate|].
      split; [by apply joined_names_plain|]. intros name.
      by rewrite restore_names_plain, (IHa H).
Qed.

(** X7.  Names with single escaped commas are restored.  When no token of the
    names attribute is empty and every token that ends in a backslash is
    followed by one that does not, the loop returns the names joined as the
    escapes ask: each backslash replaced by the comma and the next token
    appended. *)
Theorem single_escaped_commas_restored (first : string) (rest : list string) :
  single_escapes false (first :: rest) = true ->
  restore_names first first rest = Ok (joined_names (first :: rest)).
Proof. apply restore_names_single. Qed.

Lemma single_escaped_commas_restored_witness :
  restore_names ("a" +:+ String backslash "") ("a" +:+ String backslash "")
                ["b"; "c"; "d" +:+ String backslash ""; "e"]
  = Ok ["a,b"; "c"; "d,e"].
Proof.
  rewrite (single_escaped_commas_restored ("a" +:+ String backslash "")
             ["b"; "c"; "d" +:+ String backslash ""; "e"]); reflexivity.
Defined.

(** ** The layer table and the edge table *)

Lemma snoc_decompose {A} (done pre post : list A) (a x : A) :
  done ++ [a] = pre ++ x :: post ->
  (post = [] /\ x = a /\ pre = done) \/
  (exists post', post = post' ++ [a] /\ done = pre ++ x :: post').
Proof.
  intros H. destruct (exists_last (l := x :: post)) as (l' & b & Hl); [discriminate|].
  rewrite Hl, app_assoc in H. apply app_inj_tail in H as [Hd <-].
  destruct post as [|y post].
  - left. destruct l' as [|? [|? ?]]; try discriminate.
    injection Hl as ->. rewrite app_nil_r in Hd. auto.
  - right. destruct (exists_last (l := y :: post)) as (q & c & Hq); [discriminate|].
    rewrite Hq in Hl. rewrite app_comm_cons in Hl. apply app_inj_tail in Hl as [Hl ->].
    exists q. split; [exact Hq|]. by rewrite Hd, <- Hl.
Qed.

Lemma read_layer_Ok (t t' : layer_table) (node : xml_node) :
  read_layer t node = Ok t' ->
  exists p, parseGenericParams node = Ok p /\
            (name p ∈ lt_opName t -> type p = "Result") /\
            lt_params t' = <[layerId p := mkNodeParams (Some node) p]> (lt_params t) /\
            lt_opName t' = {[name p]} ∪ lt_opName t.
Proof.
  unfold read_layer. intros H. inv_bind H. rename a into p. exists p.
  split; [exact Ha|].
  destruct (bool_decide (name p ∈ lt_opName t) && negb (String.eqb (type p) "Result")) eqn:E;
    [discriminate|].
  injection H as <-. simpl. split; [|auto].
  intros Hin. apply andb_false_iff in E as [E|E].
  - apply bool_decide_eq_false in E. contradiction.
  - apply negb_false_iff in E. by apply String.eqb_eq.
Qed.

(** X8.  Layer names.  When the layers are read without an error, every
    <layer> node parses, and of two layers with the same name the later one
    is of type Result: a name is refused the second time unless it names a
    Result. *)
Theorem layer_names_unique_but_results (root : option xml_node) (t : layer_table) :
  read_layers root = Ok t ->
  (forall node, node ∈ layer_nodes_of root -> is_Ok (parseGenericParams node)) /\
  (forall pre mid post n1 n2 p1 p2,
     layer_nodes_of root = pre ++ n1 :: mid ++ n2 :: post ->
     parseGenericParams n1 = Ok p1 -> parseGenericParams n2 = Ok p2 ->
     name p1 = name p2 -> type p2 = "Result").
Proof.
  unfold read_layers. fold (layer_nodes_of root). intros H.
  apply (fold_result_inv read_layer
           (fun t done =>
              (forall node, node ∈ done ->
                 exists p, parseGenericParams node = Ok p /\ name p ∈ lt_opName t) /\
              (forall pre mid post n1 n2 p1 p2,
                 done = pre ++ n1 :: mid ++ n2 :: post ->
                 parseGenericParams n1 = Ok p1 -> parseGenericParams n2 = Ok p2 ->
                 name p1 = name p2 -> type p2 = "Result"))) in H.
  - destruct H as [Hparse Hnames]. split; [|exact Hnames].
    intros node Hin. destruct (Hparse node Hin) as (p & Hp & _). by exists p.
  - split; [intros node Hin; inversion Hin|].
    intros pre mid post n1 n2 p1 p2 Hl. by destruct pre.
  - intros st done a rest st' _ [Hparse Hnames] Hstep.
    apply read_layer_Ok in Hstep as (p & Hp & Hres & _ & Hop).
    split.
    + intros node Hin. apply elem_of_app in Hin as [Hin|Hin].
      * destruct (Hparse node Hin) as (q & Hq & Hqn). exists q. split; [exact Hq|].
        rewrite Hop. set_solver.
      * apply list_elem_of_singleton in Hin as ->. exists p. split; [exact Hp|].
        rewrite Hop. set_solver.
    + intros pre mid post n1 n2 p1 p2 Hl Hp1 Hp2 Hname.
      replace (pre ++ n1 :: mid ++ n2 :: post) with ((pre ++ n1 :: mid) ++ n2 :: post) in Hl
        by (by rewrite <- app_assoc).
      apply snoc_decompose in Hl as [(-> & -> & Hd)|(post' & -> & Hd)].
      * rewrite Hp in Hp2. injection Hp2 as <-. apply Hres.
        destruct (Hparse n1) as (q & Hq & Hqn).
        { rewrite <- Hd. apply elem_of_app. right. left. }
        rewrite Hp1 in Hq. injection Hq as <-. by rewrite <- Hname.
      * apply (Hnames pre mid post' n1 n2 p1 p2); auto.
        by rewrite Hd, <- app_assoc.
Qed.

Lemma layer_names_unique_but_results_witness :
  (exists t, read_layers (Some net_with_dead_branch) = Ok t) /\
  throws (read_layers (Some net_name_clash)).
Proof.
  split.
  - pose (r := read_layers (Some net_with_dead_branch)).
    assert (read_layers (Some net_with_dead_branch) = r) as E by reflexivity.
    vm_compute in r.
    match goal with r := Ok ?s |- _ => exists s end. exact E.
  - destruct (read_layers (Some net_name_clash)) as [t|e] eqn:E; [|by exists e].
    exfalso.
    destruct (layer_names_unique_but_results _ _ E) as [_ H].
    specialize (H [xml_layer "1" "in" "Parameter" [] [xml_port "0"]] []
                  [xml_layer "4" "out" "Result" [xml_port "0"] []]
                  (xml_layer "2" "relu" "Relu" [xml_port "0"] [xml_port "1"])
                  (xml_layer "3" "relu" "Relu" [xml_port "0"] [xml_port "1"])).
    pose (p1 := parseGenericParams (xml_layer "2" "relu" "Relu" [xml_port "0"] [xml_port "1"])).
    pose (p2 := parseGenericParams (xml_layer "3" "relu" "Relu" [xml_port "0"] [xml_port "1"])).
    assert (parseGenericParams (xml_layer "2" "relu" "Relu" [xml_port "0"] [xml_port "1"]) = p1)
      as E1 by reflexivity.
    assert (parseGenericParams (xml_layer "3" "relu" "Relu" [xml_port "0"] [xml_port "1"]) = p2)
      as E2 by reflexivity.
    vm_compute in p1, p2.
    match goal with p1 := Ok ?a, p2 := Ok ?b |- _ =>
      specialize (H a b eq_refl E1 E2 eq_refl) end.
    discriminate H.
Defined.

(** X9.  Layer ids.  A layer id may be declared twice: the table of layer
    parameters keeps, for every id, the last <layer> node declared with it,
    together with its parsed parameters, and holds nothing else. *)
Theorem layer_table_keeps_last (root : option xml_node) (t : layer_table) :
  read_layers root = Ok t ->
  (forall pre node post p,
     layer_nodes_of root = pre ++ node :: post ->
     parseGenericParams node = Ok p ->
     (forall n' p', n' ∈ post -> parseGenericParams n' = Ok p' -> layerId p' <> layerId p) ->
     lt_params t !! layerId p = Some (mkNodeParams (Some node) p)) /\
  (forall id np, lt_params t !! id = Some np ->
     exists node, node ∈ layer_nodes_of root /\ np_xml np = Some node /\
                  parseGenericParams node = Ok (np_params np) /\
                  layerId (np_params np) = id).
Proof.
  unfold read_layers. fold (layer_nodes_of root). intros H.
  apply (fold_result_inv read_layer
           (fun t done =>
              (forall pre node post p,
                 done = pre ++ node :: post ->
                 parseGenericParams node = Ok p ->
                 (forall n' p', n' ∈ post -> parseGenericParams n' = Ok p' ->
                                layerId p' <> layerId p) ->
                 lt_params t !! layerId p = Some (mkNodeParams (Some node) p)) /\
              (forall id np, lt_params t !! id = Some np ->
                 exists node, node ∈ done /\ np_xml np = Some node /\
                              parseGenericParams node = Ok (np_params np) /\
                              layerId (np_params np) = id))) in H; [exact H| |].
  - split.
    + intros pre node post p Hl. by destruct pre.
    + intros id np Hnp. simpl in Hnp. rewrite lookup_empty in Hnp. discriminate.
  - intros st done a rest st' _ [Hlast Hback] Hstep.
    apply read_layer_Ok in Hstep as (q & Hq & _ & Hpar & _).
    split.
    + intros pre node post p Hl Hp Hpost. rewrite Hpar.
      apply snoc_decompose in Hl as [(-> & -> & Hd)|(post' & -> & Hd)].
      * rewrite Hq in Hp. injection Hp as <-. apply lookup_insert_eq.
      * rewrite lookup_insert_ne.
        -- apply (Hlast pre node post' p Hd Hp).
           intros n' p' Hin. apply Hpost. apply elem_of_app. by left.
        -- apply (Hpost a q); [|exact Hq]. apply elem_of_app. right. left.
    + intros id np Hnp. rewrite Hpar in Hnp.
      destruct (decide (id = layerId q)) as [->|Hne].
      * rewrite lookup_insert_eq in Hnp. injection Hnp as <-. simpl.
        exists a. split; [apply elem_of_app; right; left | auto].
      * rewrite lookup_insert_ne in Hnp by congruence.
        destruct (Hback id np Hnp) as (node & Hin & Hrest).
        exists node. split; [apply elem_of_app; by left | exact Hrest].
Qed.

Lemma layer_table_keeps_last_witness :
  exists t np, read_layers (Some net_repeated_id) = Ok t /\
               lt_params t !! 2 = Some np /\ name (np_params np) = "tanh" /\
               type (np_params np) = "Tanh".
Proof.
  pose (r := read_layers (Some net_repeated_id)).
  assert (read_layers (Some net_repeated_id) = r) as E by reflexivity.
  vm_compute in r.
  match goal with r := Ok ?s |- _ => exists s end. subst r.
  destruct (layer_table_keeps_last _ _ E) as [H _].
  pose (p := parseGenericParams (xml_layer "2" "tanh" "Tanh" [xml_port "0"] [xml_port "1"])).
  assert (parseGenericParams (xml_layer "2" "tanh" "Tanh" [xml_port "0"] [xml_port "1"]) = p)
    as Ep by reflexivity.
  vm_compute in p.
  match goal with p := Ok ?a |- _ =>
    specialize (H [ xml_layer "1" "in" "Parameter" [] [xml_port "0"];
                    xml_layer "2" "relu" "Relu" [xml_port "0"] [xml_port "1"] ]
                  _ [ xml_layer "3" "out" "Result" [xml_port "0"] [] ] a eq_refl Ep) end.
  eexists. split; [exact E|].
  split.
  - apply H. intros n' p' Hin Hp.
    apply list_elem_of_singleton in Hin. subst n'.
    vm_compute in Hp. injection Hp as <-.
    intros Hid. vm_compute in Hid. discriminate Hid.
  - split; reflexivity.
Defined.

Lemma read_edge_Ok (edges : gmap Z (list edge)) (ec : xml_node) :
  read_edge edges ec =
  (p ← edge_of_xml ec; Ok (<[p.1 := edges_at edges p.1 ++ [p.2]]> edges)).
Proof.
  unfold read_edge, edge_of_xml.
  destruct (XMLParseUtils.GetUIntAttr (Some ec) "from-layer"); [|reflexivity].
  destruct (XMLParseUtils.GetUIntAttr (Some ec) "from-port"); [|reflexivity].
  destruct (XMLParseUtils.GetUIntAttr (Some ec) "to-layer"); [|reflexivity].
  destruct (XMLParseUtils.GetUIntAttr (Some ec) "to-port"); reflexivity.
Qed.

Lemma read_edges_fold (xs : list xml_node) (m0 m : gmap Z (list edge)) :
  fold_result read_edge xs m0 = Ok m ->
  exists ps, Forall2 (fun x p => edge_of_xml x = Ok p) xs ps /\
             forall to, edges_at m to
                        = edges_at m0 to ++ (filter (fun p => p.1 = to) ps).*2.
Proof.
  revert m0. induction xs as [|x xs IH]; intros m0 H; simpl in H.
  - injection H as <-. exists []. split; [constructor|].
    intros to. by rewrite app_nil_r.
  - rewrite read_edge_Ok in H. inv_bind H. rename a into m1.
    inv_bind Ha. rename a into p. injection Ha as <-.
    destruct (IH _ H) as (ps & Hps & Hat). exists (p :: ps).
    split; [by constructor|].
    intros to. rewrite Hat. unfold edges_at at 1.
    rewrite filter_cons. destruct (decide (p.1 = to)) as [<-|Hne].
    + rewrite lookup_insert_eq. simpl. by rewrite <- app_assoc.
    + rewrite lookup_insert_ne by exact Hne. reflexivity.
Qed.

(** X10.  The edge table.  When the edges are read without an error, every
    <edge> element parses, and the list kept for a layer holds exactly the
    edges that lead to it, in document order: no edge is lost, merged or
    reordered. *)
Theorem edges_grouped_by_destination (root : option xml_node) (edges : gmap Z (list edge)) :
  read_edges root = Ok edges ->
  exists ps, Forall2 (fun x p => edge_of_xml x = Ok p) (edge_nodes_of root) ps /\
             forall to, edges_at edges to = (filter (fun p => p.1 = to) ps).*2.
Proof.
  unfold read_edges. fold (edge_nodes_of root). intros H.
  destruct (read_edges_fold _ _ _ H) as (ps & Hps & Hat).
  exists ps. split; [exact Hps|]. intros to. by rewrite Hat.
Qed.

Lemma edges_grouped_by_destination_witness :
  exists edges, read_edges (Some net_with_state) = Ok edges /\
                edges_at edges 3 = [mkEdge 1 0 0] /\
                exists ps, Forall2 (fun x p => edge_of_xml x = Ok p)
                                   (edge_nodes_of (Some net_with_state)) ps.
Proof.
  pose (r := read_edges (Some net_with_state)).
  assert (read_edges (Some net_with_state) = r) as E by reflexivity.
  vm_compute in r.
  match goal with r := Ok ?s |- _ => exists s end. subst r.
  split; [exact E|]. split; [reflexivity|].
  destruct (edges_grouped_by_destination _ _ E) as (ps & Hps & _). by exists ps.
Defined.

(** ** The order of construction *)

Lemma NoDup_split_unique {A} (l a a' b b' : list A) (y : A) :
  NoDup l -> l = a ++ y :: b -> l = a' ++ y :: b' -> a = a'.
Proof.
  revert l a'. induction a as [|c a IH]; intros l a' Hnd H1 H2; subst l.
  - destruct a' as [|c' a']; [reflexivity|]. exfalso.
    simpl in H2. injection H2 as <- ->.
    apply NoDup_cons in Hnd as [Hy _]. apply Hy, elem_of_app. right. left.
  - destruct a' as [|c' a']; simpl in H2.
    + exfalso. injection H2 as -> <-.
      apply NoDup_cons in Hnd as [Hy _]. apply Hy, elem_of_app. right. left.
    + injection H2 as <- H2. simpl in Hnd. apply NoDup_cons in Hnd as [_ Hnd].
      f_equal. by apply (IH _ a' Hnd eq_refl).
Qed.

Lemma precedes_trans (order : list Z) (x y z : Z) :
  NoDup order -> precedes order y x -> precedes order z y -> precedes order z x.
Proof.
  intros Hnd (pre & post & Ho & Hy) (pre' & post' & Ho' & Hz).
  exists pre, post. split; [exact Ho|].
  apply list_elem_of_split in Hy as (a & b & ->).
  rewrite <- app_assoc in Ho. simpl in Ho.
  rewrite (NoDup_split_unique _ _ _ _ _ _ Hnd Ho Ho'). apply elem_of_app. by left.
Qed.

Lemma precedes_tc (R : relation Z) (order : list Z) :
  NoDup order ->
  (forall x y, x ∈ order -> R x y -> precedes order y x) ->
  forall x z, tc R x z -> x ∈ order -> precedes order z x.
Proof.
  intros Hnd HR x z Htc. induction Htc as [x y Hxy|x y z Hxy _ IH]; intros Hx.
  - by apply HR.
  - pose proof (HR x y Hx Hxy) as Hp.
    apply (precedes_trans order x y z Hnd Hp). apply IH.
    destruct Hp as (pre & post & -> & Hy). apply elem_of_app. by left.
Qed.

Lemma precedes_irrefl (order : list Z) (x : Z) : NoDup order -> ~ precedes order x x.
Proof.
  intros Hnd (pre & post & -> & Hx).
  apply NoDup_app in Hnd as (_ & Hdisj & _). apply (Hdisj x Hx). left.
Qed.

Lemma indexed_from_refl (m0 : gmap Z Z) : indexed_from m0 m0 [].
Proof.
  split; [auto|]. intros id Hnone v. rewrite Hnone. split; [discriminate|].
  intros [_ H]. discriminate.
Qed.

Lemma indexed_from_step (m0 m : gmap Z Z) (l : list Z) (id : Z) :
  indexed_from m0 m l -> id ∉ l ->
  indexed_from m0 (insert_new id (Z.of_nat (length l)) m) (l ++ [id]).
Proof.
  intros [Hkeep Hnew] Hid. unfold insert_new.
  assert (forall v, 0 <= v -> (l ++ [id]) !! Z.to_nat v = Some id <-> v = Z.of_nat (length l))
    as Hlast.
  { intros v Hv. split.
    - intros H. destruct (decide (Z.to_nat v < length l)%nat) as [Hlt|Hge].
      + rewrite lookup_app_l in H by exact Hlt.
        exfalso. apply Hid. by eapply list_elem_of_lookup_2.
      + assert (Z.to_nat v < length (l ++ [id]))%nat as Hb
          by (apply lookup_lt_is_Some; eauto).
        rewrite length_app in Hb. simpl in Hb. lia.
    - intros ->. rewrite Nat2Z.id. by apply list_lookup_middle. }
  assert (forall v id', id' <> id ->
            (l ++ [id]) !! Z.to_nat v = Some id' <-> l !! Z.to_nat v = Some id') as Hother.
  { intros v id' Hne. split.
    - intros H. destruct (decide (Z.to_nat v < length l)%nat) as [Hlt|Hge].
      + by rewrite lookup_app_l in H.
      + rewrite lookup_app_r in H by lia.
        destruct (Z.to_nat v - length l)%nat; simpl in H; [congruence | discriminate].
    - intros H. rewrite lookup_app_l; [exact H|]. apply lookup_lt_is_Some; eauto. }
  destruct (m !! id) as [w|] eqn:Hm.
  - destruct (m0 !! id) as [w0|] eqn:Hm0.
    + split; [exact Hkeep|]. intros id' Hnone v.
      rewrite (Hnew id' Hnone v), Hother; [reflexivity | congruence].
    + exfalso. apply (Hnew id Hm0) in Hm as [_ Hm]. apply Hid.
      by eapply list_elem_of_lookup_2.
  - split.
    + intros id' v Hv. rewrite lookup_insert_ne; [by apply Hkeep|].
      intros <-. apply Hkeep in Hv. congruence.
    + intros id' Hnone v. destruct (decide (id' = id)) as [->|Hne].
      * rewrite lookup_insert_eq. split.
        -- intros [= <-]. split; [lia|]. apply Hlast; lia.
        -- intros [Hv H]. f_equal. symmetry. by apply Hlast.
      * rewrite lookup_insert_ne by congruence.
        by rewrite (Hnew id' Hnone v), Hother.
Qed.

Section BuildOrder.

Context {Op : Type}.
Variable construct :
  Op -> gmap Z Node -> list (option Output) -> option xml_node -> Blob -> result Node.
Variable m_opsets : gmap string (OpSet Op).
Variable m_use_framework_node : bool.
Variable weights : Blob.

Lemma gather_sources_built params store p es inputs0 inputs :
  fold_result (gather_step params store p) es inputs0 = Ok inputs ->
  forall e, e ∈ es -> is_Some (store !! fromLayerId e).
Proof.
  revert inputs0. induction es as [|e es IH]; intros inputs0 H e' He'; [inversion He'|].
  simpl in H. inv_bind H.
  apply elem_of_cons in He' as [->|He']; [|by eapply IH].
  apply gather_step_Ok in Ha as (r & out & (_ & _ & _ & Hs) & _). exact Hs.
Qed.

Lemma build_layer_sources (params : gmap Z node_params) (edges : gmap Z (list edge))
  (st st' : build_state) (id : Z) :
  build_layer Op construct m_opsets m_use_framework_node weights params edges st id = Ok st' ->
  forall e, e ∈ edges_at edges id -> is_Some (id_to_node st !! fromLayerId e).
Proof.
  unfold build_layer, edges_at. intros H e He.
  destruct (edges !! id) as [es|]; [|inversion He]. simpl in He.
  inv_bind H. unfold gather_inputs in Ha. by eapply gather_sources_built.
Qed.

Lemma index_node_io (st : build_state) (id : Z) (node : Node) :
  let st' := index_node st id node in
  io_inputs (io_map st') =
    (if n_is_parameter node
     then insert_new id (Z.of_nat (length (fn_parameters (func_nodes st))))
                     (io_inputs (io_map st))
     else io_inputs (io_map st)) /\
  fn_parameters (func_nodes st') =
    (if n_is_parameter node then fn_parameters (func_nodes st) ++ [id]
     else fn_parameters (func_nodes st)) /\
  io_outputs (io_map st') =
    (if n_is_result node
     then insert_new id (Z.of_nat (length (fn_results (func_nodes st))))
                     (io_outputs (io_map st))
     else io_outputs (io_map st)) /\
  fn_results (func_nodes st') =
    (if n_is_result node then fn_results (func_nodes st) ++ [id]
     else fn_results (func_nodes st)).
Proof.
  unfold index_node. by destruct (n_is_parameter node), (n_is_result node).
Qed.

Lemma build_nodes_order (params : gmap Z node_params) (edges : gmap Z (list edge))
  (order : list Z) (io : IoMap) (st : build_state) :
  build_nodes Op construct m_opsets m_use_framework_node weights params edges order io = Ok st ->
  NoDup order -> (forall x, x ∈ order -> is_Some (edges !! x)) ->
  (forall x e, x ∈ order -> e ∈ edges_at edges x -> precedes order (fromLayerId e) x) /\
  indexed_from (io_inputs io) (io_inputs (io_map st)) (fn_parameters (func_nodes st)) /\
  indexed_from (io_outputs io) (io_outputs (io_map st)) (fn_results (func_nodes st)).
Proof.
  unfold build_nodes. intros H Hnd Hedges.
  apply (fold_result_inv _
           (fun st done =>
              build_inv st done /\
              (forall pre x post e, done = pre ++ x :: post -> e ∈ edges_at edges x ->
                                    fromLayerId e ∈ pre) /\
              indexed_from (io_inputs io) (io_inputs (io_map st))
                           (fn_parameters (func_nodes st)) /\
              indexed_from (io_outputs io) (io_outputs (io_map st))
                           (fn_results (func_nodes st)))) in H.
  - destruct H as (_ & Hord & Hin & Hout). split; [|auto].
    intros x e Hx He. apply list_elem_of_split in Hx as (pre & post & Hx).
    exists pre, post. split; [exact Hx|]. by apply (Hord pre x post e).
  - split; [|split; [|split]]; try apply indexed_from_refl.
    + unfold build_inv. simpl.
      repeat split; try (intros Hx; inversion Hx; fail);
        try (intros (n & Hn & _); rewrite lookup_empty in Hn; discriminate);
        try (intros [n Hn]; rewrite lookup_empty in Hn; discriminate).
      * intros v id Hv. rewrite lookup_empty in Hv. discriminate.
      * intros id n v Hn. rewrite lookup_empty in Hn. discriminate.
    + intros pre x post e Hl. by destruct pre.
  - intros s done a rest s' Horder (Hinv & Hord & Hin & Hout) Hstep.
    assert (a ∈ order) as Ha by (rewrite Horder; apply elem_of_app; right; left).
    assert (a ∉ done) as Hnew.
    { rewrite Horder in Hnd. apply NoDup_app in Hnd as (_ & Hdisj & _).
      intros Hin'. apply (Hdisj a Hin'). left. }
    pose proof (build_layer_sources _ _ _ _ _ Hstep) as Hsrc.
    destruct (build_layer_indexes _ _ _ _ _ _ _ _ _ Hstep (Hedges a Ha)) as [node ->].
    destruct Hinv as (Hdom & Hall & Hsinks & Hparams & Hresults & Hvars) eqn:Einv.
    assert (forall (P : Node -> bool) (l : list Z),
              (forall s0, s0 ∈ l <-> exists n, id_to_node s !! s0 = Some n /\ P n = true) ->
              a ∉ l) as Hfresh.
    { intros P l Hl Hal. apply Hl in Hal as (n & Hn & _). apply Hnew, Hdom. eauto. }
    split; [apply index_node_inv; [exact Hinv | exact Hnew]|].
    split; [|split].
    + intros pre x post e Hl He.
      apply snoc_decompose in Hl as [(-> & -> & ->)|(post' & -> & Hd)].
      * apply Hdom. by apply Hsrc.
      * by apply (Hord pre x post' e).
    + destruct (index_node_io s a node) as (-> & -> & _).
      destruct (n_is_parameter node); [|exact Hin].
      apply indexed_from_step; [exact Hin|]. by apply (Hfresh n_is_parameter).
    + destruct (index_node_io s a node) as (_ & _ & -> & ->).
      destruct (n_is_result node); [|exact Hout].
      apply indexed_from_step; [exact Hout|]. by apply (Hfresh n_is_result).
Qed.

Lemma construct_function_nodes_order (root : option xml_node) (io : IoMap)
  (st : build_state) (layers : layer_table) (edges : gmap Z (list edge)) :
  construct_function_nodes Op construct m_opsets m_use_framework_node root weights io = Ok st ->
  read_layers root = Ok layers -> read_edges root = Ok edges ->
  NoDup (fn_all (func_nodes st)) /\
  (forall x, x ∈ fn_all (func_nodes st) <-> reachable edges (lt_outputs layers) x) /\
  (forall x y, x ∈ fn_all (func_nodes st) -> feeds edges x y ->
               precedes (fn_all (func_nodes st)) y x) /\
  indexed_from (io_inputs io) (io_inputs (io_map st)) (fn_parameters (func_nodes st)) /\
  indexed_from (io_outputs io) (io_outputs (io_map st)) (fn_results (func_nodes st)).
Proof.
  intros H Hl He. unfold construct_function_nodes in H. rewrite Hl, He in H.
  unfold mbind, result_bind in H. cbv beta iota in H.
  destruct (topological_order_total edges (lt_outputs layers))
    as (d & Hd & Hs & Hnd & Hreach & Hentries).
  rewrite Hd in H.
  pose proof (build_nodes_inv _ _ _ _ _ _ _ _ _ H Hnd Hentries) as (_ & Hall & _).
  destruct (build_nodes_order _ _ _ _ _ H Hnd Hentries) as (Hord & Hin & Hout).
  rewrite Hall. split; [exact Hnd|]. split; [exact Hreach|]. split; [|auto].
  intros x y Hx (e & Hin' & <-). apply (Hord x e Hx). by rewrite Hs.
Qed.

(** X11.  The nodes are built sources first.  When the nodes of a function
    are constructed, no layer is built twice, and every edge that leads to a
    built layer comes from a layer that was built before it. *)
Theorem sources_built_before_destinations (root : option xml_node) (io : IoMap)
  (st : build_state) (edges : gmap Z (list edge)) :
  construct_function_nodes Op construct m_opsets m_use_framework_node root weights io = Ok st ->
  read_edges root = Ok edges ->
  NoDup (fn_all (func_nodes st)) /\
  forall x e, x ∈ fn_all (func_nodes st) -> e ∈ edges_at edges x ->
              precedes (fn_all (func_nodes st)) (fromLayerId e) x.
Proof.
  intros H He.
  destruct (construct_function_nodes_Ok _ _ _ _ _ _ _ H) as (layers & edges' & _ & Hl & He' & _).
  rewrite He in He'. injection He' as <-.
  destruct (construct_function_nodes_order _ _ _ _ _ H Hl He) as (Hnd & _ & Hord & _).
  split; [exact Hnd|]. intros x e Hx Hin. apply (Hord x _ Hx). by exists e.
Qed.

(** X12.  A cycle is refused.  When a layer that is reached from a Result or
    an Assign lies on a cycle of edges, the construction of the nodes throws:
    no function is made of a graph with a cycle among its reached layers. *)
Theorem cycle_among_reached_layers_refused (root : option xml_node) (io : IoMap)
  (layers : layer_table) (edges : gmap Z (list edge)) (x : Z) :
  read_layers root = Ok layers -> read_edges root = Ok edges ->
  reachable edges (lt_outputs layers) x -> tc (feeds edges) x x ->
  throws (construct_function_nodes Op construct m_opsets m_use_framework_node root weights io).
Proof.
  intros Hl He Hreach Hcycle.
  destruct (construct_function_nodes Op construct m_opsets m_use_framework_node root weights io)
    as [st|e] eqn:H; [|by exists e].
  exfalso.
  destruct (construct_function_nodes_order _ _ _ _ _ H Hl He) as (Hnd & Hall & Hord & _).
  apply Hall in Hreach.
  apply (precedes_irrefl (fn_all (func_nodes st)) x Hnd).
  by apply (precedes_tc (feeds edges) _ Hnd Hord x x Hcycle).
Qed.

(** X13.  The port maps returned with a function.  The map of inputs keeps
    every entry it was given, and maps every other layer id to an index
    exactly when the layer is the parameter of the function at that index;
    the map of outputs does the same with the results. *)
Theorem io_map_indexes_parameters_and_results (root : option xml_node) (io io' : IoMap)
  (f : Function) :
  parse_function Op construct m_opsets m_use_framework_node root weights io = Ok (f, io') ->
  indexed_from (io_inputs io) (io_inputs io') (f_parameters f) /\
  indexed_from (io_outputs io) (io_outputs io') (f_results f).
Proof.
  unfold parse_function. intros H. inv_bind H. rename a into st. inv_bind H.
  injection H as <- <-.
  unfold make_function in Ha0. inv_bind Ha0. injection Ha0 as <-. simpl.
  destruct (construct_function_nodes_Ok _ _ _ _ _ _ _ Ha) as (layers & edges & _ & Hl & He & _).
  destruct (construct_function_nodes_order _ _ _ _ _ Ha Hl He) as (_ & _ & _ & Hin & Hout).
  auto.
Qed.

End BuildOrder.

Lemma sources_built_before_destinations_witness :
  exists st, sample_build net_with_dead_branch = Ok st /\
             precedes (fn_all (func_nodes st)) 1 2.
Proof.
  pose (r := sample_build net_with_dead_branch).
  assert (sample_build net_with_dead_branch = r) as E by reflexivity.
  vm_compute in r.
  match goal with r := Ok ?s |- _ => exists s end. subst r.
  split; [exact E|].
  pose (r := read_edges (Some net_with_dead_branch)).
  assert (read_edges (Some net_with_dead_branch) = r) as Ee by reflexivity.
  vm_compute in r.
  match goal with r := Ok ?s |- _ =>
    destruct (sources_built_before_destinations _ _ _ _ _ _ _ s E Ee) as [_ H] end.
  apply (H 2 (mkEdge 1 0 0)).
  - apply list_elem_of_In. vm_compute. auto.
  - apply list_elem_of_In. vm_compute. auto.
Defined.

Lemma cycle_among_reached_layers_refused_witness :
  throws (sample_build net_with_cycle).
Proof.
  pose (rl := read_layers (Some net_with_cycle)).
  assert (read_layers (Some net_with_cycle) = rl) as El by reflexivity.
  pose (re := read_edges (Some net_with_cycle)).
  assert (read_edges (Some net_with_cycle) = re) as Ee by reflexivity.
  vm_compute in rl, re.
  match goal with rl := Ok ?l, re := Ok ?e |- _ =>
    apply (cycle_among_reached_layers_refused
             sample_construct sample_opsets false no_weights
             (Some net_with_cycle) empty_io_map l e 1 El Ee) end.
  - exists 3. split; [apply list_elem_of_In; vm_compute; auto|].
    eapply rtc_l; [|eapply rtc_l; [|apply rtc_refl]].
    + exists (mkEdge 2 1 0). split; [apply list_elem_of_In; vm_compute; auto | reflexivity].
    + exists (mkEdge 1 1 0). split; [apply list_elem_of_In; vm_compute; auto | reflexivity].
  - eapply tc_l; [|apply tc_once].
    + exists (mkEdge 2 1 0). split; [apply list_elem_of_In; vm_compute; auto | reflexivity].
    + exists (mkEdge 1 1 0). split; [apply list_elem_of_In; vm_compute; auto | reflexivity].
Defined.

Lemma io_map_indexes_parameters_and_results_witness :
  exists f io', sample_parse net_with_dead_branch = Ok (f, io') /\
                io_inputs io' !! 1 = Some 0 /\ io_outputs io' !! 3 = Some 0.
Proof.
  pose (r := sample_parse net_with_dead_branch).
  assert (sample_parse net_with_dead_branch = r) as E by reflexivity.
  vm_compute in r.
  match goal with r := Ok (?f, ?i) |- _ => exists f, i end. subst r.
  split; [exact E|].
  destruct (io_map_indexes_parameters_and_results _ _ _ _ _ _ _ _ E) as [[_ Hin] [_ Hout]].
  split.
  - apply (Hin 1 eq_refl 0). split; [lia | reflexivity].
  - apply (Hout 3 eq_refl 0). split; [lia | reflexivity].
Defined.

(** ** The creation of one node *)

Lemma check_inputs_Ok (store : gmap Z Node) (inputs : list (option Output)) (u : unit) :
  check_inputs store inputs = Ok u ->
  forall i, (i < length inputs)%nat ->
    exists out, inputs !! i = Some (Some out) /\ get_element_type store out <> undefined.
Proof.
  induction inputs as [|[o|] inputs IH]; intros H i Hi; simpl in *; [lia| |discriminate].
  destruct (decide (get_element_type store o = undefined)) as [|Hty]; [discriminate|].
  destruct i as [|i]; [eauto|]. apply (IH H i). lia.
Qed.

Section NodeCreation.

Context {Op : Type}.
Variable construct :
  Op -> gmap Z Node -> list (option Output) -> option xml_node -> Blob -> result Node.
Variable m_opsets : gmap string (OpSet Op).
Variable weights : Blob.

Lemma createNode_checks (fw : bool) store inputs node params (n : Node) :
  createNode Op construct m_opsets fw store inputs node weights params = Ok n ->
  check_inputs store inputs = Ok tt.
Proof.
  unfold createNode. intros H. destruct (check_inputs store inputs) as [[]|e]; [reflexivity|].
  discriminate.
Qed.


Lemma assoc_find_app {V} (k : string) (l1 l2 : list (string * V)) :
  assoc_find k (l1 ++ l2) =
  match assoc_find k l1 with Some v => Some v | None => assoc_find k l2 end.
Proof.
  induction l1 as [|[k' v'] l1 IH]; [reflexivity|]. simpl.
  destruct (String.eqb k' k); [reflexivity | exact IH].
Qed.

Lemma fold_insert_lookup (l : list (string * string)) (m0 : gmap string string) (k : string) :
  fold_left (fun m kv => <[fst kv := snd kv]> m) l m0 !! k =
  match assoc_find k (rev l) with Some v => Some v | None => m0 !! k end.
Proof.
  revert m0. induction l as [|[k' v'] l IH]; intros m0; [reflexivity|].
  simpl. rewrite IH, assoc_find_app. simpl.
  destruct (assoc_find k (rev l)); [reflexivity|].
  destruct (String.eqb_spec k' k) as [->|Hne].
  - by rewrite lookup_insert_eq.
  - by rewrite lookup_insert_ne.
Qed.

(** X15.  The framework node stands in for an unknown opset only.  With the
    inputs accepted and no opset found for the layer: the loader without
    framework nodes throws; with them it needs the attributes type and
    version on the layer, throws when one of them is missing, and otherwise
    returns a FrameworkNode over the inputs that records the type, the
    version and every attribute of <data> (the last one of a name), with the
    element types of the declared output ports and the name of the layer.
    When an opset is found, enabling framework nodes changes nothing, so an
    operator that the opset lacks is an error either way. *)
Theorem framework_node_only_for_unknown_opset (store : gmap Z Node)
  (inputs : list (option Output)) (node : option xml_node) (params : GenericLayerParams) :
  let found :=
    if string_in (type params) experimental_ops_added_to_opset &&
       (String.eqb (version params) "experimental" || String.eqb (version params) "extension")
    then m_opsets !! "opset6" else m_opsets !! version params in
  check_inputs store inputs = Ok tt ->
  (found = None ->
   createNode Op construct m_opsets false store inputs node weights params
     = Throw (IE_exception "Cannot create layer from unsupported opset") /\
   (attribute node "type" = None \/ attribute node "version" = None ->
    createNode Op construct m_opsets true store inputs node weights params
      = Throw (IE_exception "missing mandatory attribute")) /\
   (forall type_ version_,
      attribute node "type" = Some type_ -> attribute node "version" = Some version_ ->
      exists n attrs,
        createNode Op construct m_opsets true store inputs node weights params = Ok n /\
        n_type_name n = "FrameworkNode" /\ n_inputs n = inputs /\
        n_outputs n = precision <$> outputPorts params /\
        n_friendly_name n = name params /\
        n_framework_attrs n = Some attrs /\
        fw_type_name attrs = type_ /\ fw_opset_name attrs = version_ /\
        forall k, fw_attrs attrs !! k =
                  match child node "data" with
                  | Some d => assoc_find k (rev (xml_attrs d))
                  | None => None
                  end)) /\
  (is_Some found ->
   createNode Op construct m_opsets true store inputs node weights params
   = createNode Op construct m_opsets false store inputs node weights params).
Proof.
  intros found Hc. unfold createNode. rewrite Hc.
  unfold mbind at 1 4 7 10 13, result_bind. cbv beta iota zeta. fold found.
  split.
  - intros ->. unfold mbind at 1 3 5 7, result_bind. cbv beta iota.
    split; [reflexivity|].
    unfold framework_node, FrameworkNode_visit_attributes, on_adapter_framework_node_attrs.
    change (string_in "framework_node_attrs" skip_names) with false. cbn [andb].
    unfold XMLParseUtils.GetStrAttr. split.
    + intros [Hty|Hver].
      * by rewrite Hty.
      * rewrite Hver. by destruct (attribute node "type").
    + intros type_ version_ Hty Hver. rewrite Hty, Hver.
      unfold mbind, result_bind. cbv beta iota.
      destruct (child node "data") as [d|].
      * pose proof (fold_insert_lookup (xml_attrs d) ∅) as Hfold.
        set (m := fold_left (fun m kv => <[fst kv := snd kv]> m) (xml_attrs d) ∅) in *.
        eexists. eexists. split; [reflexivity|]. simpl.
        repeat (split; [reflexivity|]).
        intros k. rewrite Hfold, lookup_empty. by destruct (assoc_find k (rev (xml_attrs d))).
      * eexists. eexists. split; [reflexivity|]. simpl.
        repeat (split; [reflexivity|]). intros k. apply lookup_empty.
  - intros [o ->]. unfold mbind at 1 3, result_bind.
    destruct (create_from_opset Op construct m_opsets o store inputs node weights params);
      reflexivity.
Qed.

End NodeCreation.


Lemma framework_node_only_for_unknown_opset_witness :
  n_type_name <$> option_of_result
    (createNode Node sample_construct sample_opsets true ∅ [] (Some sample_unknown_layer)
                no_weights (sample_params "my_opset" "MyOp" "x")) = Some "FrameworkNode" /\
  createNode Node sample_construct sample_opsets true ∅ [] None no_weights
             (sample_params "my_opset" "MyOp" "x")
    = Throw (IE_exception "missing mandatory attribute") /\
  throws (createNode Node sample_construct sample_opsets true ∅ [] (Some sample_unknown_layer)
                     no_weights (sample_params "opset1" "MyOp" "x")).
Proof.
  destruct (framework_node_only_for_unknown_opset sample_construct sample_opsets no_weights
              ∅ [] (Some sample_unknown_layer) (sample_params "my_opset" "MyOp" "x") eq_refl)
    as [H _].
  destruct (H eq_refl) as (_ & _ & Hfw).
  destruct (Hfw "MyOp" "my_opset" eq_refl eq_refl) as (n & attrs & Hn & Hty & _).
  split; [rewrite Hn; simpl; by rewrite Hty|]. split.
  - destruct (framework_node_only_for_unknown_opset sample_construct sample_opsets no_weights
                ∅ [] None (sample_params "my_opset" "MyOp" "x") eq_refl) as [H0 _].
    destruct (H0 eq_refl) as (_ & Hmiss & _). apply Hmiss. by left.
  - destruct (framework_node_only_for_unknown_opset sample_construct sample_opsets no_weights
                ∅ [] (Some sample_unknown_layer) (sample_params "opset1" "MyOp" "x") eq_refl)
      as [_ H'].
    rewrite H'; [|by eexists]. eexists. reflexivity.
Defined.

(** ** The opset registry *)

Section OpsetRegistry.

Context {Op : Type}.
Variables o1 o2 o3 o4 o5 o6 o7 o8 : OpSet Op.

Lemma add_opsets_app (a b : list (string * OpSet Op)) (m : gmap string (OpSet Op)) :
  add_opsets Op (a ++ b) m = (add_opsets Op a m ≫= add_opsets Op b).
Proof.
  revert m. induction a as [|[nm o] a IH]; intros m; [reflexivity|]. simpl.
  destruct (m !! nm); [reflexivity | apply IH].
Qed.

Lemma load_custom_opsets_flat (exts : list (Extension Op)) (m : gmap string (OpSet Op)) :
  load_custom_opsets Op exts m = add_opsets Op (exts ≫= getOpSets Op) m.
Proof.
  revert m. induction exts as [|ext exts IH]; intros m; [reflexivity|].
  simpl. rewrite add_opsets_app.
  destruct (add_opsets Op (getOpSets Op ext) m); simpl; [apply IH | reflexivity].
Qed.

Lemma add_opsets_spec (its : list (string * OpSet Op)) (m0 : gmap string (OpSet Op)) :
  (is_Ok (add_opsets Op its m0) <->
   NoDup its.*1 /\ forall nm, nm ∈ its.*1 -> m0 !! nm = None) /\
  (forall m, add_opsets Op its m0 = Ok m -> m = list_to_map its ∪ m0).
Proof.
  revert m0. induction its as [|[nm o] its IH]; intros m0.
  - simpl. split.
    + split; [intros _; split; [constructor | intros nm Hin; inversion Hin]|].
      intros _. by eexists.
    + intros m [= <-]. by rewrite (left_id_L ∅ (∪)).
  - destruct (IH (<[nm := o]> m0)) as [IHok IHmap]. clear IH.
    cbn [add_opsets]. rewrite fmap_cons. cbn [fst].
    destruct (m0 !! nm) as [old|] eqn:Hnm.
    + split.
      * split; [intros [m Hm]; discriminate|].
        intros [_ Hfree]. rewrite Hfree in Hnm; [discriminate | left].
      * intros m Hm. discriminate.
    + assert (is_Ok (add_opsets Op its (<[nm:=o]> m0)) <->
              NoDup (nm :: its.*1) /\ forall k, k ∈ nm :: its.*1 -> m0 !! k = None) as Hok.
      { rewrite IHok, NoDup_cons. split.
        - intros [Hnd Hfree]. split; [split; [|exact Hnd]|].
          + intros Hin. apply Hfree in Hin. by rewrite lookup_insert_eq in Hin.
          + intros k Hk. apply elem_of_cons in Hk as [->|Hk]; [exact Hnm|].
            apply Hfree in Hk. destruct (decide (k = nm)) as [->|Hne]; [exact Hnm|].
            by rewrite lookup_insert_ne in Hk by congruence.
        - intros [[Hnew Hnd] Hfree]. split; [exact Hnd|].
          intros k Hk. rewrite lookup_insert_ne; [apply Hfree; by right|].
          intros <-. contradiction. }
      split; [exact Hok|].
      intros m Hm. rewrite (IHmap m Hm).
      assert (nm ∉ its.*1) as Hnew.
      { assert (is_Ok (add_opsets Op its (<[nm:=o]> m0))) as Hex by (by exists m).
        apply Hok in Hex as [Hnd _]. by apply NoDup_cons in Hnd as [Hnew _]. }
      rewrite list_to_map_cons. cbn [fst snd].
      rewrite <- insert_union_l. rewrite <- insert_union_r; [reflexivity|].
      by apply not_elem_of_list_to_map_1.
Qed.

(** X16.  The registry of opsets.  Loading succeeds exactly when the names
    of the opsets that the extensions provide, taken in order, are pairwise
    different and none of them is the name of a built-in opset; the registry
    then holds the eight built-in opsets and every opset of every extension
    under its name, and nothing else. *)
Theorem extension_opsets_registered_unless_names_collide (exts : list (Extension Op)) :
  let provided := exts ≫= getOpSets Op in
  let builtin := default_opsets Op o1 o2 o3 o4 o5 o6 o7 o8 in
  (is_Ok (load_opsets Op o1 o2 o3 o4 o5 o6 o7 o8 exts) <->
   NoDup provided.*1 /\ forall nm, nm ∈ provided.*1 -> builtin !! nm = None) /\
  (forall m, load_opsets Op o1 o2 o3 o4 o5 o6 o7 o8 exts = Ok m ->
     (forall nm o, (nm, o) ∈ provided -> m !! nm = Some o) /\
     (forall nm o, builtin !! nm = Some o -> m !! nm = Some o) /\
     (forall nm o, m !! nm = Some o -> (nm, o) ∈ provided \/ builtin !! nm = Some o)).
Proof.
  intros provided builtin. unfold load_opsets. rewrite load_custom_opsets_flat.
  fold provided. fold builtin.
  destruct (add_opsets_spec provided builtin) as [Hok Hmap].
  split; [exact Hok|].
  intros m Hm.
  assert (is_Ok (add_opsets Op provided builtin)) as Hex by (by exists m).
  apply Hok in Hex as [Hnd Hfree].
  rewrite (Hmap m Hm).
  split; [|split].
  - intros nm o Hin. apply lookup_union_Some_l. by apply elem_of_list_to_map_1.
  - intros nm o Hb. rewrite lookup_union_r; [exact Hb|].
    apply not_elem_of_list_to_map_1. intros Hin. apply Hfree in Hin. congruence.
  - intros nm o Hl. apply lookup_union_Some_raw in Hl as [Hl|[_ Hl]]; [|by right].
    left. by apply elem_of_list_to_map_2.
Qed.

End OpsetRegistry.

Lemma extension_opsets_registered_unless_names_collide_witness :
  is_Ok (load_opsets Node (sample_opset "opset1") (sample_opset "opset2")
           (sample_opset "opset3") (sample_opset "opset4") (sample_opset "opset5")
           (sample_opset "opset6") (sample_opset "opset7") (sample_opset "opset8")
           [sample_extension "custom"; sample_extension "other"]) /\
  ~ is_Ok (load_opsets Node (sample_opset "opset1") (sample_opset "opset2")
             (sample_opset "opset3") (sample_opset "opset4") (sample_opset "opset5")
             (sample_opset "opset6") (sample_opset "opset7") (sample_opset "opset8")
             [sample_extension "custom"; sample_extension "opset3"]).
Proof.
  split.
  - apply (extension_opsets_registered_unless_names_collide
             (sample_opset "opset1") (sample_opset "opset2")
             (sample_opset "opset3") (sample_opset "opset4") (sample_opset "opset5")
             (sample_opset "opset6") (sample_opset "opset7") (sample_opset "opset8")).
    split.
    + simpl. apply NoDup_cons. split; [|apply NoDup_singleton].
      intros Hin. apply list_elem_of_singleton in Hin. discriminate.
    + intros nm Hin. simpl in Hin.
      apply elem_of_cons in Hin as [->|Hin]; [reflexivity|].
      apply list_elem_of_singleton in Hin as ->. reflexivity.
  - intros Hok.
    apply (extension_opsets_registered_unless_names_collide
             (sample_opset "opset1") (sample_opset "opset2")
             (sample_opset "opset3") (sample_opset "opset4") (sample_opset "opset5")
             (sample_opset "opset6") (sample_opset "opset7") (sample_opset "opset8")) in Hok
      as [_ Hfree].
    specialize (Hfree "opset3"). simpl in Hfree.
    assert (default_opsets Node (sample_opset "opset1") (sample_opset "opset2")
              (sample_opset "opset3") (sample_opset "opset4") (sample_opset "opset5")
              (sample_opset "opset6") (sample_opset "opset7") (sample_opset "opset8")
              !! "opset3" = None) as Hnone by (apply Hfree; right; left).
    vm_compute in Hnone. discriminate.
Defined.

(** ** The pass over the sinks *)

Lemma control_deps_added_nil (n : Node) : control_deps_added n n [].
Proof. unfold control_deps_added. rewrite app_nil_r. by destruct n. Qed.

Lemma control_deps_added_trans (n n1 n2 : Node) (a b : list Z) :
  control_deps_added n n1 a -> control_deps_added n1 n2 b ->
  control_deps_added n n2 (a ++ b).
Proof.
  unfold control_deps_added. intros -> ->. simpl. by rewrite app_assoc.
Qed.

Lemma patch_assign_frame (vars : gmap string Z) (store store' : gmap Z Node) (sink : Z) :
  patch_assign vars store sink = Ok store' ->
  forall id n, store !! id = Some n ->
    exists n' extra, store' !! id = Some n' /\ control_deps_added n n' extra /\
      (forall x, x ∈ extra -> exists v, n_assign n = Some v /\ vars !! v = Some x) /\
      (id <> sink \/ n_assign n = None -> n' = n).
Proof.
  unfold patch_assign. intros H id n Hn.
  assert (exists n' extra, store !! id = Some n' /\ control_deps_added n n' extra /\
            (forall x, x ∈ extra -> exists v, n_assign n = Some v /\ vars !! v = Some x) /\
            (id <> sink \/ n_assign n = None -> n' = n)) as Hsame.
  { exists n, []. split; [exact Hn|]. split; [apply control_deps_added_nil|].
    split; [intros x Hx; inversion Hx | auto]. }
  destruct (store !! sink) as [m|] eqn:Hs; [|by injection H as <-].
  destruct (n_assign m) as [v|] eqn:Hv; [|by injection H as <-].
  destruct (vars !! v) as [rv|] eqn:Hrv; [|discriminate].
  injection H as <-.
  destruct (decide (id = sink)) as [->|Hne].
  - rewrite Hs in Hn. injection Hn as ->. rewrite lookup_insert_eq.
    exists (add_control_dependency n rv), [rv]. split; [reflexivity|].
    split; [reflexivity|]. split.
    + intros x Hx. apply list_elem_of_singleton in Hx as ->. eauto.
    + intros [Hc|Hc]; [contradiction | congruence].
  - rewrite lookup_insert_ne by congruence. exact Hsame.
Qed.

Lemma patch_fold_frame (vars : gmap string Z) (sinks : list Z) (store0 store : gmap Z Node) :
  fold_result (patch_assign vars) sinks store0 = Ok store ->
  forall id n, store0 !! id = Some n ->
    exists n' extra, store !! id = Some n' /\ control_deps_added n n' extra /\
      (forall x, x ∈ extra -> exists v, n_assign n = Some v /\ vars !! v = Some x) /\
      (id ∉ sinks \/ n_assign n = None -> n' = n).
Proof.
  revert store0. induction sinks as [|s sinks IH]; intros store0 H id n Hn; simpl in H.
  - injection H as <-. exists n, []. split; [exact Hn|].
    split; [apply control_deps_added_nil|]. split; [intros x Hx; inversion Hx | auto].
  - inv_bind H. rename a into store1.
    destruct (patch_assign_frame _ _ _ _ Ha id n Hn) as (n1 & x1 & Hn1 & Hd1 & Hx1 & Hs1).
    destruct (IH _ H id n1 Hn1) as (n2 & x2 & Hn2 & Hd2 & Hx2 & Hs2).
    assert (n_assign n1 = n_assign n) as Hassign by (by rewrite Hd1).
    exists n2, (x1 ++ x2). split; [exact Hn2|].
    split; [by eapply control_deps_added_trans|]. split.
    + intros x Hx. apply elem_of_app in Hx as [Hx|Hx]; [by apply Hx1|].
      rewrite <- Hassign. by apply Hx2.
    + intros Hc. rewrite Hs2, Hs1; [reflexivity| |].
      * destruct Hc as [Hc|Hc]; [left | by right]. intros ->. apply Hc. left.
      * destruct Hc as [Hc|Hc]; [left | right; congruence]. intros Hin. apply Hc. by right.
Qed.

(** X17.  What the pass over the sinks changes.  The function that is made
    has the results, sinks and parameters that were collected, and its nodes
    are the constructed nodes, each with possibly more control dependencies
    and otherwise unchanged: a node that is not a sink or not an Assign is
    the node that was constructed, and a dependency that was added is the
    ReadValue recorded for the variable of the Assign. *)
Theorem only_assign_sinks_gain_control_dependencies (root : option xml_node)
  (st : build_state) (f : Function) :
  make_function root st = Ok f ->
  f_results f = fn_results (func_nodes st) /\
  f_sinks f = fn_sinks (func_nodes st) /\
  f_parameters f = fn_parameters (func_nodes st) /\
  forall id n, id_to_node st !! id = Some n ->
    exists n' extra,
      f_nodes f !! id = Some n' /\ control_deps_added n n' extra /\
      (forall x, x ∈ extra ->
         exists v, n_assign n = Some v /\ variable_id_to_read_value st !! v = Some x) /\
      (id ∉ fn_sinks (func_nodes st) \/ n_assign n = None -> n' = n).
Proof.
  unfold make_function. intros H. inv_bind H. rename a into store. injection H as <-.
  simpl. repeat split. by apply patch_fold_frame.
Qed.

Lemma only_assign_sinks_gain_control_dependencies_witness :
  exists st f n, sample_build net_with_state = Ok st /\
                 make_function (Some net_with_state) st = Ok f /\
                 id_to_node st !! 3 = Some n /\ f_nodes f !! 3 = Some n.
Proof.
  pose (r := sample_build net_with_state).
  assert (sample_build net_with_state = r) as E by reflexivity.
  vm_compute in r.
  match goal with r := Ok ?s |- _ => exists s; subst r;
    pose (m := make_function (Some net_with_state) s);
    assert (make_function (Some net_with_state) s = m) as Em by reflexivity;
    pose (n := id_to_node s !! 3);
    assert (id_to_node s !! 3 = n) as En by reflexivity
  end.
  vm_compute in m. vm_compute in n.
  match goal with m := Ok ?f, n := Some ?x |- _ => exists f, x end. subst m n.
  split; [exact E|]. split; [exact Em|]. split; [exact En|].
  destruct (only_assign_sinks_gain_control_dependencies _ _ _ Em) as (_ & _ & _ & H).
  destruct (H 3 _ En) as (n' & extra & Hn' & _ & _ & Hsame).
  rewrite Hn'. f_equal. apply Hsame. right. reflexivity.
Defined.

(** ** The port maps of a sub-graph operator *)

Lemma extended_unconnected_refl (m0 : gmap Z Z) :
  extended_unconnected m0 m0 (fun _ => False).
Proof.
  split; [auto|]. intros id Hnone v. rewrite Hnone. split; [discriminate | tauto].
Qed.

Lemma extended_unconnected_iff (m0 m : gmap Z Z) (D D' : Z -> Prop) :
  (forall id, D id <-> D' id) -> extended_unconnected m0 m D -> extended_unconnected m0 m D'.
Proof.
  intros HD [Hkeep Hnew]. split; [exact Hkeep|].
  intros id Hnone v. by rewrite (Hnew id Hnone v), HD.
Qed.

Lemma extended_unconnected_step (m0 m : gmap Z Z) (D : Z -> Prop) (id : Z) :
  extended_unconnected m0 m D ->
  extended_unconnected m0 (insert_new id UINT64_MINUS_ONE m) (fun x => D x \/ x = id).
Proof.
  intros [Hkeep Hnew]. unfold insert_new.
  destruct (m !! id) as [w|] eqn:Hm.
  - split; [exact Hkeep|]. intros id' Hnone v. rewrite (Hnew id' Hnone v).
    split; [tauto|]. intros [-> [HD| ->]]; [auto|].
    apply (Hnew id Hnone) in Hm as [-> HD]. auto.
  - split.
    + intros id' v Hv. rewrite lookup_insert_ne; [by apply Hkeep|].
      intros <-. apply Hkeep in Hv. congruence.
    + intros id' Hnone v. destruct (decide (id' = id)) as [->|Hne].
      * rewrite lookup_insert_eq. split; [intros [= <-]; auto | intros [-> _]; reflexivity].
      * rewrite lookup_insert_ne by congruence. rewrite (Hnew id' Hnone v).
        split; [tauto|]. intros [-> [HD|Heq]]; [auto | contradiction].
Qed.

Lemma declares_snoc (done : list xml_node) (layer : xml_node) (type_ : string) (id : Z) :
  declares (done ++ [layer]) type_ id <->
  declares done type_ id \/
  (XMLParseUtils.GetStrAttr (Some layer) "type" = Ok type_ /\
   XMLParseUtils.GetUIntAttr (Some layer) "id" = Ok id).
Proof.
  split.
  - intros (l & Hin & Hty & Hid). apply elem_of_app in Hin as [Hin|Hin].
    + left. by exists l.
    + apply list_elem_of_singleton in Hin as ->. by right.
  - intros [(l & Hin & H)|H].
    + exists l. split; [apply elem_of_app; by left | exact H].
    + exists layer. split; [apply elem_of_app; right; left | exact H].
Qed.

(** X18.  The port map extended for a body.  [updated_io_map] needs a <body>
    child.  It keeps every entry of the map it starts from, and adds, as
    unconnected (the value -1 of a uint64_t), exactly the ids of the body
    layers of type Parameter to the inputs and of type Result to the outputs
    that the map did not hold. *)
Theorem updated_io_map_adds_unconnected_body_ports (io : IoMap) (node : option xml_node) :
  (child node "body" = None ->
   updated_io_map io node = Throw (IE_exception "Missing body part.")) /\
  (forall io', updated_io_map io node = Ok io' ->
     extended_unconnected (io_inputs io) (io_inputs io')
                          (declares (body_layers_of node) "Parameter") /\
     extended_unconnected (io_outputs io) (io_outputs io')
                          (declares (body_layers_of node) "Result")).
Proof.
  unfold updated_io_map, body_layers_of. split; [by intros ->|].
  intros io' H. destruct (child node "body") as [body|]; [|discriminate].
  apply (fold_result_inv extend_io_map
           (fun io' done =>
              extended_unconnected (io_inputs io) (io_inputs io') (declares done "Parameter") /\
              extended_unconnected (io_outputs io) (io_outputs io') (declares done "Result")))
    in H; [exact H| |].
  - split; (eapply extended_unconnected_iff; [|apply extended_unconnected_refl]);
      intros id; (split; [tauto|]); intros (l & Hin & _); inversion Hin.
  - intros st done layer rest st' _ [Hin Hout] Hstep.
    unfold extend_io_map in Hstep. inv_bind Hstep. rename a into ty.
    assert (forall ty' id, ty' <> ty ->
              declares (done ++ [layer]) ty' id <-> declares done ty' id) as Hother.
    { intros ty' id Hne. rewrite declares_snoc. split; [|tauto].
      intros [?|[Hty _]]; [done | congruence]. }
    destruct (String.eqb_spec ty "Parameter") as [->|Hp].
    + inv_bind Hstep. rename a into id. injection Hstep as <-. simpl. split.
      * eapply extended_unconnected_iff;
          [|exact (extended_unconnected_step _ _ (declares done "Parameter") id Hin)].
        intros id'. cbv beta. rewrite declares_snoc. split.
        -- intros [?| ->]; auto.
        -- intros [?|[_ Hid]]; [auto | right; congruence].
      * eapply extended_unconnected_iff; [|exact Hout].
        intros id'. symmetry. by apply Hother.
    + destruct (String.eqb_spec ty "Result") as [->|Hr].
      * inv_bind Hstep. rename a into id. injection Hstep as <-. simpl. split.
        -- eapply extended_unconnected_iff; [|exact Hin].
           intros id'. symmetry. by apply Hother.
        -- eapply extended_unconnected_iff;
             [|exact (extended_unconnected_step _ _ (declares done "Result") id Hout)].
           intros id'. cbv beta. rewrite declares_snoc. split.
           ++ intros [?| ->]; auto.
           ++ intros [?|[_ Hid]]; [auto | right; congruence].
      * injection Hstep as <-. split.
        -- eapply extended_unconnected_iff; [|exact Hin].
           intros id'. symmetry. apply Hother. congruence.
        -- eapply extended_unconnected_iff; [|exact Hout].
           intros id'. symmetry. apply Hother. congruence.
Qed.

Lemma updated_io_map_adds_unconnected_body_ports_witness :
  exists io', updated_io_map (mkIoMap (<[5 := 0]> ∅) ∅) (Some (sample_loop [] [] [])) = Ok io' /\
              io_inputs io' !! 5 = Some 0 /\
              io_inputs io' !! 6 = Some UINT64_MINUS_ONE.
Proof.
  pose (r := updated_io_map (mkIoMap (<[5 := 0]> ∅) ∅) (Some (sample_loop [] [] []))).
  assert (updated_io_map (mkIoMap (<[5 := 0]> ∅) ∅) (Some (sample_loop [] [] [])) = r)
    as E by reflexivity.
  vm_compute in r.
  match goal with r := Ok ?s |- _ => exists s end. subst r.
  split; [exact E|].
  destruct (updated_io_map_adds_unconnected_body_ports
              (mkIoMap (<[5 := 0]> ∅) ∅) (Some (sample_loop [] [] []))) as [_ H].
  destruct (H _ E) as [[Hkeep Hnew] _].
  split; [by apply Hkeep|].
  apply (Hnew 6 eq_refl). split; [reflexivity|].
  exists (body_layer "6" "Parameter"). split; [|split; reflexivity].
  apply list_elem_of_In. vm_compute. auto.
Defined.

Lemma purpose_fold (wanted : string) (indices : gmap Z Z) (entries : list (Z * xml_node))
  (idx0 idx : Z) :
  fold_result (purpose_step wanted indices) entries idx0 = Ok idx ->
  match last (List.filter (has_purpose wanted) entries) with
  | None => idx = idx0
  | Some entry =>
      exists id v, XMLParseUtils.GetUIntAttr (Some (snd entry)) "internal_layer_id" = Ok id /\
                   indices !! id = Some v /\ idx = to_int64 v
  end.
Proof.
  revert idx0. induction entries as [|x entries IH]; intros idx0 H; simpl in H.
  - by injection H as <-.
  - inv_bind H. rename a into idx1. specialize (IH _ H).
    unfold purpose_step in Ha. inv_bind Ha. rename a into id.
    cbn [List.filter]. unfold has_purpose at 1.
    destruct (String.eqb (XMLParseUtils.GetStrAttr_def (Some x.2) "purpose" "") wanted).
    + inv_bind Ha. rename a into v. injection Ha as <-.
      rewrite last_cons.
      destruct (last (List.filter (has_purpose wanted) entries)); [exact IH|].
      exists id, v. split; [exact Ha0|]. split; [by apply map_at_Ok | exact IH].
    + injection Ha as <-. exact IH.
Qed.

(** X19.  The special ports of a Loop body.  When [parsePurposeAttribute]
    returns, the body declares a parameter or a result or the port map held
    one already; the index of the current iteration is the one that the
    extended port map gives the body parameter of the last <input>, in the
    order of external_port_id, that has the purpose current_iteration, read
    as an int64_t, and -1 when no input has this purpose; the index of the
    execution condition is found in the same way among the outputs. *)
Theorem special_body_ports_from_last_purpose (io : IoMap) (node : option xml_node)
  (r : SpecialBodyPorts) :
  parsePurposeAttribute io node = Ok r ->
  exists up input_map output_map,
    updated_io_map io node = Ok up /\
    (io_inputs up <> ∅ \/ io_outputs up <> ∅) /\
    port_map_entries to_size_t node "input" = Ok input_map /\
    port_map_entries (fun k => k) node "output" = Ok output_map /\
    purpose_index "current_iteration" (io_inputs up) input_map
                  (current_iteration_input_idx r) /\
    purpose_index "execution_condition" (io_outputs up) output_map
                  (body_condition_output_idx r).
Proof.
  unfold parsePurposeAttribute. intros H. inv_bind H. rename a into up.
  destruct (bool_decide (io_inputs up = ∅) && bool_decide (io_outputs up = ∅)) eqn:Hempty;
    [discriminate|].
  inv_bind H. rename a into input_map. inv_bind H. rename a into output_map.
  inv_bind H. rename a into current. inv_bind H. rename a into condition.
  injection H as <-. exists up, input_map, output_map.
  split; [exact Ha|]. split.
  { apply andb_false_iff in Hempty as [E|E]; apply bool_decide_eq_false in E; auto. }
  split; [exact Ha0|]. split; [exact Ha1|]. simpl. unfold purpose_index.
  split.
  - apply purpose_fold in Ha2.
    by destruct (last (List.filter (has_purpose "current_iteration") input_map)).
  - apply purpose_fold in Ha3.
    by destruct (last (List.filter (has_purpose "execution_condition") output_map)).
Qed.

Lemma special_body_ports_from_last_purpose_witness :
  parsePurposeAttribute sample_io_map (Some sample_loop_with_purposes)
    = Ok (mkSpecialBodyPorts 0 1) /\
  exists up, updated_io_map sample_io_map (Some sample_loop_with_purposes) = Ok up.
Proof.
  assert (parsePurposeAttribute sample_io_map (Some sample_loop_with_purposes)
          = Ok (mkSpecialBodyPorts 0 1)) as E by (vm_compute; reflexivity).
  split; [exact E|].
  destruct (special_body_ports_from_last_purpose _ _ _ E) as (up & _ & _ & Hup & _).
  by exists up.
Defined.

(** ** The buffer of a constant *)

(** X20.  Where a buffer comes from.  A buffer that owns its bytes is a copy
    of the attribute of that name in <data>.  A buffer that is a view of the
    weights is made only for the attribute "value" when <data> has no such
    attribute; it refers to the weights of the deserializer, and it lies
    within them: offset and size are not negative and offset + size is at
    most the size of the weights. *)
Theorem buffer_is_attribute_copy_or_view_within_weights (m_node : option xml_node)
  (m_weights : Blob) (name : string) (buffer : AlignedBuffer) :
  on_adapter_aligned_buffer m_node m_weights name = Ok (Some buffer) ->
  match buffer with
  | OwnedBuffer chars => getStrAttribute (child m_node "data") name = Some chars
  | SharedBuffer data size owner =>
      owner = m_weights /\ name = "value" /\
      getStrAttribute (child m_node "data") "value" = None /\
      0 <= data /\ 0 <= size /\ data + size <= byteSize m_weights
  end.
Proof.
  unfold on_adapter_aligned_buffer. intros H.
  destruct (string_in name skip_names &&
            match getStrAttribute (child m_node "data") name with
            | Some _ => false
            | None => true
            end); [discriminate|].
  inv_bind H. rename a into type_.
  destruct (child m_node "data") as [dn|] eqn:Hdn; [|discriminate].
  destruct (getStrAttribute (Some dn) name) as [value|] eqn:Hval.
  - by injection H as <-.
  - destruct (String.eqb_spec name "value") as [->|Hname]; [|discriminate].
    destruct (String.eqb type_ "Const"); [|discriminate]. cbn [andb] in H.
    inv_bind H. rename a into offset. inv_bind H. rename a into size.
    destruct (getStrAttribute (Some dn) "element_type"); [|discriminate].
    inv_bind H. destruct a as [shape|]; [|discriminate].
    inv_bind H. rename a into el_type.
    destruct (byteSize m_weights =? 0); [discriminate|].
    destruct (Z.ltb_spec (byteSize m_weights) (to_size_t (offset + size))) as [|Hfit];
      [discriminate|].
    destruct (size_below_shape size shape el_type); [discriminate|].
    injection H as <-.
    apply get_number_range in Ha0, Ha1.
    unfold to_size_t, SIZE_MOD, INT64_MAX in *.
    rewrite Z.mod_small in Hfit by lia.
    repeat split; auto; lia.
Qed.

Lemma buffer_is_attribute_copy_or_view_within_weights_witness :
  on_adapter_aligned_buffer (Some (const_layer "0" "8" "f32" "2")) sample_weights "value"
    = Ok (Some (SharedBuffer 0 8 sample_weights)) /\
  0 + 8 <= byteSize sample_weights.
Proof.
  assert (on_adapter_aligned_buffer (Some (const_layer "0" "8" "f32" "2")) sample_weights
                                    "value"
          = Ok (Some (SharedBuffer 0 8 sample_weights))) as E by (vm_compute; reflexivity).
  split; [exact E|].
  by destruct (buffer_is_attribute_copy_or_view_within_weights _ _ _ _ E)
    as (_ & _ & _ & _ & _ & H).
Defined.

(** ** The order of the parameters, results and sinks *)

Section RootOrder.

Variable E0 : gmap Z (list edge).

Lemma dfs_root_last (budget : nat) (id : Z) (st st' : dfs_state) :
  dfs budget id st = Some st' -> same_edges E0 st -> id ∉ d_used st ->
  exists new, dfs_extends E0 st st' (new ++ [id]) /\
              forall x, x ∈ new -> tc (feeds E0) id x.
Proof.
  intros H Hs Hfresh.
  destruct (dfs_sound E0 _ _ _ _ H Hs) as (new0 & Hext & Hid & Hr).
  assert (exists pre, d_order st' = pre ++ [id]) as [pre Hpre].
  { destruct budget as [|b]; [discriminate|]. simpl in H.
    case_bool_decide; [contradiction|].
    match type of H with
    | context [fold_option ?f ?l ?s] => destruct (fold_option f l s) as [st2|]
    end; [|discriminate].
    simpl in H. injection H as <-. simpl. eauto. }
  pose proof Hext as (_ & _ & _ & Ho & Hnd & Hn & _).
  assert (id ∈ new0) as Hin by (by apply Hn).
  destruct (exists_last (l := new0)) as (new & y & ->); [by intros ->; inversion Hin|].
  rewrite Ho, app_assoc in Hpre. apply app_inj_tail in Hpre as [_ ->].
  exists new. split; [exact Hext|].
  intros x Hx.
  assert (rtc (feeds E0) id x) as Hrtc by (apply Hr, elem_of_app; by left).
  apply rtc_tc in Hrtc as [<-|Htc]; [|exact Htc].
  exfalso. apply NoDup_app in Hnd as (_ & Hdisj & _). apply (Hdisj id Hx). left.
Qed.

Lemma roots_in_order (S : list Z) (b : nat) :
  (forall o o', o ∈ S -> o' ∈ S -> ~ tc (feeds E0) o o') ->
  forall ids st st',
    fold_option (dfs b) ids st = Some st' -> same_edges E0 st -> NoDup ids ->
    (forall i, i ∈ ids -> i ∈ S /\ i ∉ d_used st) ->
    exists new, dfs_extends E0 st st' new /\
                List.filter (fun x => bool_decide (x ∈ S)) new = ids.
Proof.
  intros Hsep ids. induction ids as [|i ids IH]; intros st st' H Hs Hnd Hids; simpl in H.
  - injection H as <-. exists []. split; [by apply dfs_extends_refl | reflexivity].
  - destruct (dfs b i st) as [st1|] eqn:Hv; [|discriminate]. simpl in H.
    destruct (Hids i (list_elem_of_here _ _)) as [HiS Hifresh].
    destruct (dfs_root_last _ _ _ _ Hv Hs Hifresh) as (new1 & Hext1 & Hreach).
    apply NoDup_cons in Hnd as [Hi Hnd].
    destruct (IH st1 st' H (proj1 Hext1) Hnd) as (new2 & Hext2 & Hfilter).
    { intros j Hj. destruct (Hids j (list_elem_of_further _ _ _ Hj)) as [HjS Hjfresh].
      split; [exact HjS|]. intros Hused.
      destruct Hext1 as (_ & _ & _ & _ & _ & Hn & _).
      assert (j ∈ new1 ++ [i]) as Hjn by (by apply Hn).
      apply elem_of_app in Hjn as [Hjn|Hjn].
      - by apply (Hsep i j HiS HjS), Hreach.
      - apply list_elem_of_singleton in Hjn as ->. contradiction. }
    exists ((new1 ++ [i]) ++ new2). split; [by eapply dfs_extends_trans|].
    rewrite !List.filter_app, Hfilter. simpl.
    rewrite (bool_decide_eq_true_2 _ HiS).
    replace (List.filter (fun x => bool_decide (x ∈ S)) new1) with (@nil Z); [reflexivity|].
    symmetry.
    rewrite (List.filter_ext_in (fun x => bool_decide (x ∈ S)) (fun _ => false)).
    + clear. induction new1; simpl; auto.
    + intros x Hx. apply bool_decide_eq_false_2. intros HxS.
      apply (Hsep i x HiS HxS), Hreach. by apply list_elem_of_In.
Qed.

End RootOrder.

Lemma topological_order_roots (edges : gmap Z (list edge)) (outputs : list Z)
  (d : dfs_state) :
  topological_order edges outputs = Some d ->
  NoDup outputs ->
  (forall o o', o ∈ outputs -> o' ∈ outputs -> ~ tc (feeds edges) o o') ->
  List.filter (fun x => bool_decide (x ∈ outputs)) (d_order d) = outputs.
Proof.
  unfold topological_order. intros H Hnd Hsep.
  destruct (roots_in_order edges outputs _ Hsep outputs _ _ H) as (new & Hext & Hf).
  - intros x. reflexivity.
  - exact Hnd.
  - intros i Hi. split; [exact Hi|]. simpl. set_solver.
  - destruct Hext as (_ & _ & _ & Ho & _). simpl in Ho. by rewrite Ho.
Qed.

Lemma read_layers_outputs_order (root : option xml_node) (layers : layer_table) :
  read_layers root = Ok layers ->
  exists ps, Forall2 (fun node p => parseGenericParams node = Ok p) (layer_nodes_of root) ps /\
             lt_outputs layers = layerId <$> List.filter is_output_type ps.
Proof.
  unfold read_layers. fold (layer_nodes_of root).
  apply (fold_result_inv read_layer
           (fun t done =>
              exists ps, Forall2 (fun node p => parseGenericParams node = Ok p) done ps /\
                         lt_outputs t = layerId <$> List.filter is_output_type ps)).
  - exists []. split; [constructor | reflexivity].
  - intros t done node rest t' _ (ps & Hps & Hout) Hstep.
    unfold read_layer in Hstep. inv_bind Hstep. rename a into p.
    destruct (bool_decide (name p ∈ lt_opName t) && negb (String.eqb (type p) "Result"));
      [discriminate|].
    injection Hstep as <-. simpl. exists (ps ++ [p]). split.
    + apply Forall2_app; [exact Hps|]. by constructor.
    + rewrite List.filter_app, fmap_app, <- Hout. simpl. unfold is_output_type.
      destruct (String.eqb (type p) "Result" || String.eqb (type p) "Assign");
        [reflexivity | by rewrite app_nil_r].
Qed.

Section BuildClasses.

Context {Op : Type}.
Variable construct :
  Op -> gmap Z Node -> list (option Output) -> option xml_node -> Blob -> result Node.
Variable m_opsets : gmap string (OpSet Op).
Variable m_use_framework_node : bool.
Variable weights : Blob.

Lemma filter_class_step (P : Node -> bool) (store : gmap Z Node) (done : list Z)
  (id : Z) (node : Node) :
  id ∉ done ->
  List.filter (node_has P (<[id := node]> store)) (done ++ [id])
  = (if P node then List.filter (node_has P store) done ++ [id]
     else List.filter (node_has P store) done).
Proof.
  intros Hnew. rewrite List.filter_app. simpl. unfold node_has at 2.
  rewrite lookup_insert_eq.
  rewrite (List.filter_ext_in (node_has P (<[id:=node]> store)) (node_has P store)).
  - destruct (P node); [reflexivity | by rewrite app_nil_r].
  - intros x Hx. unfold node_has. rewrite lookup_insert_ne; [reflexivity|].
    intros <-. apply Hnew. by apply list_elem_of_In.
Qed.

Lemma build_nodes_classes (params : gmap Z node_params) (edges : gmap Z (list edge))
  (order : list Z) (io : IoMap) (st : build_state) :
  build_nodes Op construct m_opsets m_use_framework_node weights params edges order io = Ok st ->
  NoDup order -> (forall x, x ∈ order -> is_Some (edges !! x)) ->
  fn_parameters (func_nodes st) = List.filter (node_has n_is_parameter (id_to_node st)) order /\
  fn_results (func_nodes st) = List.filter (node_has n_is_result (id_to_node st)) order /\
  fn_sinks (func_nodes st) = List.filter (node_has n_is_sink (id_to_node st)) order.
Proof.
  unfold build_nodes. intros H Hnd Hedges.
  apply (fold_result_inv _
           (fun st done =>
              fn_parameters (func_nodes st)
                = List.filter (node_has n_is_parameter (id_to_node st)) done /\
              fn_results (func_nodes st)
                = List.filter (node_has n_is_result (id_to_node st)) done /\
              fn_sinks (func_nodes st)
                = List.filter (node_has n_is_sink (id_to_node st)) done)) in H; [exact H| |].
  - simpl. auto.
  - intros s done a rest s' Horder (Hp & Hr & Hs) Hstep.
    assert (a ∈ order) as Ha by (rewrite Horder; apply elem_of_app; right; left).
    assert (a ∉ done) as Hnew.
    { rewrite Horder in Hnd. apply NoDup_app in Hnd as (_ & Hdisj & _).
      intros Hin'. apply (Hdisj a Hin'). left. }
    destruct (build_layer_indexes _ _ _ _ _ _ _ _ _ Hstep (Hedges a Ha)) as [node ->].
    unfold index_node.
    destruct (n_is_parameter node) eqn:Ep, (n_is_result node) eqn:Er; simpl;
      rewrite !filter_class_step by exact Hnew; rewrite Ep, Er, Hp, Hr, Hs; auto.
Qed.

(** X21.  The parameters, the results and the sinks of a function are listed
    in the order of construction: each of the three lists is the list of all
    constructed nodes, restricted to the nodes of its class. *)
Theorem class_lists_follow_construction_order (root : option xml_node) (io : IoMap)
  (st : build_state) :
  construct_function_nodes Op construct m_opsets m_use_framework_node root weights io = Ok st ->
  let all := fn_all (func_nodes st) in
  fn_parameters (func_nodes st) = List.filter (node_has n_is_parameter (id_to_node st)) all /\
  fn_results (func_nodes st) = List.filter (node_has n_is_result (id_to_node st)) all /\
  fn_sinks (func_nodes st) = List.filter (node_has n_is_sink (id_to_node st)) all.
Proof.
  intros H all. unfold all. clear all.
  unfold construct_function_nodes in H.
  inv_bind H. rename a into layers. inv_bind H. rename a into edges.
  destruct (topological_order_total edges (lt_outputs layers))
    as (d & Hd & Hs & Hnd & Hreach & Hentries).
  rewrite Hd in H.
  pose proof (build_nodes_inv _ _ _ _ _ _ _ _ _ H Hnd Hentries) as (_ & -> & _).
  by apply (build_nodes_classes _ _ _ _ _ H).
Qed.

(** X22.  The output layers are built in document order.  The layers of type
    Result or Assign are the roots of the search, in the order of their
    <layer> nodes.  When their ids differ and none of them is reached from
    one of them along one or more edges, the constructed nodes, restricted to
    these layers, are these layers in document order. *)
Theorem output_layers_built_in_document_order (root : option xml_node) (io : IoMap)
  (st : build_state) (layers : layer_table) (edges : gmap Z (list edge)) :
  construct_function_nodes Op construct m_opsets m_use_framework_node root weights io = Ok st ->
  read_layers root = Ok layers -> read_edges root = Ok edges ->
  NoDup (lt_outputs layers) ->
  (forall o o', o ∈ lt_outputs layers -> o' ∈ lt_outputs layers -> ~ tc (feeds edges) o o') ->
  (exists ps, Forall2 (fun node p => parseGenericParams node = Ok p) (layer_nodes_of root) ps /\
              lt_outputs layers = layerId <$> List.filter is_output_type ps) /\
  List.filter (fun x => bool_decide (x ∈ lt_outputs layers)) (fn_all (func_nodes st))
  = lt_outputs layers.
Proof.
  intros H Hl He Hnd Hsep. split; [by apply read_layers_outputs_order|].
  unfold construct_function_nodes in H. rewrite Hl, He in H.
  unfold mbind, result_bind in H. cbv beta iota in H.
  destruct (topological_order_total edges (lt_outputs layers))
    as (d & Hd & Hs & Hnd' & Hreach & Hentries).
  rewrite Hd in H.
  pose proof (build_nodes_inv _ _ _ _ _ _ _ _ _ H Hnd' Hentries) as (_ & -> & _).
  by apply (topological_order_roots edges).
Qed.

End BuildClasses.

Lemma class_lists_follow_construction_order_witness :
  exists st, sample_build net_with_state = Ok st /\
             fn_all (func_nodes st) = [1; 3; 9; 10] /\
             fn_results (func_nodes st) = [10] /\ fn_sinks (func_nodes st) = [9].
Proof.
  pose (r := sample_build net_with_state).
  assert (sample_build net_with_state = r) as E by reflexivity.
  vm_compute in r.
  match goal with r := Ok ?s |- _ => exists s end. subst r.
  split; [exact E|]. split; [reflexivity|].
  destruct (class_lists_follow_construction_order _ _ _ _ _ _ _ E) as (_ & Hr & Hs).
  split; [rewrite Hr | rewrite Hs]; reflexivity.
Defined.

Lemma tc_stays (R : relation Z) (I : Z -> Prop) :
  (forall x y, I x -> R x y -> I y) ->
  forall x y, tc R x y -> (forall z, R x z -> I z) -> I y.
Proof.
  intros Hc x y Htc. induction Htc as [x y Hxy|x y z Hxy Hyz IH]; intros Hx.
  - by apply Hx.
  - apply IH. intros w Hyw. apply (Hc y w); [by apply Hx | exact Hyw].
Qed.

Lemma output_layers_built_in_document_order_witness :
  exists st, sample_build net_with_state = Ok st /\
             List.filter (fun x => bool_decide (x ∈ [9; 10])) (fn_all (func_nodes st))
             = [9; 10].
Proof.
  pose (r := sample_build net_with_state).
  assert (sample_build net_with_state = r) as E by reflexivity.
  pose (rl := read_layers (Some net_with_state)).
  assert (read_layers (Some net_with_state) = rl) as El by reflexivity.
  vm_compute in r, rl.
  set (e := <[10 := [mkEdge 3 1 0]]> (<[9 := [mkEdge 3 1 0]]> (<[3 := [mkEdge 1 0 0]]> ∅))
            : gmap Z (list edge)).
  assert (read_edges (Some net_with_state) = Ok e) as Ee by (vm_compute; reflexivity).
  assert (forall x y, feeds e x y ->
            (x = 10 /\ y = 3) \/ (x = 9 /\ y = 3) \/ (x = 3 /\ y = 1)) as Hfeeds.
  { intros x y (ed & Hin & <-). unfold edges_at, e in Hin.
    destruct (decide (x = 10)) as [->|H10].
    { rewrite lookup_insert_eq in Hin. apply list_elem_of_singleton in Hin as ->. auto. }
    rewrite lookup_insert_ne in Hin by congruence.
    destruct (decide (x = 9)) as [->|H9].
    { rewrite lookup_insert_eq in Hin. apply list_elem_of_singleton in Hin as ->. auto. }
    rewrite lookup_insert_ne in Hin by congruence.
    destruct (decide (x = 3)) as [->|H3].
    { rewrite lookup_insert_eq in Hin. apply list_elem_of_singleton in Hin as ->. auto. }
    rewrite lookup_insert_ne in Hin by congruence.
    rewrite lookup_empty in Hin. inversion Hin. }
  match goal with r := Ok ?s, rl := Ok ?l |- _ =>
    exists s; split; [exact E|];
    destruct (output_layers_built_in_document_order _ _ _ _ _ _ s l e E El Ee) as [_ H]
  end.
  - simpl. apply NoDup_cons. split; [|apply NoDup_singleton].
    intros Hin. apply list_elem_of_singleton in Hin. discriminate.
  - simpl. intros o o' Ho Ho' Htc.
    assert (o' = 3 \/ o' = 1) as Hbelow.
    { apply (tc_stays (feeds e) (fun x => x = 3 \/ x = 1)) with (x := o); [| exact Htc |].
      - intros x y Hx Hf. apply Hfeeds in Hf. lia.
      - intros z Hf. apply Hfeeds in Hf. lia. }
    apply elem_of_cons in Ho' as [->|Ho']; [lia|].
    apply list_elem_of_singleton in Ho' as ->. lia.
  - exact H.
Defined.

(** ** The arguments of the constructed nodes *)

Section Arguments.

Context {Op : Type}.
Variable construct :
  Op -> gmap Z Node -> list (option Output) -> option xml_node -> Blob -> result Node.
Variable m_opsets : gmap string (OpSet Op).
Variable m_use_framework_node : bool.
Variable weights : Blob.

(** [set_arguments]: the operator library leaves the arguments it is given
    on the node. *)
Hypothesis construct_sets_arguments :
  forall op store inputs node w n,
    construct op store inputs node w = Ok n -> n_inputs n = inputs.

Lemma createNode_arguments store inputs node params (n : Node) :
  createNode Op construct m_opsets m_use_framework_node store inputs node weights params = Ok n ->
  n_inputs n = inputs.
Proof.
  unfold createNode. intros H. inv_bind H. inv_bind H. rename a0 into created.
  assert (forall m, created = Some m -> n_inputs m = inputs) as Hcreated.
  { intros m ->.
    destruct (if string_in (type params) experimental_ops_added_to_opset &&
                 (String.eqb (version params) "experimental" ||
                  String.eqb (version params) "extension")
              then m_opsets !! "opset6" else m_opsets !! version params) as [o|];
      [|discriminate].
    inv_bind Ha0. injection Ha0 as ->.
    unfold create_from_opset in Ha1. inv_bind Ha1.
    destruct (create_insensitive Op a0 _) as [op|]; [|discriminate].
    by eapply construct_sets_arguments. }
  inv_bind H. rename a0 into final.
  destruct final as [m|]; [|discriminate]. injection H as <-. simpl.
  destruct created as [c|].
  - injection Ha1 as ->. by apply Hcreated.
  - destruct m_use_framework_node; [|discriminate].
    inv_bind Ha1. injection Ha1 as <-.
    unfold framework_node in Ha2.
    destruct (FrameworkNode_visit_attributes (FrameworkNode inputs) node) as [v|] eqn:Hv;
      [|discriminate].
    simpl in Ha2. injection Ha2 as <-. unfold FrameworkNode_visit_attributes in Hv.
    destruct (on_adapter_framework_node_attrs node "framework_node_attrs"); [|discriminate].
    simpl in Hv. by injection Hv as <-.
Qed.

Lemma build_nodes_arguments (params : gmap Z node_params) (edges : gmap Z (list edge))
  (order : list Z) (io : IoMap) (st : build_state) :
  build_nodes Op construct m_opsets m_use_framework_node weights params edges order io = Ok st ->
  NoDup order -> (forall x, x ∈ order -> is_Some (edges !! x)) ->
  forall id n, id_to_node st !! id = Some n ->
    length (n_inputs n) = length (edges_at edges id) /\
    forall i, (i < length (n_inputs n))%nat ->
      exists out e, n_inputs n !! i = Some (Some out) /\
                    e ∈ edges_at edges id /\
                    wired_by params (id_to_node st) (np_params (params_at params id)) e i out /\
                    precedes order (out_node out) id.
Proof.
  unfold build_nodes. intros H Hnd Hedges.
  apply (fold_result_inv _
           (fun st done =>
              build_inv st done /\
              forall id n, id_to_node st !! id = Some n ->
                length (n_inputs n) = length (edges_at edges id) /\
                forall i, (i < length (n_inputs n))%nat ->
                  exists out e, n_inputs n !! i = Some (Some out) /\
                    e ∈ edges_at edges id /\
                    wired_by params (id_to_node st) (np_params (params_at params id)) e i out /\
                    exists pre post, done = pre ++ id :: post /\ out_node out ∈ pre)) in H.
  - destruct H as [_ H]. intros id n Hn. destruct (H id n Hn) as [Hlen Hslots].
    split; [exact Hlen|]. intros i Hi.
    destruct (Hslots i Hi) as (out & e & Hout & He & Hw & pre & post & Ho & Hpre).
    exists out, e. split; [exact Hout|]. split; [exact He|]. split; [exact Hw|].
    by exists pre, post.
  - split.
    + unfold build_inv. simpl.
      repeat split; try (intros Hx; inversion Hx; fail);
        try (intros (n & Hn & _); rewrite lookup_empty in Hn; discriminate);
        try (intros [n Hn]; rewrite lookup_empty in Hn; discriminate).
      * intros v id Hv. rewrite lookup_empty in Hv. discriminate.
      * intros id n v Hn. rewrite lookup_empty in Hn. discriminate.
    + intros id n Hn. simpl in Hn. rewrite lookup_empty in Hn. discriminate.
  - intros s done a rest s' Horder [Hinv Hargs] Hstep.
    assert (a ∈ order) as Ha by (rewrite Horder; apply elem_of_app; right; left).
    assert (a ∉ done) as Hnew.
    { rewrite Horder in Hnd. apply NoDup_app in Hnd as (_ & Hdisj & _).
      intros Hin'. apply (Hdisj a Hin'). left. }
    pose proof Hinv as (Hdom & _).
    assert (id_to_node s !! a = None) as Hnone.
    { destruct (id_to_node s !! a) eqn:E; [|reflexivity]. exfalso. apply Hnew, Hdom. eauto. }
    unfold build_layer in Hstep. destruct (Hedges a Ha) as [es Hes]. rewrite Hes in Hstep.
    inv_bind Hstep. rename a0 into inputs. inv_bind Hstep. rename a0 into node.
    injection Hstep as <-.
    split; [by apply index_node_inv|].
    assert (id_to_node (index_node s a node) = <[a := node]> (id_to_node s)) as Hstore
      by (unfold index_node; by destruct (n_is_parameter node), (n_is_result node)).
    rewrite Hstore.
    assert (forall p e i out, wired_by params (id_to_node s) p e i out ->
                              wired_by params (<[a := node]> (id_to_node s)) p e i out)
      as Hmono.
    { intros p e i out (H1 & H2 & H3 & [m Hm]).
      split; [exact H1|]. split; [exact H2|]. split; [exact H3|].
      destruct (decide (fromLayerId e = a)) as [Heq|Hne].
      - rewrite Heq, lookup_insert_eq. eauto.
      - rewrite lookup_insert_ne by congruence. eauto. }
    intros id n Hn. destruct (decide (id = a)) as [->|Hne].
    + rewrite lookup_insert_eq in Hn. injection Hn as <-.
      pose proof (createNode_arguments _ _ _ _ _ Ha1) as Hin.
      pose proof (createNode_checks _ _ _ _ _ _ _ _ _ Ha1) as Hc.
      unfold gather_inputs in Ha0.
      destruct (gather_fold _ _ _ _ _ _ Ha0) as (Hlen & _ & _ & Hback).
      rewrite length_replicate in Hlen. rewrite Hin.
      unfold edges_at. rewrite Hes. simpl. split; [exact Hlen|].
      intros i Hi. destruct (check_inputs_Ok _ _ _ Hc i Hi) as (out & Hout & _).
      destruct (Hback i out Hout) as [H0|(e & He & Hw)].
      { apply lookup_replicate in H0 as [H0 _]. discriminate. }
      exists out, e. split; [exact Hout|]. split; [exact He|]. split; [by apply Hmono|].
      exists done, []. split; [reflexivity|].
      destruct Hw as (_ & -> & _ & Hsrc). by apply Hdom.
    + rewrite lookup_insert_ne in Hn by congruence.
      destruct (Hargs id n Hn) as [Hlen Hslots]. split; [exact Hlen|].
      intros i Hi.
      destruct (Hslots i Hi) as (out & e & Hout & He & Hw & pre & post & Ho & Hpre).
      exists out, e. split; [exact Hout|]. split; [exact He|]. split; [by apply Hmono|].
      exists pre, (post ++ [a]). split; [|exact Hpre].
      by rewrite Ho, <- app_assoc.
Qed.

(** X23.  The arguments of the nodes.  With an operator library that leaves
    on a node the arguments it is given: every constructed node has one
    argument per edge that leads to its layer; each argument is bound, to the
    output that one of these edges names, of a node that was constructed
    before it and is a node of the function. *)
Theorem node_arguments_are_outputs_of_earlier_nodes (root : option xml_node) (io : IoMap)
  (st : build_state) (edges : gmap Z (list edge)) :
  construct_function_nodes Op construct m_opsets m_use_framework_node root weights io = Ok st ->
  read_edges root = Ok edges ->
  forall id n, id_to_node st !! id = Some n ->
    length (n_inputs n) = length (edges_at edges id) /\
    forall i, (i < length (n_inputs n))%nat ->
      exists out e, n_inputs n !! i = Some (Some out) /\
                    e ∈ edges_at edges id /\ out_node out = fromLayerId e /\
                    is_Some (id_to_node st !! out_node out) /\
                    precedes (fn_all (func_nodes st)) (out_node out) id.
Proof.
  intros H He id n Hn. unfold construct_function_nodes in H.
  inv_bind H. rename a into layers. rewrite He in H.
  unfold mbind, result_bind in H. cbv beta iota in H.
  destruct (topological_order_total edges (lt_outputs layers))
    as (d & Hd & Hs & Hnd & Hreach & Hentries).
  rewrite Hd in H.
  pose proof (build_nodes_inv _ _ _ _ _ _ _ _ _ H Hnd Hentries) as (_ & -> & _).
  destruct (build_nodes_arguments _ _ _ _ _ H Hnd Hentries id n Hn) as [Hlen Hslots].
  rewrite Hs in Hlen. split; [exact Hlen|].
  intros i Hi. destruct (Hslots i Hi) as (out & e & Hout & Hin & Hw & Hpre).
  exists out, e. split; [exact Hout|]. split; [by rewrite <- Hs|].
  destruct Hw as (_ & Hnode & _ & Hsrc).
  split; [exact Hnode|]. split; [by rewrite Hnode | exact Hpre].
Qed.

End Arguments.

Lemma node_arguments_are_outputs_of_earlier_nodes_witness :
  exists st n, sample_build net_with_dead_branch = Ok st /\
               id_to_node st !! 3 = Some n /\
               n_inputs n = [Some (mkOutput 2 0)].
Proof.
  pose (r := sample_build net_with_dead_branch).
  assert (sample_build net_with_dead_branch = r) as E by reflexivity.
  vm_compute in r.
  match goal with r := Ok ?s |- _ => exists s; subst r;
    pose (n := id_to_node s !! 3);
    assert (id_to_node s !! 3 = n) as En by reflexivity
  end.
  vm_compute in n.
  match goal with n := Some ?x |- _ => exists x end. subst n.
  split; [exact E|]. split; [exact En|].
  pose (re := read_edges (Some net_with_dead_branch)).
  assert (read_edges (Some net_with_dead_branch) = re) as Ee by reflexivity.
  vm_compute in re.
  match goal with re := Ok ?e |- _ =>
    destruct (node_arguments_are_outputs_of_earlier_nodes
                sample_construct sample_opsets false no_weights
                (fun op store inputs node w n H =>
                   match H in (_ = r) return
                     (match r with Ok m => n_inputs m = inputs | Throw _ => True end)
                   with eq_refl => eq_refl end)
                _ _ _ e E Ee 3 _ En) as [Hlen _]
  end.
  reflexivity.
Defined.

(** ** Names written with escaped commas *)

Lemma all_chars_app (P : ascii -> bool) (a b : string) :
  all_chars P (a +:+ b) = all_chars P a && all_chars P b.
Proof.
  induction a as [|c a IH]; [reflexivity|].
  rewrite str_app_cons. simpl. by rewrite IH, andb_assoc.
Qed.

Lemma getline_aux_field (t rest cur : string) :
  all_chars name_char t = true ->
  getline_fields_aux (t +:+ rest) cur = getline_fields_aux rest (cur +:+ t).
Proof.
  revert cur. induction t as [|c t IH]; intros cur Ht.
  - by rewrite str_app_nil_r.
  - simpl in Ht. apply andb_true_iff in Ht as [Hc Ht].
    unfold name_char in Hc. apply andb_true_iff in Hc as [_ Hc].
    apply negb_true_iff in Hc.
    rewrite str_app_cons. cbn [getline_fields_aux]. rewrite Hc, (IH _ Ht), str_app_assoc.
    reflexivity.
Qed.

Lemma getline_fields_concat (toks : list string) :
  Forall (fun t => t <> "" /\ all_chars name_char t = true) toks ->
  getline_fields (String.concat "," toks) = toks.
Proof.
  intros Hall.
  assert (forall toks, Forall (fun t => t <> "" /\ all_chars name_char t = true) toks ->
            toks <> [] ->
            String.concat "," toks <> "" /\
            getline_fields_aux (String.concat "," toks) "" = toks) as Haux.
  { clear. induction toks as [|t toks IH]; intros Hall Hne; [contradiction|].
    apply Forall_cons in Hall as [[Ht Hchars] Hall].
    destruct toks as [|t' toks].
    - simpl. split; [exact Ht|].
      rewrite <- (str_app_nil_r t) at 1. by rewrite getline_aux_field.
    - destruct (IH Hall) as [Hrest IHaux]; [discriminate|].
      change (String.concat "," (t :: t' :: toks))
        with (t +:+ String "," (String.concat "," (t' :: toks))).
      split; [destruct t; [contradiction | discriminate]|].
      rewrite getline_aux_field by exact Hchars.
      cbn [getline_fields_aux]. change (Ascii.eqb "," ",") with true. cbv iota.
      destruct (String.concat "," (t' :: toks)) eqn:E; [contradiction|].
      by rewrite IHaux. }
  destruct toks as [|t toks]; [reflexivity|].
  destruct (Haux (t :: toks) Hall) as [Hne Heq]; [discriminate|].
  unfold getline_fields. destruct (String.concat "," (t :: toks)); [contradiction | exact Heq].
Qed.

Lemma extract_string_word (t : string) :
  all_chars name_char t = true -> extract_string t = t.
Proof.
  intros Ht. unfold extract_string.
  assert (forall s, all_chars name_char s = true -> take_word s = s) as Hword.
  { induction s as [|c s IH]; intros Hs; [reflexivity|]. simpl in *.
    apply andb_true_iff in Hs as [Hc Hs]. unfold name_char in Hc.
    apply andb_true_iff in Hc as [Hc _]. apply negb_true_iff in Hc.
    by rewrite Hc, IH. }
  destruct t as [|c t]; [reflexivity|].
  assert (is_space c = false) as Hc.
  { simpl in Ht. apply andb_true_iff in Ht as [Hc _]. unfold name_char in Hc.
    apply andb_true_iff in Hc as [Hc _]. by apply negb_true_iff in Hc. }
  cbn [skip_space]. rewrite Hc. by apply Hword.
Qed.

Lemma string_last_snoc (a : string) (c : ascii) :
  string_last (a +:+ String c "") = Some c.
Proof.
  unfold string_last.
  assert (String.length (a +:+ String c "") = S (String.length a)) as ->.
  { induction a as [|d a IH]; [reflexivity|]. rewrite str_app_cons. simpl. by rewrite IH. }
  induction a as [|d a IH]; [reflexivity|]. rewrite str_app_cons. exact IH.
Qed.

Lemma drop_last_snoc (a : string) (c : ascii) : drop_last (a +:+ String c "") = a.
Proof.
  unfold drop_last.
  assert (String.length (a +:+ String c "") = S (String.length a)) as ->.
  { induction a as [|d a IH]; [reflexivity|]. rewrite str_app_cons. simpl. by rewrite IH. }
  replace (S (String.length a) - 1)%nat with (String.length a) by lia.
  induction a as [|d a IH]; [reflexivity|]. rewrite str_app_cons. simpl. by rewrite IH.
Qed.

Lemma closing_part_spec (s : string) :
  closing_part s = true ->
  s <> "" /\ all_chars name_char s = true /\ ends_with_backslash s = false.
Proof.
  unfold closing_part. intros H.
  apply andb_true_iff in H as [H Hend]. apply andb_true_iff in H as [Hne Hchars].
  apply negb_true_iff in Hend. apply negb_true_iff, String.eqb_neq in Hne. auto.
Qed.

Lemma written_tokens_fields (ws : list written_name) :
  forallb written_ok ws = true ->
  Forall (fun t => t <> "" /\ all_chars name_char t = true) (ws ≫= written_tokens).
Proof.
  induction ws as [|w ws IH]; intros H; [constructor|].
  simpl in H. apply andb_true_iff in H as [Hw H]. specialize (IH H).
  destruct w as [s|a b]; simpl in Hw.
  - apply closing_part_spec in Hw as (Hne & Hchars & _).
    change ((Plain s :: ws) ≫= written_tokens) with (s :: (ws ≫= written_tokens)).
    by constructor.
  - apply andb_true_iff in Hw as [Ha Hb].
    apply closing_part_spec in Hb as (Hne & Hchars & _).
    change ((WithComma a b :: ws) ≫= written_tokens)
      with ((a +:+ String backslash "") :: b :: (ws ≫= written_tokens)).
    constructor; [|by constructor].
    split; [destruct a; discriminate|].
    rewrite all_chars_app, Ha. reflexivity.
Qed.

Lemma restore_written (ws : list written_name) :
  forallb written_ok ws = true ->
  match ws ≫= written_tokens with
  | [] => ws = []
  | first :: rest => restore_names first first rest = Ok (written_value <$> ws)
  end.
Proof.
  induction ws as [|w ws IH]; intros H; [reflexivity|].
  simpl in H. apply andb_true_iff in H as [Hw H]. specialize (IH H).
  assert (forall name cur, cur <> "" -> ends_with_backslash cur = false ->
            restore_names name cur (ws ≫= written_tokens)
            = Ok (name :: (written_value <$> ws))) as Hrest.
  { intros name cur Hne Hend. rewrite restore_names_plain by done.
    destruct (ws ≫= written_tokens) as [|next rest']; [by rewrite IH|].
    by rewrite IH. }
  destruct w as [s|a b]; simpl in Hw.
  - apply closing_part_spec in Hw as (Hne & _ & Hend).
    change ((Plain s :: ws) ≫= written_tokens) with (s :: (ws ≫= written_tokens)).
    by apply Hrest.
  - apply andb_true_iff in Hw as [_ Hb].
    apply closing_part_spec in Hb as (Hne & _ & Hend).
    change ((WithComma a b :: ws) ≫= written_tokens)
      with ((a +:+ String backslash "") :: b :: (ws ≫= written_tokens)).
    cbv beta iota. rewrite restore_names_escaped.
    + rewrite drop_last_snoc. by apply Hrest.
    + unfold ends_with_backslash. rewrite string_last_snoc. apply Ascii.eqb_refl.
Qed.

(** X24.  Names written with escaped commas are read back.  Take names
    without white space, each with at most one comma, a plain name and the
    part after a comma being non-empty and not ending in a backslash.
    Written into the names attribute, separated by commas and with a
    backslash before the comma of a name, they are read back by
    [parse_names] as they were, in order. *)
Theorem names_with_one_comma_read_back (ws : list written_name) :
  forallb written_ok ws = true ->
  parse_names (names_attr (written_attr ws)) = Ok (written_value <$> ws).
Proof.
  intros Hok. unfold parse_names, getParameters_string, getParameters, stored_string.
  change (getStrAttribute (Some (names_attr (written_attr ws))) "names")
    with (Some (written_attr ws)).
  unfold written_attr.
  pose proof (written_tokens_fields ws Hok) as Hfields.
  rewrite (getline_fields_concat _ Hfields).
  rewrite getParameters_fields_all.
  - replace (extract_string <$> ws ≫= written_tokens) with (ws ≫= written_tokens).
    + unfold mbind at 1, result_bind. cbv beta iota.
      pose proof (restore_written ws Hok) as Hrestore.
      destruct (ws ≫= written_tokens) as [|first rest]; [by rewrite Hrestore | exact Hrestore].
    + clear Hok. induction Hfields as [|t toks [_ Ht] _ IH]; [reflexivity|].
      rewrite fmap_cons, <- IH. by rewrite extract_string_word.
  - intros Hin. apply list_elem_of_In in Hin.
    apply (proj1 (Forall_forall _ _) Hfields) in Hin as [Hne _]. by apply Hne.
Qed.

Lemma names_with_one_comma_read_back_witness :
  parse_names (names_attr ("x," +:+ "a" +:+ String backslash "" +:+ ",b" +:+ ",y"))
  = Ok ["x"; "a,b"; "y"].
Proof.
  apply (names_with_one_comma_read_back [Plain "x"; WithComma "a" "b"; Plain "y"]).
  reflexivity.
Defined.

(** ** The wiring of the constructed nodes *)

Lemma NoDup_fmap_elem_inj {A B} (f : A -> B) (l : list A) (x y : A) :
  NoDup (f <$> l) -> x ∈ l -> y ∈ l -> f x = f y -> x = y.
Proof.
  induction l as [|a l IH]; intros Hnd Hx Hy Hf; [inversion Hx|].
  rewrite fmap_cons in Hnd. apply NoDup_cons in Hnd as [Ha Hnd].
  apply elem_of_cons in Hx as [->|Hx]; apply elem_of_cons in Hy as [->|Hy]; auto.
  - exfalso. apply Ha. rewrite Hf. apply list_elem_of_fmap. eauto.
  - exfalso. apply Ha. rewrite <- Hf. apply list_elem_of_fmap. eauto.
Qed.

(** The vector that [createNode] accepts: every slot is bound by the edge
    whose to-port has the rank of the slot, and every edge has bound the
    slot of the rank of its to-port. *)
Lemma gathered_and_checked (params : gmap Z node_params) (store : gmap Z Node)
  (p : GenericLayerParams) (es : list edge) (inputs : list (option Output)) :
  gather_inputs params store p es = Ok inputs ->
  check_inputs store inputs = Ok tt ->
  length inputs = length es /\
  (forall i, (i < length es)%nat ->
     exists e out, e ∈ es /\ wired_by params store p e i out /\
                   inputs !! i = Some (Some out)) /\
  (forall e, e ∈ es ->
     exists r out, wired_by params store p e r out /\ inputs !! r = Some (Some out)).
Proof.
  intros Hg Hc. unfold gather_inputs in Hg.
  destruct (gather_fold _ _ _ _ _ _ Hg) as (Hlen & _ & Hall & Hback).
  rewrite length_replicate in Hlen.
  assert (forall i out, inputs !! i = Some (Some out) ->
            exists e, e ∈ es /\ wired_by params store p e i out) as Hwired.
  { intros i out Hout. destruct (Hback i out Hout) as [H0|H0]; [|exact H0].
    apply lookup_replicate in H0 as [H0 _]. discriminate. }
  assert (forall i, (i < length es)%nat ->
            exists e out, e ∈ es /\ wired_by params store p e i out /\
                          inputs !! i = Some (Some out)) as Hslots.
  { intros i Hi. rewrite <- Hlen in Hi.
    destruct (check_inputs_Ok _ _ _ Hc i Hi) as (out & Hout & _).
    destruct (Hwired i out Hout) as (e & He & Hw). exists e, out. auto. }
  assert (NoDup (toPortId <$> es)) as Hnd.
  { apply (NoDup_fmap_1 (input_rank_or_zero p)).
    assert (seq 0 (length es) ⊆+ input_rank_or_zero p <$> (toPortId <$> es)) as Hsub.
    { apply NoDup_submseteq; [apply NoDup_seq|].
      intros i Hi. apply elem_of_seq in Hi as [_ Hi]. simpl in Hi.
      destruct (Hslots i Hi) as (e & out & He & (Hrank & _) & _).
      apply getRealInputPortId_rank in Hrank.
      apply list_elem_of_fmap. exists (toPortId e). split.
      - unfold input_rank_or_zero. by rewrite Hrank.
      - apply list_elem_of_fmap. eauto. }
    apply submseteq_length_Permutation in Hsub.
    - rewrite <- Hsub. apply NoDup_seq.
    - rewrite !length_fmap, length_seq. lia. }
  split; [exact Hlen|]. split; [exact Hslots|].
  intros e He. destruct (Hall e He) as (r & out & Hr & Hout).
  destruct (Hwired r out Hout) as (e' & He' & Hw).
  assert (e' = e) as ->; [|eauto].
  apply (NoDup_fmap_elem_inj toPortId es); auto.
  destruct Hw as ([Hr' _] & _), Hr as [Hr _]. congruence.
Qed.

Section ConstructedNodes.

Context {Op : Type}.
Variable construct :
  Op -> gmap Z Node -> list (option Output) -> option xml_node -> Blob -> result Node.
Variable m_opsets : gmap string (OpSet Op).
Variable m_use_framework_node : bool.
Variable weights : Blob.

(** Every node of the store was made by [createNode] from the vector
    gathered along the edges of its layer, over the nodes built before it. *)
Lemma build_nodes_created (params : gmap Z node_params) (edges : gmap Z (list edge))
  (order : list Z) (io : IoMap) (st : build_state) :
  build_nodes Op construct m_opsets m_use_framework_node weights params edges order io = Ok st ->
  NoDup order -> (forall x, x ∈ order -> is_Some (edges !! x)) ->
  forall id n, id_to_node st !! id = Some n ->
    exists store inputs,
      store ⊆ id_to_node st /\
      gather_inputs params store (np_params (params_at params id)) (edges_at edges id)
        = Ok inputs /\
      createNode Op construct m_opsets m_use_framework_node store inputs
                 (np_xml (params_at params id)) weights (np_params (params_at params id))
        = Ok n.
Proof.
  unfold build_nodes. intros H Hnd Hedges.
  apply (fold_result_inv _
           (fun st done =>
              build_inv st done /\
              forall id n, id_to_node st !! id = Some n ->
                exists store inputs,
                  store ⊆ id_to_node st /\
                  gather_inputs params store (np_params (params_at params id))
                                (edges_at edges id) = Ok inputs /\
                  createNode Op construct m_opsets m_use_framework_node store inputs
                             (np_xml (params_at params id)) weights
                             (np_params (params_at params id)) = Ok n)) in H.
  - exact (proj2 H).
  - split.
    + unfold build_inv. simpl.
      repeat split; try (intros Hx; inversion Hx; fail);
        try (intros (n & Hn & _); rewrite lookup_empty in Hn; discriminate);
        try (intros [n Hn]; rewrite lookup_empty in Hn; discriminate).
      * intros v id Hv. rewrite lookup_empty in Hv. discriminate.
      * intros id n v Hn. rewrite lookup_empty in Hn. discriminate.
    + intros id n Hn. simpl in Hn. rewrite lookup_empty in Hn. discriminate.
  - intros s done a rest s' Horder [Hinv Hcreated] Hstep.
    assert (a ∈ order) as Ha by (rewrite Horder; apply elem_of_app; right; left).
    assert (a ∉ done) as Hnew.
    { rewrite Horder in Hnd. apply NoDup_app in Hnd as (_ & Hdisj & _).
      intros Hin'. apply (Hdisj a Hin'). left. }
    pose proof Hinv as (Hdom & _).
    assert (id_to_node s !! a = None) as Hnone.
    { destruct (id_to_node s !! a) eqn:E; [|reflexivity]. exfalso. apply Hnew, Hdom. eauto. }
    unfold build_layer in Hstep. destruct (Hedges a Ha) as [es Hes]. rewrite Hes in Hstep.
    inv_bind Hstep. rename a0 into inputs. inv_bind Hstep. rename a0 into node.
    injection Hstep as <-.
    split; [by apply index_node_inv|].
    assert (id_to_node (index_node s a node) = <[a := node]> (id_to_node s)) as ->
      by (unfold index_node; by destruct (n_is_parameter node), (n_is_result node)).
    assert (id_to_node s ⊆ <[a := node]> (id_to_node s)) as Hsub
      by (by apply insert_subseteq).
    intros id n Hn. destruct (decide (id = a)) as [->|Hne].
    + rewrite lookup_insert_eq in Hn. injection Hn as <-.
      exists (id_to_node s), inputs. split; [exact Hsub|].
      unfold edges_at. rewrite Hes. simpl. auto.
    + rewrite lookup_insert_ne in Hn by congruence.
      destruct (Hcreated id n Hn) as (store & ins & Hstore & Hg & Hc).
      exists store, ins. split; [by etransitivity | auto].
Qed.

(** C1.  Every constructed node was made by [createNode] from the vector
    gathered along the edges of its layer, over nodes of the function.  The
    vector has one slot per edge.  Every edge has bound the slot whose index
    is the rank of its to-port id among the declared input ports of the
    layer, to the output of its source node whose index is the rank of its
    from-port id among the declared output ports of the source layer; and
    every slot is bound in this way by one of the edges.  With input ports
    declared as 7, 3, 9, an edge to port 3 has bound the second slot.  With
    an operator library that leaves on a node the arguments it is given,
    the vector is the list of the node's inputs. *)
Theorem inputs_wired_by_port_rank (root : option xml_node) (io : IoMap) (st : build_state)
  (layers : layer_table) (edges : gmap Z (list edge)) :
  construct_function_nodes Op construct m_opsets m_use_framework_node root weights io = Ok st ->
  read_layers root = Ok layers -> read_edges root = Ok edges ->
  forall id n, id_to_node st !! id = Some n ->
    let p := np_params (params_at (lt_params layers) id) in
    let es := edges_at edges id in
    exists store inputs,
      store ⊆ id_to_node st /\
      gather_inputs (lt_params layers) store p es = Ok inputs /\
      createNode Op construct m_opsets m_use_framework_node store inputs
                 (np_xml (params_at (lt_params layers) id)) weights p = Ok n /\
      length inputs = length es /\
      (forall e, e ∈ es ->
         exists r out, wired_by (lt_params layers) store p e r out /\
                       inputs !! r = Some (Some out)) /\
      (forall i, (i < length es)%nat ->
         exists e out, e ∈ es /\ wired_by (lt_params layers) store p e i out /\
                       inputs !! i = Some (Some out)) /\
      (portId <$> inputPorts p = [7; 3; 9] ->
       forall e, e ∈ es -> toPortId e = 3 ->
         exists out, inputs !! 1%nat = Some (Some out) /\ out_node out = fromLayerId e) /\
      ((forall op store' inputs' node w m,
          construct op store' inputs' node w = Ok m -> n_inputs m = inputs') ->
       n_inputs n = inputs).
Proof.
  intros H Hl He id n Hn p es. unfold construct_function_nodes in H.
  rewrite Hl, He in H. unfold mbind, result_bind in H. cbv beta iota in H.
  destruct (topological_order_total edges (lt_outputs layers))
    as (d & Hd & Hs & Hnd & Hreach & Hentries).
  rewrite Hd in H.
  destruct (build_nodes_created _ _ _ _ _ H Hnd Hentries id n Hn)
    as (store & inputs & Hstore & Hg & Hc).
  rewrite Hs in Hg. fold p es in Hg, Hc.
  exists store, inputs. split; [exact Hstore|]. split; [exact Hg|]. split; [exact Hc|].
  destruct (gathered_and_checked _ _ _ _ _ Hg (createNode_checks _ _ _ _ _ _ _ _ _ Hc))
    as (Hlen & Hslots & Hedges).
  split; [exact Hlen|]. split; [exact Hedges|]. split; [exact Hslots|]. split.
  - intros Hids e Hin Hto. destruct (Hedges e Hin) as (r & out & Hw & Hout).
    assert (r = 1%nat) as ->.
    { destruct Hw as ([Hr Hfirst] & _). rewrite Hto in Hr, Hfirst.
      rewrite <- list_lookup_fmap, Hids in Hr.
      destruct r as [|[|[|r]]]; simpl in Hr; try congruence.
      exfalso. apply (Hfirst 1%nat); [lia|].
      rewrite <- list_lookup_fmap, Hids. reflexivity. }
    exists out. split; [exact Hout|]. by destruct Hw as (_ & Hnode & _).
  - intros Hlib. by eapply createNode_arguments.
Qed.

End ConstructedNodes.

(** The layer 4 declares the input ports 7, 3, 9; the edge from layer 2 leads
    to port 3 and is the second input of the node. *)
Lemma inputs_wired_by_port_rank_witness :
  exists st n out, sample_build net_three_inputs = Ok st /\
                   id_to_node st !! 4 = Some n /\
                   n_inputs n !! 1%nat = Some (Some out) /\ out_node out = 2.
Proof.
  pose (r := sample_build net_three_inputs).
  assert (sample_build net_three_inputs = r) as E by reflexivity.
  pose (rl := read_layers (Some net_three_inputs)).
  assert (read_layers (Some net_three_inputs) = rl) as El by reflexivity.
  pose (re := read_edges (Some net_three_inputs)).
  assert (read_edges (Some net_three_inputs) = re) as Ee by reflexivity.
  vm_compute in r, rl, re.
  match goal with r := Ok ?s, rl := Ok ?l, re := Ok ?e |- _ =>
    pose (n := id_to_node s !! 4);
    assert (id_to_node s !! 4 = n) as En by reflexivity;
    vm_compute in n;
    match goal with n := Some ?x |- _ =>
      destruct (inputs_wired_by_port_rank sample_construct sample_opsets false no_weights
                  (Some net_three_inputs) empty_io_map s l e E El Ee 4 x En)
        as (store & inputs & _ & _ & _ & _ & _ & _ & Hex & Hlib);
      exists s, x
    end
  end.
  destruct (Hex eq_refl (mkEdge 2 0 3)) as (out & Hout & Hnode);
    [apply list_elem_of_In; vm_compute; auto | reflexivity |].
  exists out. split; [exact E|]. split; [exact En|].
  rewrite Hlib; [auto|].
  intros op store' inputs' node w m Hm. unfold sample_construct in Hm.
  by injection Hm as <-.
Defined.

(** ** The layers that are not reached *)

Section Unreached.

Variable E : gmap Z (list edge).
Variable R : Z -> Prop.
Hypothesis R_closed : forall x y, R x -> feeds E x y -> R y.

Lemma fold_agree {A} (key : A -> Z) (visit visit' : A -> dfs_state -> option dfs_state) :
  (forall a st st' r r', R (key a) -> dfs_agree E R st st' ->
     visit a st = Some r -> visit' a st' = Some r' -> dfs_agree E R r r') ->
  forall l st st' r r',
    (forall a, a ∈ l -> R (key a)) -> dfs_agree E R st st' ->
    fold_option visit l st = Some r -> fold_option visit' l st' = Some r' ->
    dfs_agree E R r r'.
Proof.
  intros Hvisit l. induction l as [|a l IH]; intros st st' r r' Hl Hag H H'; simpl in *.
  - by injection H as <-; injection H' as <-.
  - destruct (visit a st) as [s1|] eqn:Hv; [|discriminate].
    destruct (visit' a st') as [s1'|] eqn:Hv'; [|discriminate]. simpl in *.
    apply (IH s1 s1'); auto.
    + intros b Hb. apply Hl. by right.
    + apply (Hvisit a st st'); auto. apply Hl. left.
Qed.

Lemma dfs_agrees (b : nat) :
  forall b' id st st' r r',
    R id -> dfs_agree E R st st' ->
    dfs b id st = Some r -> dfs b' id st' = Some r' -> dfs_agree E R r r'.
Proof.
  induction b as [|b IH]; intros b' id st st' r r' Hid Hag H H'; [discriminate|].
  destruct b' as [|b']; [discriminate|]. simpl in H, H'.
  pose proof Hag as (Hused & Horder & Hedges).
  rewrite <- Hused in H'.
  destruct (bool_decide (id ∈ d_used st)).
  - by injection H as <-; injection H' as <-.
  - destruct (Hedges id Hid) as [He He']. rewrite He in H. rewrite He' in H'.
    match type of H with
    | context [fold_option ?f ?l ?s] =>
        destruct (fold_option f l s) as [st2|] eqn:Hf; [|discriminate]
    end.
    match type of H' with
    | context [fold_option ?f ?l ?s] =>
        destruct (fold_option f l s) as [st2'|] eqn:Hf'; [|discriminate]
    end.
    simpl in H, H'. injection H as <-. injection H' as <-.
    assert (dfs_agree E R st2 st2') as (Hu2 & Ho2 & He2).
    { eapply (fold_agree fromLayerId); [| | |exact Hf|exact Hf'].
      - intros e s s' r0 r0' Hr Hs. by apply (IH b' (fromLayerId e) s s').
      - intros e He0. apply (R_closed id); [exact Hid|]. by exists e.
      - split; [simpl; by rewrite Hused|]. split; [exact Horder|].
        intros x Hx. simpl. rewrite !edges_at_touch. by apply Hedges. }
    split; [exact Hu2|]. split; [simpl; by rewrite Ho2 | exact He2].
Qed.

End Unreached.

Lemma reachable_closed (edges : gmap Z (list edge)) (outputs : list Z) (x y : Z) :
  reachable edges outputs x -> feeds edges x y -> reachable edges outputs y.
Proof.
  intros (r & Hr & Hrx) Hf. exists r. split; [exact Hr|]. by eapply rtc_r.
Qed.

(** The search over an edge table that differs only in the edge lists of
    layers that are not reached finishes the same layers in the same order,
    and leaves the reached layers their edge lists. *)
Lemma topological_order_agree (edges edges' : gmap Z (list edge)) (outputs : list Z) :
  (forall x, reachable edges outputs x -> edges_at edges' x = edges_at edges x) ->
  exists d d',
    topological_order edges outputs = Some d /\
    topological_order edges' outputs = Some d' /\
    d_order d' = d_order d /\
    same_edges edges d /\
    (forall x, x ∈ d_order d <-> reachable edges outputs x) /\
    NoDup (d_order d) /\
    (forall x, x ∈ d_order d -> is_Some (d_edges d !! x) /\ d_edges d' !! x = d_edges d !! x).
Proof.
  intros Hagree.
  destruct (topological_order_total edges outputs) as (d & Hd & Hs & Hnd & Hreach & Hent).
  destruct (topological_order_total edges' outputs) as (d' & Hd' & Hs' & _ & _ & Hent').
  exists d, d'. split; [exact Hd|]. split; [exact Hd'|].
  assert (dfs_agree edges (reachable edges outputs) d d') as (_ & Ho & He).
  { unfold topological_order in Hd, Hd'.
    eapply (fold_agree edges (reachable edges outputs) (fun i => i));
      [| | |exact Hd|exact Hd'].
    - intros i s s' r0 r0' Hr Hs0.
      by apply (dfs_agrees edges (reachable edges outputs) (reachable_closed edges outputs)).
    - intros i Hi. exists i. split; [exact Hi | apply rtc_refl].
    - split; [reflexivity|]. split; [reflexivity|].
      intros x Hx. simpl. split; [reflexivity | by apply Hagree]. }
  split; [by rewrite Ho|]. split; [exact Hs|]. split; [exact Hreach|]. split; [exact Hnd|].
  intros x Hx. split; [by apply Hent|].
  destruct (Hent x Hx) as [es Hes].
  destruct (Hent' x) as [es' Hes']; [by rewrite <- Ho|].
  destruct (He x (proj1 (Hreach x) Hx)) as [H1 H2].
  unfold edges_at in H1, H2. rewrite Hes in H1. rewrite Hes' in H2. simpl in H1, H2.
  rewrite Hes, Hes'. congruence.
Qed.

Section UnreachedLayers.

Context {Op : Type}.
Variable construct :
  Op -> gmap Z Node -> list (option Output) -> option xml_node -> Blob -> result Node.
Variable m_opsets : gmap string (OpSet Op).
Variable m_use_framework_node : bool.
Variable weights : Blob.

Lemma construct_function_nodes_tables (root : option xml_node) (io : IoMap)
  (layers : layer_table) (edges : gmap Z (list edge)) :
  read_layers root = Ok layers -> read_edges root = Ok edges ->
  construct_function_nodes Op construct m_opsets m_use_framework_node root weights io
  = construct_from_tables construct m_opsets m_use_framework_node weights
                          (lt_params layers) edges (lt_outputs layers) io.
Proof.
  intros Hl He. unfold construct_function_nodes, construct_from_tables.
  by rewrite Hl, He.
Qed.

(** C10, as amended.  Once the layers and the edges are read: the nodes that
    are constructed, and the nodes of the function that is returned, are
    exactly the layers reached from a layer of type Result or Assign by
    following the edges from destination to source; and a layer that is not
    reached has no part in the outcome: with any table of layer parameters
    and any table of edges that agree on the reached layers, the search and
    the construction give the same nodes or the same exception. *)
Theorem function_nodes_are_the_reached_layers (root : option xml_node) (io : IoMap)
  (layers : layer_table) (edges : gmap Z (list edge)) :
  read_layers root = Ok layers -> read_edges root = Ok edges ->
  (forall id, id ∈ lt_outputs layers <-> output_layer (layer_nodes_of root) id) /\
  (forall st,
     construct_function_nodes Op construct m_opsets m_use_framework_node root weights io
       = Ok st ->
     (forall id, is_Some (id_to_node st !! id) <-> reachable edges (lt_outputs layers) id) /\
     (forall id, id ∈ fn_all (func_nodes st) <-> reachable edges (lt_outputs layers) id) /\
     (forall f, make_function root st = Ok f ->
        forall id, is_Some (f_nodes f !! id) <-> reachable edges (lt_outputs layers) id)) /\
  (forall params' edges',
     (forall id, reachable edges (lt_outputs layers) id ->
                 params' !! id = lt_params layers !! id /\
                 edges_at edges' id = edges_at edges id) ->
     construct_from_tables construct m_opsets m_use_framework_node weights
                           params' edges' (lt_outputs layers) io
     = construct_function_nodes Op construct m_opsets m_use_framework_node root weights io).
Proof.
  intros Hl He. split; [by apply read_layers_outputs|]. split.
  - intros st H.
    destruct (construct_function_nodes_Ok _ _ _ _ _ _ _ H)
      as (layers' & edges0 & d & Hl' & He' & Hd & Hs & Hreach & Hbuild & Hinv).
    rewrite Hl in Hl'. injection Hl' as <-. rewrite He in He'. injection He' as <-.
    destruct Hinv as (Hdom & Hall & _).
    split; [intros id; by rewrite Hdom, Hreach|].
    split; [intros id; by rewrite Hall, Hreach|].
    intros f Hf id. unfold make_function in Hf. inv_bind Hf. rename a into store.
    injection Hf as <-. simpl.
    destruct (patch_fold_Ok _ _ _ _ Ha) as (Hkeep & Hback & _).
    rewrite <- Hreach, <- Hdom. split; [apply Hback|].
    intros [n Hn]. destruct (Hkeep id n Hn) as (n' & Hn' & _). eauto.
  - intros params' edges' Hagree.
    rewrite (construct_function_nodes_tables root io layers edges Hl He).
    unfold construct_from_tables.
    destruct (topological_order_agree edges edges' (lt_outputs layers))
      as (d & d' & -> & -> & Ho & Hs & Hreach & Hnd & Hent);
      [intros x Hx; by apply Hagree|].
    rewrite Ho. unfold build_nodes. apply fold_result_ext.
    intros x st Hx. unfold build_layer.
    destruct (Hent x Hx) as [[es Hes] Hsame]. rewrite Hsame, Hes.
    apply Hreach in Hx.
    assert (params_at params' x = params_at (lt_params layers) x) as ->
      by (unfold params_at; by rewrite (proj1 (Hagree x Hx))).
    rewrite (gather_inputs_params_agree params' (lt_params layers)); [reflexivity|].
    intros e He0.
    assert (reachable edges (lt_outputs layers) (fromLayerId e)) as Hsrc.
    { apply (reachable_closed _ _ x); [exact Hx|].
      exists e. split; [|reflexivity].
      rewrite <- Hs. unfold edges_at. by rewrite Hes. }
    unfold params_at. by rewrite (proj1 (Hagree (fromLayerId e) Hsrc)).
Qed.

End UnreachedLayers.

(** C10, counterexample.  The layer 5 leads to no Result and no Assign.  With
    a name of its own it is left out and three nodes are built; with the name
    of layer 2 it makes the conversion throw. *)
Lemma unreached_layer_makes_conversion_throw :
  sample_parse net_dead_name_clash = Throw (IE_exception "Invalid IR! name is not unique!") /\
  exists st, sample_build net_with_dead_branch = Ok st /\
             fn_all (func_nodes st) = [1; 2; 3].
Proof.
  split; [vm_compute; reflexivity|].
  pose (r := sample_build net_with_dead_branch).
  assert (sample_build net_with_dead_branch = r) as E by reflexivity.
  vm_compute in r.
  match goal with r := Ok ?s |- _ => exists s end. subst r.
  split; [exact E | reflexivity].
Qed.

(** The sample network with a dead branch: the layers 4 and 5 lead to no
    Result; three nodes are built, and they are built all the same when the
    layer 5 and the edge that leads to it are taken out of the tables. *)
Lemma function_nodes_are_the_reached_layers_witness :
  exists st layers edges,
    sample_build net_with_dead_branch = Ok st /\
    read_layers (Some net_with_dead_branch) = Ok layers /\
    read_edges (Some net_with_dead_branch) = Ok edges /\
    fn_all (func_nodes st) = [1; 2; 3] /\
    construct_from_tables sample_construct sample_opsets false no_weights
                          (delete 5 (lt_params layers)) (delete 5 edges)
                          (lt_outputs layers) empty_io_map = Ok st.
Proof.
  pose (r := sample_build net_with_dead_branch).
  assert (sample_build net_with_dead_branch = r) as E by reflexivity.
  pose (rl := read_layers (Some net_with_dead_branch)).
  assert (read_layers (Some net_with_dead_branch) = rl) as El by reflexivity.
  vm_compute in r, rl.
  set (e := <[5 := [mkEdge 4 0 0]]> (<[3 := [mkEdge 2 1 0]]> (<[2 := [mkEdge 1 0 0]]> ∅))
            : gmap Z (list edge)).
  assert (read_edges (Some net_with_dead_branch) = Ok e) as Ee by (vm_compute; reflexivity).
  assert (forall x y, feeds e x y ->
            (x = 5 /\ y = 4) \/ (x = 3 /\ y = 2) \/ (x = 2 /\ y = 1)) as Hfeeds.
  { intros x y (ed & Hin & <-). unfold edges_at, e in Hin.
    destruct (decide (x = 5)) as [->|H5].
    { rewrite lookup_insert_eq in Hin. apply list_elem_of_singleton in Hin as ->. auto. }
    rewrite lookup_insert_ne in Hin by congruence.
    destruct (decide (x = 3)) as [->|H3].
    { rewrite lookup_insert_eq in Hin. apply list_elem_of_singleton in Hin as ->. auto. }
    rewrite lookup_insert_ne in Hin by congruence.
    destruct (decide (x = 2)) as [->|H2].
    { rewrite lookup_insert_eq in Hin. apply list_elem_of_singleton in Hin as ->. auto. }
    rewrite lookup_insert_ne in Hin by congruence.
    rewrite lookup_empty in Hin. inversion Hin. }
  match goal with r := Ok ?s, rl := Ok ?l |- _ =>
    exists s, l, e;
    destruct (function_nodes_are_the_reached_layers
                sample_construct sample_opsets false no_weights
                (Some net_with_dead_branch) empty_io_map l e El Ee) as (_ & _ & H)
  end.
  split; [exact E|]. split; [exact El|]. split; [exact Ee|]. split; [reflexivity|].
  rewrite H; [exact E|].
  intros id (root & Hroot & Hrtc). simpl in Hroot.
  apply list_elem_of_singleton in Hroot as ->.
  assert (id <> 5) as Hid.
  { apply rtc_tc in Hrtc as [<-|Htc]; [lia|].
    assert (id = 2 \/ id = 1) as Hbelow; [|lia].
    apply (tc_stays (feeds e) (fun x => x = 2 \/ x = 1)) with (x := 3); [| exact Htc |].
    - intros x y Hx Hf. apply Hfeeds in Hf. lia.
    - intros z Hf. apply Hfeeds in Hf. lia. }
  split.
  - by rewrite lookup_delete_ne.
  - unfold edges_at. by rewrite lookup_delete_ne.
Defined.
